(** * Verification of the embedded motor-controller driver

    A shallow embedding of the driver core
    (device_registers.c, motor_controller.c, sensor_array.c,
    interrupt_handler.c) and the properties of its specification.

    Conventions of the embedding.
    - A C [uint32_t] is a [Z] in [0, 2^32); arithmetic that can leave the
      range is written with its wrap-around ([add32], [sub32], [not32]).
      An [int32_t] is a [Z] in [-2^31, 2^31).
    - A C array is a [list] accessed with stdpp's lookup [!!] and insert
      [<[i:=x]>]; every C access below is guarded by a bounds check in the
      source, so the out-of-range behaviour of the list operations is never
      reached on well-formed data.
    - A structure that is mutated through a pointer is passed in and
      returned.  The register file, which the motor, the sensors and the
      interrupt controller share through their [regs] pointer, is threaded
      explicitly next to the component that uses it.
    - Every entry point of the driver starts with a defensive test of its
      context pointer ([if (!mc) return -1;]).  The embedding describes the
      calls made on an existing context, i.e. the other branch. *)

From Stdlib Require Import ZArith Lia Bool Sorted.
From stdpp Require Import base numbers list.

Local Open Scope Z_scope.

(** ** Machine integers *)

Definition uint32_mod : Z := 2 ^ 32.

Definition is_uint32 (x : Z) : Prop := 0 <= x < uint32_mod.

(** [a + b] and [a - b] on [uint32_t]. *)
Definition add32 (a b : Z) : Z := (a + b) mod uint32_mod.
Definition sub32 (a b : Z) : Z := (a - b) mod uint32_mod.

(** [~x] on [uint32_t]. *)
Definition not32 (x : Z) : Z := Z.land (Z.lnot x) 0xFFFFFFFF.

(** Conversion of an integer to [int32_t] (two's complement). *)
Definition to_int32 (x : Z) : Z := (x + 2 ^ 31) mod uint32_mod - 2 ^ 31.

(** Conversion of an integer to [uint32_t]. *)
Definition to_uint32 (x : Z) : Z := x mod uint32_mod.

(** ** Register file (device_registers.h, device_registers.c) *)

Definition REG_MOTOR_CTRL : Z := 0x00.
Definition REG_MOTOR_STATUS : Z := 0x04.
Definition REG_MOTOR_SPEED : Z := 0x08.
Definition REG_MOTOR_POSITION : Z := 0x0C.
Definition REG_SENSOR_CTRL : Z := 0x10.
Definition REG_SENSOR_DATA : Z := 0x14.
Definition REG_SENSOR_STATUS : Z := 0x18.
Definition REG_IRQ_STATUS : Z := 0x1C.
Definition REG_IRQ_ENABLE : Z := 0x20.

Definition MOTOR_CTRL_ENABLE : Z := Z.shiftl 1 0.
Definition MOTOR_CTRL_DIR_CW : Z := Z.shiftl 1 1.
Definition MOTOR_CTRL_BRAKE : Z := Z.shiftl 1 2.
Definition MOTOR_CTRL_RESET : Z := Z.shiftl 1 7.

Definition MOTOR_STATUS_RUNNING : Z := Z.shiftl 1 0.
Definition MOTOR_STATUS_FAULT : Z := Z.shiftl 1 1.
Definition MOTOR_STATUS_STALL : Z := Z.shiftl 1 2.
Definition MOTOR_STATUS_OVERHEAT : Z := Z.shiftl 1 3.

Definition SENSOR_CTRL_ENABLE : Z := Z.shiftl 1 0.
Definition SENSOR_CTRL_CONTINUOUS : Z := Z.shiftl 1 1.
Definition SENSOR_CTRL_TRIGGER : Z := Z.shiftl 1 2.

Definition SENSOR_STATUS_READY : Z := Z.shiftl 1 0.
Definition SENSOR_STATUS_OVERFLOW : Z := Z.shiftl 1 1.
Definition SENSOR_STATUS_ERROR : Z := Z.shiftl 1 2.

Definition REGISTER_FILE_SIZE : Z := 0x24.

(** [uint32_t regs[REGISTER_FILE_SIZE / 4]] *)
Record register_file : Type := { regs : list Z }.

(** Number of words of the register array. *)
Definition REGISTER_FILE_WORDS : nat := Z.to_nat (REGISTER_FILE_SIZE / 4).

(** The array has its declared size. *)
Definition rf_sized (rf : register_file) : Prop :=
  length (regs rf) = REGISTER_FILE_WORDS.

(** Index of the word an in-range byte offset falls in: [offset / 4]. *)
Definition word_index (offset : Z) : nat := Z.to_nat (offset / 4).

(** [memset(rf->regs, 0, sizeof(rf->regs))] *)
Definition reg_init (rf : register_file) : register_file :=
  {| regs := replicate (length (regs rf)) 0 |}.

Definition reg_read (rf : register_file) (offset : Z) : Z :=
  if REGISTER_FILE_SIZE <=? offset then 0xFFFFFFFF
  else default 0 (regs rf !! word_index offset).

Definition reg_write (rf : register_file) (offset value : Z) : register_file :=
  if REGISTER_FILE_SIZE <=? offset then rf
  else {| regs := <[word_index offset := value]> (regs rf) |}.

Definition reg_set_bits (rf : register_file) (offset bits : Z) : register_file :=
  if REGISTER_FILE_SIZE <=? offset then rf
  else {| regs := <[word_index offset :=
                      Z.lor (default 0 (regs rf !! word_index offset)) bits]>
                    (regs rf) |}.

Definition reg_clear_bits (rf : register_file) (offset bits : Z) : register_file :=
  if REGISTER_FILE_SIZE <=? offset then rf
  else {| regs := <[word_index offset :=
                      Z.land (default 0 (regs rf !! word_index offset)) (not32 bits)]>
                    (regs rf) |}.

(** ** Motor controller (motor_controller.h, motor_controller.c) *)

Definition MAX_SPEED : Z := 10000.
Definition SPEED_RAMP_RATE : Z := 500.

Inductive motor_state_t : Type :=
| MOTOR_STATE_IDLE
| MOTOR_STATE_STARTING
| MOTOR_STATE_RUNNING
| MOTOR_STATE_STOPPING
| MOTOR_STATE_FAULT
| MOTOR_STATE_RECOVERY.

Inductive motor_direction_t : Type :=
| MOTOR_DIR_CCW
| MOTOR_DIR_CW.

Inductive motor_fault_t : Type :=
| MOTOR_FAULT_NONE
| MOTOR_FAULT_STALL
| MOTOR_FAULT_OVERHEAT
| MOTOR_FAULT_OVERCURRENT.

(** [motor_controller_t] without its [regs] pointer: the register file it
    points to is the [register_file] passed with it. *)
Record motor_controller : Type := {
  state : motor_state_t;
  fault_code : motor_fault_t;
  target_speed : Z;      (* uint32_t *)
  current_speed : Z;     (* uint32_t *)
  position : Z;          (* int32_t *)
  direction : motor_direction_t
}.

(** A motor context together with the register file behind [mc->regs]. *)
Definition motor_hw : Type := (motor_controller * register_file)%type.

Definition set_state (mc : motor_controller) (s : motor_state_t) : motor_controller :=
  {| state := s; fault_code := fault_code mc; target_speed := target_speed mc;
     current_speed := current_speed mc; position := position mc;
     direction := direction mc |}.

Definition set_fault_code (mc : motor_controller) (f : motor_fault_t) : motor_controller :=
  {| state := state mc; fault_code := f; target_speed := target_speed mc;
     current_speed := current_speed mc; position := position mc;
     direction := direction mc |}.

Definition set_target_speed (mc : motor_controller) (v : Z) : motor_controller :=
  {| state := state mc; fault_code := fault_code mc; target_speed := v;
     current_speed := current_speed mc; position := position mc;
     direction := direction mc |}.

Definition set_current_speed (mc : motor_controller) (v : Z) : motor_controller :=
  {| state := state mc; fault_code := fault_code mc; target_speed := target_speed mc;
     current_speed := v; position := position mc;
     direction := direction mc |}.

Definition set_position (mc : motor_controller) (p : Z) : motor_controller :=
  {| state := state mc; fault_code := fault_code mc; target_speed := target_speed mc;
     current_speed := current_speed mc; position := p;
     direction := direction mc |}.

Definition set_direction (mc : motor_controller) (d : motor_direction_t) : motor_controller :=
  {| state := state mc; fault_code := fault_code mc; target_speed := target_speed mc;
     current_speed := current_speed mc; position := position mc;
     direction := d |}.

Definition motor_state_eqb (a b : motor_state_t) : bool :=
  match a, b with
  | MOTOR_STATE_IDLE, MOTOR_STATE_IDLE
  | MOTOR_STATE_STARTING, MOTOR_STATE_STARTING
  | MOTOR_STATE_RUNNING, MOTOR_STATE_RUNNING
  | MOTOR_STATE_STOPPING, MOTOR_STATE_STOPPING
  | MOTOR_STATE_FAULT, MOTOR_STATE_FAULT
  | MOTOR_STATE_RECOVERY, MOTOR_STATE_RECOVERY => true
  | _, _ => false
  end.

(** The functions below return the C return code and the contents of
    [*mc] and [*mc->regs] after the call. *)

(** [memset(mc, 0, ...)]: every field takes the value 0 of its type. *)
Definition motor_init (rf : register_file) : Z * motor_hw :=
  let mc := {| state := MOTOR_STATE_IDLE; fault_code := MOTOR_FAULT_NONE;
               target_speed := 0; current_speed := 0; position := 0;
               direction := MOTOR_DIR_CCW |} in
  let rf := reg_write rf REG_MOTOR_CTRL 0 in
  let rf := reg_write rf REG_MOTOR_STATUS 0 in
  let rf := reg_write rf REG_MOTOR_SPEED 0 in
  let rf := reg_write rf REG_MOTOR_POSITION 0 in
  (0, (mc, rf)).

Definition motor_start (hw : motor_hw) (speed : Z) (dir : motor_direction_t)
  : Z * motor_hw :=
  let '(mc, rf) := hw in
  if motor_state_eqb (state mc) MOTOR_STATE_FAULT then (-2, hw)
  else
    let speed := if speed >? MAX_SPEED then MAX_SPEED else speed in
    let mc := set_target_speed mc speed in
    let mc := set_direction mc dir in
    let mc := set_state mc MOTOR_STATE_STARTING in
    let ctrl := MOTOR_CTRL_ENABLE in
    let ctrl := match dir with
                | MOTOR_DIR_CW => Z.lor ctrl MOTOR_CTRL_DIR_CW
                | MOTOR_DIR_CCW => ctrl
                end in
    (0, (mc, reg_write rf REG_MOTOR_CTRL ctrl)).

Definition motor_stop (hw : motor_hw) : Z * motor_hw :=
  let '(mc, rf) := hw in
  if motor_state_eqb (state mc) MOTOR_STATE_IDLE then (0, hw)
  else
    let mc := set_target_speed mc 0 in
    let mc := set_state mc MOTOR_STATE_STOPPING in
    (0, (mc, reg_clear_bits rf REG_MOTOR_CTRL MOTOR_CTRL_ENABLE)).

Definition motor_brake (hw : motor_hw) : Z * motor_hw :=
  let '(mc, rf) := hw in
  let mc := set_target_speed mc 0 in
  let mc := set_current_speed mc 0 in
  let mc := set_state mc MOTOR_STATE_IDLE in
  let rf := reg_set_bits rf REG_MOTOR_CTRL MOTOR_CTRL_BRAKE in
  let rf := reg_clear_bits rf REG_MOTOR_CTRL MOTOR_CTRL_ENABLE in
  let rf := reg_write rf REG_MOTOR_SPEED 0 in
  let rf := reg_clear_bits rf REG_MOTOR_STATUS MOTOR_STATUS_RUNNING in
  (0, (mc, rf)).

Definition motor_set_speed (hw : motor_hw) (speed : Z) : Z * motor_hw :=
  let '(mc, rf) := hw in
  if motor_state_eqb (state mc) MOTOR_STATE_FAULT then (-2, hw)
  else
    let speed := if speed >? MAX_SPEED then MAX_SPEED else speed in
    (0, (set_target_speed mc speed, rf)).

Definition motor_reset (hw : motor_hw) : Z * motor_hw :=
  let '(mc, rf) := hw in
  let rf := reg_write rf REG_MOTOR_CTRL MOTOR_CTRL_RESET in
  let rf := reg_write rf REG_MOTOR_STATUS 0 in
  let rf := reg_write rf REG_MOTOR_SPEED 0 in
  let mc := set_state mc MOTOR_STATE_IDLE in
  let mc := set_fault_code mc MOTOR_FAULT_NONE in
  let mc := set_current_speed mc 0 in
  let mc := set_target_speed mc 0 in
  let rf := reg_clear_bits rf REG_MOTOR_CTRL MOTOR_CTRL_RESET in
  (0, (mc, rf)).

(** The [switch (mc->state)] of [motor_update], one definition per case. *)

Definition update_starting (mc : motor_controller) (rf : register_file) : motor_hw :=
  let mc :=
    if current_speed mc <? target_speed mc then
      let mc := set_current_speed mc (add32 (current_speed mc) SPEED_RAMP_RATE) in
      if current_speed mc >=? target_speed mc then
        set_state (set_current_speed mc (target_speed mc)) MOTOR_STATE_RUNNING
      else mc
    else set_state mc MOTOR_STATE_RUNNING in
  let rf := reg_write rf REG_MOTOR_SPEED (current_speed mc) in
  let rf := reg_set_bits rf REG_MOTOR_STATUS MOTOR_STATUS_RUNNING in
  (mc, rf).

Definition update_running (mc : motor_controller) (rf : register_file) : motor_hw :=
  let mc :=
    if current_speed mc <? target_speed mc then
      let mc := set_current_speed mc (add32 (current_speed mc) SPEED_RAMP_RATE) in
      if current_speed mc >? target_speed mc then
        set_current_speed mc (target_speed mc)
      else mc
    else if current_speed mc >? target_speed mc then
      let mc := set_current_speed mc (sub32 (current_speed mc) SPEED_RAMP_RATE) in
      if current_speed mc <? target_speed mc then
        set_current_speed mc (target_speed mc)
      else mc
    else mc in
  let rf := reg_write rf REG_MOTOR_SPEED (current_speed mc) in
  let mc :=
    match direction mc with
    | MOTOR_DIR_CW =>
        set_position mc (to_int32 (position mc + to_int32 (current_speed mc / 100)))
    | MOTOR_DIR_CCW =>
        set_position mc (to_int32 (position mc - to_int32 (current_speed mc / 100)))
    end in
  let rf := reg_write rf REG_MOTOR_POSITION (to_uint32 (position mc)) in
  (mc, rf).

Definition update_stopping (mc : motor_controller) (rf : register_file) : motor_hw :=
  let '(mc, rf) :=
    if current_speed mc >? SPEED_RAMP_RATE then
      (set_current_speed mc (sub32 (current_speed mc) SPEED_RAMP_RATE), rf)
    else
      (set_state (set_current_speed mc 0) MOTOR_STATE_IDLE,
       reg_clear_bits rf REG_MOTOR_STATUS MOTOR_STATUS_RUNNING) in
  (mc, reg_write rf REG_MOTOR_SPEED (current_speed mc)).

(** The fault bits [motor_update] looks for in MOTOR_STATUS. *)
Definition MOTOR_STATUS_FAULT_BITS : Z :=
  Z.lor (Z.lor MOTOR_STATUS_FAULT MOTOR_STATUS_STALL) MOTOR_STATUS_OVERHEAT.

Definition motor_update (hw : motor_hw) : Z * motor_hw :=
  let '(mc, rf) := hw in
  let status := reg_read rf REG_MOTOR_STATUS in
  if negb (Z.land status MOTOR_STATUS_FAULT_BITS =? 0) then
    if negb (motor_state_eqb (state mc) MOTOR_STATE_FAULT) then
      let mc := set_state mc MOTOR_STATE_FAULT in
      let mc :=
        if negb (Z.land status MOTOR_STATUS_STALL =? 0)
        then set_fault_code mc MOTOR_FAULT_STALL
        else if negb (Z.land status MOTOR_STATUS_OVERHEAT =? 0)
        then set_fault_code mc MOTOR_FAULT_OVERHEAT
        else set_fault_code mc MOTOR_FAULT_OVERCURRENT in
      (0, (mc, rf))
    else (0, hw)
  else
    match state mc with
    | MOTOR_STATE_IDLE => (0, hw)
    | MOTOR_STATE_STARTING => (0, update_starting mc rf)
    | MOTOR_STATE_RUNNING => (0, update_running mc rf)
    | MOTOR_STATE_STOPPING => (0, update_stopping mc rf)
    | MOTOR_STATE_FAULT => (0, hw)
    | MOTOR_STATE_RECOVERY => (0, (set_state mc MOTOR_STATE_IDLE, rf))
    end.

Definition motor_get_state (hw : motor_hw) : motor_state_t := state (fst hw).
Definition motor_get_fault (hw : motor_hw) : motor_fault_t := fault_code (fst hw).
Definition motor_get_speed (hw : motor_hw) : Z := current_speed (fst hw).
Definition motor_get_position (hw : motor_hw) : Z := position (fst hw).

Definition motor_is_running (hw : motor_hw) : bool :=
  motor_state_eqb (state (fst hw)) MOTOR_STATE_RUNNING
  || motor_state_eqb (state (fst hw)) MOTOR_STATE_STARTING.

Definition motor_inject_fault (hw : motor_hw) (fault : motor_fault_t) : motor_hw :=
  let '(mc, rf) := hw in
  let mc := set_fault_code mc fault in
  let mc := set_state mc MOTOR_STATE_FAULT in
  match fault with
  | MOTOR_FAULT_STALL => (mc, reg_set_bits rf REG_MOTOR_STATUS MOTOR_STATUS_STALL)
  | MOTOR_FAULT_OVERHEAT => (mc, reg_set_bits rf REG_MOTOR_STATUS MOTOR_STATUS_OVERHEAT)
  | MOTOR_FAULT_OVERCURRENT => (mc, reg_set_bits rf REG_MOTOR_STATUS MOTOR_STATUS_FAULT)
  | MOTOR_FAULT_NONE => (mc, rf)
  end.

Definition motor_clear_fault (hw : motor_hw) : Z * motor_hw :=
  let '(mc, rf) := hw in
  if negb (motor_state_eqb (state mc) MOTOR_STATE_FAULT) then (0, hw)
  else
    let mc := set_fault_code mc MOTOR_FAULT_NONE in
    let mc := set_state mc MOTOR_STATE_RECOVERY in
    (0, (mc, reg_write rf REG_MOTOR_STATUS 0)).

(** [n] successive calls of [motor_update]. *)
Definition motor_ticks (n : nat) (hw : motor_hw) : motor_hw :=
  Nat.iter n (fun hw => snd (motor_update hw)) hw.

(** The operations a client can apply to a motor; the arguments are values
    of the C parameter types. *)
Inductive motor_op : Type :=
| OpStart (speed : Z) (dir : motor_direction_t)
| OpStop
| OpBrake
| OpSetSpeed (speed : Z)
| OpReset
| OpUpdate
| OpInjectFault (fault : motor_fault_t)
| OpClearFault.

Definition motor_op_valid (op : motor_op) : Prop :=
  match op with
  | OpStart speed _ | OpSetSpeed speed => is_uint32 speed
  | _ => True
  end.

Definition motor_apply (op : motor_op) (hw : motor_hw) : motor_hw :=
  match op with
  | OpStart speed dir => snd (motor_start hw speed dir)
  | OpStop => snd (motor_stop hw)
  | OpBrake => snd (motor_brake hw)
  | OpSetSpeed speed => snd (motor_set_speed hw speed)
  | OpReset => snd (motor_reset hw)
  | OpUpdate => snd (motor_update hw)
  | OpInjectFault fault => motor_inject_fault hw fault
  | OpClearFault => snd (motor_clear_fault hw)
  end.

(** States reachable from [motor_init] (on a register file of the declared
    size) by a sequence of motor operations. *)
Inductive motor_reachable : motor_hw -> Prop :=
| reach_init rf : rf_sized rf -> motor_reachable (snd (motor_init rf))
| reach_step op hw :
    motor_reachable hw -> motor_op_valid op -> motor_reachable (motor_apply op hw).

(** ** Sensor array (sensor_array.h, sensor_array.c) *)

Definition SENSOR_COUNT : Z := 4.
Definition SENSOR_BUFFER_SIZE : Z := 16.

Inductive sensor_type_t : Type :=
| SENSOR_TYPE_POSITION
| SENSOR_TYPE_VELOCITY
| SENSOR_TYPE_TEMPERATURE
| SENSOR_TYPE_CURRENT.

Inductive sensor_state_t : Type :=
| SENSOR_STATE_DISABLED
| SENSOR_STATE_IDLE
| SENSOR_STATE_SAMPLING
| SENSOR_STATE_ERROR.

Record sensor_t : Type := {
  type : sensor_type_t;
  sstate : sensor_state_t;   (* the field [state] of [sensor_t] *)
  value : Z;                 (* int32_t *)
  min_value : Z;             (* int32_t *)
  max_value : Z;             (* int32_t *)
  sample_count : Z           (* uint32_t *)
}.

(** [sensor_array_t] without its [regs] pointer. *)
Record sensor_array : Type := {
  sensors : list sensor_t;   (* sensor_t sensors[SENSOR_COUNT] *)
  buffer : list Z;           (* int32_t buffer[SENSOR_BUFFER_SIZE] *)
  buffer_head : Z;           (* uint8_t *)
  buffer_tail : Z;           (* uint8_t *)
  continuous_mode : bool
}.

(** A sensor context together with the register file behind [sa->regs]. *)
Definition sensor_hw : Type := (sensor_array * register_file)%type.

(** The arrays have their declared sizes and the ring indices are inside
    the ring. *)
Definition sa_sized (sa : sensor_array) : Prop :=
  length (sensors sa) = Z.to_nat SENSOR_COUNT /\
  length (buffer sa) = Z.to_nat SENSOR_BUFFER_SIZE /\
  0 <= buffer_head sa < SENSOR_BUFFER_SIZE /\
  0 <= buffer_tail sa < SENSOR_BUFFER_SIZE.

(** The all-zero [sensor_t] left by [memset]. *)
Definition sensor_zero : sensor_t :=
  {| type := SENSOR_TYPE_POSITION; sstate := SENSOR_STATE_DISABLED; value := 0;
     min_value := 0; max_value := 0; sample_count := 0 |}.

Definition sensor_state_eqb (a b : sensor_state_t) : bool :=
  match a, b with
  | SENSOR_STATE_DISABLED, SENSOR_STATE_DISABLED
  | SENSOR_STATE_IDLE, SENSOR_STATE_IDLE
  | SENSOR_STATE_SAMPLING, SENSOR_STATE_SAMPLING
  | SENSOR_STATE_ERROR, SENSOR_STATE_ERROR => true
  | _, _ => false
  end.

Definition set_sstate (s : sensor_t) (st : sensor_state_t) : sensor_t :=
  {| type := type s; sstate := st; value := value s; min_value := min_value s;
     max_value := max_value s; sample_count := sample_count s |}.

Definition set_value (s : sensor_t) (v : Z) : sensor_t :=
  {| type := type s; sstate := sstate s; value := v; min_value := min_value s;
     max_value := max_value s; sample_count := sample_count s |}.

Definition set_sample_count (s : sensor_t) (c : Z) : sensor_t :=
  {| type := type s; sstate := sstate s; value := value s; min_value := min_value s;
     max_value := max_value s; sample_count := c |}.

(** [sa->sensors[i]] *)
Definition sensor_at (sa : sensor_array) (i : nat) : sensor_t :=
  default sensor_zero (sensors sa !! i).

(** [sa->sensors[i] = s] *)
Definition put_sensor (sa : sensor_array) (i : nat) (s : sensor_t) : sensor_array :=
  {| sensors := <[i := s]> (sensors sa); buffer := buffer sa;
     buffer_head := buffer_head sa; buffer_tail := buffer_tail sa;
     continuous_mode := continuous_mode sa |}.

Definition set_buffer_head (sa : sensor_array) (h : Z) : sensor_array :=
  {| sensors := sensors sa; buffer := buffer sa; buffer_head := h;
     buffer_tail := buffer_tail sa; continuous_mode := continuous_mode sa |}.

Definition set_buffer_tail (sa : sensor_array) (t : Z) : sensor_array :=
  {| sensors := sensors sa; buffer := buffer sa; buffer_head := buffer_head sa;
     buffer_tail := t; continuous_mode := continuous_mode sa |}.

Definition set_buffer (sa : sensor_array) (b : list Z) : sensor_array :=
  {| sensors := sensors sa; buffer := b; buffer_head := buffer_head sa;
     buffer_tail := buffer_tail sa; continuous_mode := continuous_mode sa |}.

Definition set_continuous_mode (sa : sensor_array) (c : bool) : sensor_array :=
  {| sensors := sensors sa; buffer := buffer sa; buffer_head := buffer_head sa;
     buffer_tail := buffer_tail sa; continuous_mode := c |}.

(** [for (int i = 0; i < SENSOR_COUNT; i++) body], the body acting on a
    state of type [S]. *)
Definition for_each_sensor {S : Type} (body : S -> nat -> S) (s : S) : S :=
  foldl body s (seq 0 (Z.to_nat SENSOR_COUNT)).

Definition sensor_array_init (rf : register_file) : Z * sensor_hw :=
  let mk ty lo hi :=
    {| type := ty; sstate := SENSOR_STATE_DISABLED; value := 0;
       min_value := lo; max_value := hi; sample_count := 0 |} in
  let sa :=
    {| sensors := [ mk SENSOR_TYPE_POSITION (-10000) 10000;
                    mk SENSOR_TYPE_VELOCITY 0 10000;
                    mk SENSOR_TYPE_TEMPERATURE (-40) 125;
                    mk SENSOR_TYPE_CURRENT 0 5000 ];
       buffer := replicate (Z.to_nat SENSOR_BUFFER_SIZE) 0;
       buffer_head := 0; buffer_tail := 0; continuous_mode := false |} in
  let sa := for_each_sensor
              (fun sa i => put_sensor sa i (set_sstate (sensor_at sa i) SENSOR_STATE_DISABLED))
              sa in
  let rf := reg_write rf REG_SENSOR_CTRL 0 in
  let rf := reg_write rf REG_SENSOR_DATA 0 in
  let rf := reg_write rf REG_SENSOR_STATUS 0 in
  (0, (sa, rf)).

Definition sensor_array_enable (hw : sensor_hw) : Z * sensor_hw :=
  let '(sa, rf) := hw in
  let sa := for_each_sensor
              (fun sa i => put_sensor sa i (set_sstate (sensor_at sa i) SENSOR_STATE_IDLE))
              sa in
  let rf := reg_set_bits rf REG_SENSOR_CTRL SENSOR_CTRL_ENABLE in
  let rf := reg_set_bits rf REG_SENSOR_STATUS SENSOR_STATUS_READY in
  (0, (sa, rf)).

Definition sensor_array_disable (hw : sensor_hw) : Z * sensor_hw :=
  let '(sa, rf) := hw in
  let sa := for_each_sensor
              (fun sa i => put_sensor sa i (set_sstate (sensor_at sa i) SENSOR_STATE_DISABLED))
              sa in
  let rf := reg_clear_bits rf REG_SENSOR_CTRL SENSOR_CTRL_ENABLE in
  let rf := reg_clear_bits rf REG_SENSOR_STATUS SENSOR_STATUS_READY in
  (0, (sa, rf)).

Definition sensor_array_trigger (hw : sensor_hw) : Z * sensor_hw :=
  let '(sa, rf) := hw in
  if Z.land (reg_read rf REG_SENSOR_CTRL) SENSOR_CTRL_ENABLE =? 0 then (-2, hw)
  else
    let rf := reg_set_bits rf REG_SENSOR_CTRL SENSOR_CTRL_TRIGGER in
    let sa := for_each_sensor
                (fun sa i =>
                   if sensor_state_eqb (sstate (sensor_at sa i)) SENSOR_STATE_IDLE then
                     let sa := put_sensor sa i
                                 (set_sstate (sensor_at sa i) SENSOR_STATE_SAMPLING) in
                     put_sensor sa i
                       (set_sample_count (sensor_at sa i)
                          (add32 (sample_count (sensor_at sa i)) 1))
                   else sa)
                sa in
    (0, (sa, rf)).

Definition sensor_array_set_continuous (hw : sensor_hw) (enable : bool) : Z * sensor_hw :=
  let '(sa, rf) := hw in
  let sa := set_continuous_mode sa enable in
  if enable then (0, (sa, reg_set_bits rf REG_SENSOR_CTRL SENSOR_CTRL_CONTINUOUS))
  else (0, (sa, reg_clear_bits rf REG_SENSOR_CTRL SENSOR_CTRL_CONTINUOUS)).

Definition sensor_read (hw : sensor_hw) (sensor_id : Z) : Z :=
  if SENSOR_COUNT <=? sensor_id then 0
  else value (sensor_at (fst hw) (Z.to_nat sensor_id)).

(** The values written to [values[0 .. count-1]] and the return code. *)
Definition sensor_read_all (hw : sensor_hw) (count : Z) : Z * list Z :=
  let count := if count >? SENSOR_COUNT then SENSOR_COUNT else count in
  (count, map (fun i => value (sensor_at (fst hw) i)) (seq 0 (Z.to_nat count))).

Definition sensor_buffer_push (hw : sensor_hw) (v : Z) : Z * sensor_hw :=
  let '(sa, rf) := hw in
  let next := (buffer_head sa + 1) mod SENSOR_BUFFER_SIZE in
  if next =? buffer_tail sa then
    (-2, (sa, reg_set_bits rf REG_SENSOR_STATUS SENSOR_STATUS_OVERFLOW))
  else
    let sa := set_buffer sa (<[Z.to_nat (buffer_head sa) := v]> (buffer sa)) in
    let sa := set_buffer_head sa next in
    (0, (sa, rf)).

(** The value stored through [value] is [Some v]; [None] when nothing is
    stored. *)
Definition sensor_buffer_pop (hw : sensor_hw) : Z * option Z * sensor_hw :=
  let '(sa, rf) := hw in
  if buffer_head sa =? buffer_tail sa then (-2, None, hw)
  else
    let v := default 0 (buffer sa !! Z.to_nat (buffer_tail sa)) in
    let sa := set_buffer_tail sa ((buffer_tail sa + 1) mod SENSOR_BUFFER_SIZE) in
    (0, Some v, (sa, rf)).

Definition sensor_buffer_count (hw : sensor_hw) : Z :=
  let sa := fst hw in
  if buffer_head sa >=? buffer_tail sa then buffer_head sa - buffer_tail sa
  else SENSOR_BUFFER_SIZE - buffer_tail sa + buffer_head sa.

Definition sensor_buffer_clear (hw : sensor_hw) : sensor_hw :=
  let '(sa, rf) := hw in
  let sa := set_buffer_head sa 0 in
  let sa := set_buffer_tail sa 0 in
  (sa, reg_clear_bits rf REG_SENSOR_STATUS SENSOR_STATUS_OVERFLOW).

Definition sensor_get_state (hw : sensor_hw) (sensor_id : Z) : sensor_state_t :=
  if SENSOR_COUNT <=? sensor_id then SENSOR_STATE_ERROR
  else sstate (sensor_at (fst hw) (Z.to_nat sensor_id)).

Definition sensor_is_ready (hw : sensor_hw) : bool :=
  negb (Z.land (reg_read (snd hw) REG_SENSOR_STATUS) SENSOR_STATUS_READY =? 0).

Definition sensor_has_error (hw : sensor_hw) : bool :=
  negb (Z.land (reg_read (snd hw) REG_SENSOR_STATUS) SENSOR_STATUS_ERROR =? 0).

(** Body of the loop of [sensor_array_update] for channel [i]. *)
Definition update_channel (hw : sensor_hw) (i : nat) : sensor_hw :=
  let '(sa, rf) := hw in
  if sensor_state_eqb (sstate (sensor_at sa i)) SENSOR_STATE_SAMPLING then
    let sa := put_sensor sa i (set_sstate (sensor_at sa i) SENSOR_STATE_IDLE) in
    let sa :=
      if value (sensor_at sa i) <? min_value (sensor_at sa i)
      then put_sensor sa i (set_value (sensor_at sa i) (min_value (sensor_at sa i)))
      else sa in
    let sa :=
      if value (sensor_at sa i) >? max_value (sensor_at sa i)
      then put_sensor sa i (set_value (sensor_at sa i) (max_value (sensor_at sa i)))
      else sa in
    if continuous_mode sa
    then snd (sensor_buffer_push (sa, rf) (value (sensor_at sa i)))
    else (sa, rf)
  else hw.

Definition sensor_array_update (hw : sensor_hw) : Z * sensor_hw :=
  let hw := for_each_sensor update_channel hw in
  let hw := (fst hw, reg_clear_bits (snd hw) REG_SENSOR_CTRL SENSOR_CTRL_TRIGGER) in
  let hw :=
    if continuous_mode (fst hw) && sensor_is_ready hw
    then snd (sensor_array_trigger hw)
    else hw in
  (0, hw).

Definition sensor_set_simulated_value (hw : sensor_hw) (sensor_id v : Z) : sensor_hw :=
  let '(sa, rf) := hw in
  if SENSOR_COUNT <=? sensor_id then hw
  else (put_sensor sa (Z.to_nat sensor_id)
          (set_value (sensor_at sa (Z.to_nat sensor_id)) v), rf).

(** [vs] pushed one after the other: the return codes, in order, and the
    final state. *)
Fixpoint sensor_buffer_push_all (hw : sensor_hw) (vs : list Z) : list Z * sensor_hw :=
  match vs with
  | [] => ([], hw)
  | v :: vs =>
      let '(r, hw) := sensor_buffer_push hw v in
      let '(rs, hw) := sensor_buffer_push_all hw vs in
      (r :: rs, hw)
  end.

(** ** Interrupt controller (interrupt_handler.h, interrupt_handler.c) *)

(** [interrupt_source_t]: the enumerators as the integers they denote. *)
Definition INT_MOTOR_FAULT : Z := 0.
Definition INT_MOTOR_STALL : Z := 1.
Definition INT_SENSOR_READY : Z := 2.
Definition INT_SENSOR_ERROR : Z := 3.
Definition INT_TIMER : Z := 4.
Definition INT_COUNT : Z := 5.

(** Host signal numbers of <signal.h> (Linux). *)
Definition SIGUSR1 : Z := 10.
Definition SIGUSR2 : Z := 12.

(** [interrupt_controller_t] without the pointers [regs], [motor] and
    [sensors], which the controller only stores.  A handler is the address
    of a function and a context the address of an object; 0 is [NULL]. *)
Record interrupt_controller : Type := {
  handlers : list Z;           (* irq_handler_t handlers[INT_COUNT] *)
  handler_contexts : list Z;   (* void *handler_contexts[INT_COUNT] *)
  pending_irqs : Z;            (* uint32_t *)
  enabled_irqs : Z;            (* uint32_t *)
  signal_received : Z          (* volatile sig_atomic_t *)
}.

(** The interrupt controller [*ic], the register file [*ic->regs] and the
    global [g_irq_controller], which is either [NULL] ([false]) or [ic]
    ([true]). *)
Record irq_machine : Type := {
  ic : interrupt_controller;
  ic_regs : register_file;
  g_irq_controller : bool
}.

Definition ic_sized (c : interrupt_controller) : Prop :=
  length (handlers c) = Z.to_nat INT_COUNT /\
  length (handler_contexts c) = Z.to_nat INT_COUNT.

Definition set_handlers (c : interrupt_controller) (h : list Z) : interrupt_controller :=
  {| handlers := h; handler_contexts := handler_contexts c;
     pending_irqs := pending_irqs c; enabled_irqs := enabled_irqs c;
     signal_received := signal_received c |}.

Definition set_handler_contexts (c : interrupt_controller) (x : list Z) : interrupt_controller :=
  {| handlers := handlers c; handler_contexts := x;
     pending_irqs := pending_irqs c; enabled_irqs := enabled_irqs c;
     signal_received := signal_received c |}.

Definition set_pending_irqs (c : interrupt_controller) (p : Z) : interrupt_controller :=
  {| handlers := handlers c; handler_contexts := handler_contexts c;
     pending_irqs := p; enabled_irqs := enabled_irqs c;
     signal_received := signal_received c |}.

Definition set_enabled_irqs (c : interrupt_controller) (e : Z) : interrupt_controller :=
  {| handlers := handlers c; handler_contexts := handler_contexts c;
     pending_irqs := pending_irqs c; enabled_irqs := e;
     signal_received := signal_received c |}.

Definition set_signal_received (c : interrupt_controller) (s : Z) : interrupt_controller :=
  {| handlers := handlers c; handler_contexts := handler_contexts c;
     pending_irqs := pending_irqs c; enabled_irqs := enabled_irqs c;
     signal_received := s |}.

Definition with_ic (m : irq_machine) (c : interrupt_controller) : irq_machine :=
  {| ic := c; ic_regs := ic_regs m; g_irq_controller := g_irq_controller m |}.

Definition with_regs (m : irq_machine) (rf : register_file) : irq_machine :=
  {| ic := ic m; ic_regs := rf; g_irq_controller := g_irq_controller m |}.

Definition with_global (m : irq_machine) (g : bool) : irq_machine :=
  {| ic := ic m; ic_regs := ic_regs m; g_irq_controller := g |}.

(** [1 << source] *)
Definition irq_bit (source : Z) : Z := Z.shiftl 1 source.

(** [mask & (1 << source)] is non-zero. *)
Definition irq_bit_set (mask source : Z) : bool :=
  negb (Z.land mask (irq_bit source) =? 0).

Definition irq_init (rf : register_file) : Z * irq_machine :=
  let c := {| handlers := replicate (Z.to_nat INT_COUNT) 0;
              handler_contexts := replicate (Z.to_nat INT_COUNT) 0;
              pending_irqs := 0; enabled_irqs := 0; signal_received := 0 |} in
  let rf := reg_write rf REG_IRQ_STATUS 0 in
  let rf := reg_write rf REG_IRQ_ENABLE 0 in
  (0, {| ic := c; ic_regs := rf; g_irq_controller := true |}).

Definition irq_register_handler (m : irq_machine) (source handler context : Z)
  : Z * irq_machine :=
  if INT_COUNT <=? source then (-1, m)
  else
    let c := set_handlers (ic m) (<[Z.to_nat source := handler]> (handlers (ic m))) in
    let c := set_handler_contexts c
               (<[Z.to_nat source := context]> (handler_contexts c)) in
    (0, with_ic m c).

Definition irq_unregister_handler (m : irq_machine) (source : Z) : Z * irq_machine :=
  if INT_COUNT <=? source then (-1, m)
  else
    let c := set_handlers (ic m) (<[Z.to_nat source := 0]> (handlers (ic m))) in
    let c := set_handler_contexts c (<[Z.to_nat source := 0]> (handler_contexts c)) in
    (0, with_ic m c).

Definition irq_enable (m : irq_machine) (source : Z) : Z * irq_machine :=
  if INT_COUNT <=? source then (-1, m)
  else
    let c := set_enabled_irqs (ic m) (Z.lor (enabled_irqs (ic m)) (irq_bit source)) in
    (0, with_regs (with_ic m c)
          (reg_set_bits (ic_regs m) REG_IRQ_ENABLE (irq_bit source))).

Definition irq_disable (m : irq_machine) (source : Z) : Z * irq_machine :=
  if INT_COUNT <=? source then (-1, m)
  else
    let c := set_enabled_irqs (ic m)
               (Z.land (enabled_irqs (ic m)) (not32 (irq_bit source))) in
    (0, with_regs (with_ic m c)
          (reg_clear_bits (ic_regs m) REG_IRQ_ENABLE (irq_bit source))).

Definition irq_enable_all (m : irq_machine) : irq_machine :=
  let c := set_enabled_irqs (ic m) (Z.shiftl 1 INT_COUNT - 1) in
  with_regs (with_ic m c) (reg_write (ic_regs m) REG_IRQ_ENABLE (enabled_irqs c)).

Definition irq_disable_all (m : irq_machine) : irq_machine :=
  let c := set_enabled_irqs (ic m) 0 in
  with_regs (with_ic m c) (reg_write (ic_regs m) REG_IRQ_ENABLE 0).

(** The calls of [signal(SIGUSR1, SIG_DFL)] and [signal(SIGUSR2, SIG_DFL)]
    act on the host only. *)
Definition irq_cleanup (m : irq_machine) : irq_machine :=
  with_global (irq_disable_all m) false.

Definition irq_trigger (m : irq_machine) (source : Z) : irq_machine :=
  if INT_COUNT <=? source then m
  else if irq_bit_set (enabled_irqs (ic m)) source then
    let c := set_pending_irqs (ic m) (Z.lor (pending_irqs (ic m)) (irq_bit source)) in
    with_regs (with_ic m c) (reg_set_bits (ic_regs m) REG_IRQ_STATUS (irq_bit source))
  else m.

Definition irq_is_pending (m : irq_machine) (source : Z) : bool :=
  if INT_COUNT <=? source then false
  else irq_bit_set (pending_irqs (ic m)) source.

Definition irq_get_pending_mask (m : irq_machine) : Z := pending_irqs (ic m).

Definition irq_clear (m : irq_machine) (source : Z) : irq_machine :=
  if INT_COUNT <=? source then m
  else
    let c := set_pending_irqs (ic m)
               (Z.land (pending_irqs (ic m)) (not32 (irq_bit source))) in
    with_regs (with_ic m c) (reg_clear_bits (ic_regs m) REG_IRQ_STATUS (irq_bit source)).

Definition irq_signal_handler (m : irq_machine) (signum : Z) : irq_machine :=
  if negb (g_irq_controller m) then m
  else
    let c := set_signal_received (ic m) 1 in
    let c :=
      if signum =? SIGUSR1
      then set_pending_irqs c (Z.lor (pending_irqs c) (irq_bit INT_MOTOR_FAULT))
      else if signum =? SIGUSR2
      then set_pending_irqs c (Z.lor (pending_irqs c) (irq_bit INT_SENSOR_READY))
      else c in
    with_ic m c.

(** The first statement of [irq_process_pending]:
    [if (ic->signal_received) { ic->signal_received = 0; irq_trigger(ic, INT_TIMER); }] *)
Definition irq_consume_latch (m : irq_machine) : irq_machine :=
  if negb (signal_received (ic m) =? 0) then
    irq_trigger (with_ic m (set_signal_received (ic m) 0)) INT_TIMER
  else m.

(** One call made by the dispatch loop: the handler called, the source and
    the context passed to it. *)
Record invocation : Type := {
  inv_handler : Z;
  inv_source : Z;
  inv_context : Z
}.

Section Dispatch.

(** What the handlers can act on besides the controller and the
    registers: the rest of the program state. *)
Context {W : Type}.

(** [call h source context] is the effect of calling the function at
    address [h] with these arguments. *)
Variable call : Z -> Z -> Z -> irq_machine * W -> irq_machine * W.

(** State of the loop of [irq_process_pending]: the counter [processed],
    the calls made so far (oldest first) and the program state. *)
Definition dispatch_state : Type := (Z * list invocation * (irq_machine * W))%type.

(** Body of [for (int i = 0; i < INT_COUNT; i++)]. *)
Definition dispatch_one (st : dispatch_state) (i : nat) : dispatch_state :=
  let '(processed, calls, mw) := st in
  let c := ic (fst mw) in
  let h := default 0 (handlers c !! i) in
  if irq_bit_set (pending_irqs c) (Z.of_nat i) && negb (h =? 0) then
    let x := default 0 (handler_contexts c !! i) in
    (processed + 1,
     calls ++ [ {| inv_handler := h; inv_source := Z.of_nat i; inv_context := x |} ],
     call h (Z.of_nat i) x mw)
  else st.

(** Returns the C return code, the calls made to handlers, in order, and
    the program state after the call. *)
Definition irq_process_pending (mw : irq_machine * W)
  : Z * list invocation * (irq_machine * W) :=
  let '(m, w) := mw in
  let m := irq_consume_latch m in
  let '(processed, calls, (m, w)) :=
    foldl dispatch_one (0, [], (m, w)) (seq 0 (Z.to_nat INT_COUNT)) in
  let m := with_ic m (set_pending_irqs (ic m) 0) in
  let m := with_regs m (reg_write (ic_regs m) REG_IRQ_STATUS 0) in
  (processed, calls, (m, w)).

End Dispatch.

(** ** Driver (shared_mem.h, main.c) *)

(** [command_type_t] and [response_status_t]: the enumerators as the
    integers they denote.  A command read from the shared memory is any
    integer. *)
Definition CMD_NONE : Z := 0.
Definition CMD_MOTOR_START : Z := 1.
Definition CMD_MOTOR_STOP : Z := 2.
Definition CMD_MOTOR_SET_SPEED : Z := 3.
Definition CMD_SENSOR_READ : Z := 4.
Definition CMD_GET_STATUS : Z := 5.
Definition CMD_RESET : Z := 6.

Definition RESP_OK : Z := 0.
Definition RESP_ERROR : Z := 1.
Definition RESP_BUSY : Z := 2.
Definition RESP_INVALID_CMD : Z := 3.

(** The integers the enumerators of [motor_state_t] and [motor_fault_t]
    denote. *)
Definition motor_state_number (s : motor_state_t) : Z :=
  match s with
  | MOTOR_STATE_IDLE => 0
  | MOTOR_STATE_STARTING => 1
  | MOTOR_STATE_RUNNING => 2
  | MOTOR_STATE_STOPPING => 3
  | MOTOR_STATE_FAULT => 4
  | MOTOR_STATE_RECOVERY => 5
  end.

Definition motor_fault_number (f : motor_fault_t) : Z :=
  match f with
  | MOTOR_FAULT_NONE => 0
  | MOTOR_FAULT_STALL => 1
  | MOTOR_FAULT_OVERHEAT => 2
  | MOTOR_FAULT_OVERCURRENT => 3
  end.

(** [(motor_direction_t)param2].  The code only ever compares a direction
    with [MOTOR_DIR_CW] (in [motor_start] and in [motor_update]), so that a
    value other than 1 acts as [MOTOR_DIR_CCW], which stands for it. *)
Definition direction_of_param (p : Z) : motor_direction_t :=
  if p =? 1 then MOTOR_DIR_CW else MOTOR_DIR_CCW.

(** The arguments of a call of [shm_send_response]: the status and the
    eight words of [resp_data]. *)
Record response : Type := {
  resp_status : Z;
  resp_data : list Z
}.

(** The motor, the sensor array and the register file both point to. *)
Definition devices : Type := (motor_controller * sensor_array * register_file)%type.

(** [process_command]: the response it sends with [shm_send_response] and
    the devices after the call. *)
Definition process_command (dev : devices) (cmd param1 param2 : Z) : response * devices :=
  let '(mc, sa, rf) := dev in
  let resp_data := replicate 8 0 in
  let status := RESP_OK in
  if cmd =? CMD_MOTOR_START then
    let '(r, (mc, rf)) := motor_start (mc, rf) param1 (direction_of_param param2) in
    let status := if r <? 0 then RESP_ERROR else status in
    ({| resp_status := status; resp_data := resp_data |}, (mc, sa, rf))
  else if cmd =? CMD_MOTOR_STOP then
    let '(r, (mc, rf)) := motor_stop (mc, rf) in
    let status := if r <? 0 then RESP_ERROR else status in
    ({| resp_status := status; resp_data := resp_data |}, (mc, sa, rf))
  else if cmd =? CMD_MOTOR_SET_SPEED then
    let '(r, (mc, rf)) := motor_set_speed (mc, rf) param1 in
    let status := if r <? 0 then RESP_ERROR else status in
    ({| resp_status := status; resp_data := resp_data |}, (mc, sa, rf))
  else if cmd =? CMD_SENSOR_READ then
    let values := snd (sensor_read_all (sa, rf) 4) in
    let resp_data := values ++ drop (length values) resp_data in
    ({| resp_status := status; resp_data := resp_data |}, (mc, sa, rf))
  else if cmd =? CMD_GET_STATUS then
    let resp_data := <[0%nat := motor_state_number (motor_get_state (mc, rf))]> resp_data in
    let resp_data := <[1%nat := to_int32 (motor_get_speed (mc, rf))]> resp_data in
    let resp_data := <[2%nat := motor_get_position (mc, rf)]> resp_data in
    let resp_data := <[3%nat := motor_fault_number (motor_get_fault (mc, rf))]> resp_data in
    ({| resp_status := status; resp_data := resp_data |}, (mc, sa, rf))
  else if cmd =? CMD_RESET then
    let '(mc, rf) := snd (motor_reset (mc, rf)) in
    let '(sa, rf) := sensor_buffer_clear (sa, rf) in
    ({| resp_status := status; resp_data := resp_data |}, (mc, sa, rf))
  else
    ({| resp_status := RESP_INVALID_CMD; resp_data := resp_data |}, (mc, sa, rf)).

(** The program state of [main]: the locals [regs], [motor], [sensors] and
    [irq], and the global [g_irq_controller], which is [NULL] or [&irq]. *)
Record driver : Type := {
  drv_regs : register_file;
  drv_motor : motor_controller;
  drv_sensors : sensor_array;
  drv_irq : interrupt_controller;
  drv_g_irq_controller : bool
}.

(** The arguments of a call of [shm_update_status]. *)
Record status_report : Type := {
  st_motor_state : Z;          (* uint32_t *)
  st_motor_speed : Z;          (* uint32_t *)
  st_motor_position : Z;       (* int32_t *)
  st_sensor_values : list Z;   (* int32_t[4] *)
  st_fault_code : Z            (* uint32_t *)
}.

(** What one iteration of the main loop lets out: the handlers called,
    the status published and the response sent, if any. *)
Record tick_output : Type := {
  tick_calls : list invocation;
  tick_status : status_report;
  tick_response : option response
}.

Section DriverLoop.

(** A handler is passed the address of the motor or of the sensor array as
    its context and can reach the registers through it: the handlers act
    on the interrupt controller with the registers, the motor, the sensor
    array and the rest of the program state. *)
Context {W : Type}.

Variable call : Z -> Z -> Z ->
                irq_machine * (motor_controller * sensor_array * W) ->
                irq_machine * (motor_controller * sensor_array * W).

(** The body of [while (g_running && !shm_is_shutdown_requested(shm))] at
    the value [tick] of the counter, the calls of [printf] and [usleep]
    apart.  [fetched] is what [shm_get_command] stored when it returned 0,
    and [None] when it returned another value. *)
Definition driver_tick (tick : Z) (fetched : option (Z * Z * Z)) (dw : driver * W)
  : tick_output * (driver * W) :=
  let '(d, w) := dw in
  let '(mc, rf) := snd (motor_update (drv_motor d, drv_regs d)) in
  let '(sa, rf) :=
    if tick mod 10 =? 0 then snd (sensor_array_trigger (drv_sensors d, rf))
    else (drv_sensors d, rf) in
  let '(sa, rf) := snd (sensor_array_update (sa, rf)) in
  let m := {| ic := drv_irq d; ic_regs := rf;
              g_irq_controller := drv_g_irq_controller d |} in
  let m :=
    if motor_state_eqb (motor_get_state (mc, rf)) MOTOR_STATE_FAULT
    then irq_trigger m INT_MOTOR_FAULT
    else m in
  let '(_, calls, (m, (mc, sa, w))) := irq_process_pending call (m, (mc, sa, w)) in
  let rf := ic_regs m in
  let sensor_vals := snd (sensor_read_all (sa, rf) 4) in
  let report :=
    {| st_motor_state := motor_state_number (motor_get_state (mc, rf));
       st_motor_speed := motor_get_speed (mc, rf);
       st_motor_position := motor_get_position (mc, rf);
       st_sensor_values := sensor_vals;
       st_fault_code := motor_fault_number (motor_get_fault (mc, rf)) |} in
  let '(resp, (mc, sa, rf)) :=
    match fetched with
    | Some (cmd, p1, p2) =>
        if negb (cmd =? CMD_NONE) then
          let '(r, dev) := process_command (mc, sa, rf) cmd p1 p2 in
          (Some r, dev)
        else (None, (mc, sa, rf))
    | None => (None, (mc, sa, rf))
    end in
  ({| tick_calls := calls; tick_status := report; tick_response := resp |},
   ({| drv_regs := rf; drv_motor := mc; drv_sensors := sa; drv_irq := ic m;
       drv_g_irq_controller := g_irq_controller m |}, w)).

End DriverLoop.

(** *** Shutdown *)

(** The loop [while (motor_is_running(&motor)) { motor_update(&motor);
    usleep(10000); }] that [main] runs after [motor_stop], for at most
    [fuel] iterations: the number of calls of [motor_update] made and the
    motor the loop ends with, or [None] when the loop has not ended by
    then. *)
Fixpoint motor_drain (fuel : nat) (hw : motor_hw) : option (nat * motor_hw) :=
  if motor_is_running hw then
    match fuel with
    | O => None
    | S fuel =>
        match motor_drain fuel (snd (motor_update hw)) with
        | Some (n, hw) => Some (S n, hw)
        | None => None
        end
    end
  else Some (O, hw).

(** * Vocabulary of the statements

    The definitions of this part are not translations of source functions:
    they name the well-formedness conditions, the reference behaviours and
    the concrete scenarios the properties are stated with. *)

(** ** Register file *)

(** A register file of the declared size with every word zero, as left by
    [reg_init]. *)
Definition rf_zero : register_file :=
  reg_init {| regs := replicate REGISTER_FILE_WORDS 0 |}.

(** Every word of the register file is a [uint32_t]. *)
Definition rf_words (rf : register_file) : Prop := Forall is_uint32 (regs rf).

(** ** Motor *)

(** No fault bit is set in MOTOR_STATUS. *)
Definition no_fault_bits (rf : register_file) : Prop :=
  Z.land (reg_read rf REG_MOTOR_STATUS) MOTOR_STATUS_FAULT_BITS = 0.

(** A sequence of motor operations applied in order. *)
Definition motor_run (ops : list motor_op) (hw : motor_hw) : motor_hw :=
  foldl (fun hw op => motor_apply op hw) hw ops.



(** The motor after [motor_init] on the zeroed register file. *)
Definition motor_initial : motor_hw := snd (motor_init rf_zero).

(** test_motor_position_update up to its call of [motor_reset]:
    [motor_start(1000, CW)] and 20 calls of [motor_update]. *)
Definition motor_after_cw_run : motor_hw :=
  motor_ticks 20 (snd (motor_start motor_initial 1000 MOTOR_DIR_CW)).

(** The rest of that test: [motor_reset], [motor_start(1000, CCW)] and 20
    calls of [motor_update]. *)
Definition motor_after_ccw_run : motor_hw :=
  motor_ticks 20
    (snd (motor_start (snd (motor_reset motor_after_cw_run)) 1000 MOTOR_DIR_CCW)).

(** ** Sensors *)

(** The sensor array after [sensor_array_init] on the zeroed register
    file. *)
Definition sensors_initial : sensor_hw := snd (sensor_array_init rf_zero).

Definition set_sensors (sa : sensor_array) (l : list sensor_t) : sensor_array :=
  {| sensors := l; buffer := buffer sa; buffer_head := buffer_head sa;
     buffer_tail := buffer_tail sa; continuous_mode := continuous_mode sa |}.

(** The value [update_channel] leaves in a sampling channel with range
    [lo, hi] that held [v]: the two tests of the clamp, in order. *)
Definition clamp (lo hi v : Z) : Z :=
  let v := if v <? lo then lo else v in
  if v >? hi then hi else v.

(** What the loop of [sensor_array_trigger] does to one channel. *)
Definition trigger_channel (s : sensor_t) : sensor_t :=
  if sensor_state_eqb (sstate s) SENSOR_STATE_IDLE
  then set_sample_count (set_sstate s SENSOR_STATE_SAMPLING) (add32 (sample_count s) 1)
  else s.

(** What the loop of [sensor_array_update] does to one channel, the push
    into the ring apart. *)
Definition sample_channel (s : sensor_t) : sensor_t :=
  if sensor_state_eqb (sstate s) SENSOR_STATE_SAMPLING
  then set_value (set_sstate s SENSOR_STATE_IDLE)
         (clamp (min_value s) (max_value s) (value s))
  else s.

(** ** Interrupts *)

(** Specification side of the dispatch.  [pending_handler c i] is the call
    due for source [i] in the controller [c]: the registered handler with
    the recorded context, when the pending bit of [i] is set and a handler
    is registered. *)
Definition pending_handler (c : interrupt_controller) (i : nat) : option invocation :=
  let h := default 0 (handlers c !! i) in
  if irq_bit_set (pending_irqs c) (Z.of_nat i) && negb (h =? 0)
  then Some {| inv_handler := h; inv_source := Z.of_nat i;
               inv_context := default 0 (handler_contexts c !! i) |}
  else None.

(** The calls due for [c], by ascending source index. *)
Definition spec_pending_handlers (c : interrupt_controller) : list invocation :=
  omap (pending_handler c) (seq 0 (Z.to_nat INT_COUNT)).

(** The calls [calls] made one after the other. *)
Definition run_invocations {W : Type}
    (call : Z -> Z -> Z -> irq_machine * W -> irq_machine * W)
    (calls : list invocation) (mw : irq_machine * W) : irq_machine * W :=
  foldl (fun mw inv => call (inv_handler inv) (inv_source inv) (inv_context inv) mw)
        mw calls.

(** The handlers leave the interrupt controller as it is and the register
    array at its size: they run on the driver loop and do not re-enter the
    controller. *)
Definition handlers_keep_controller {W : Type}
    (call : Z -> Z -> Z -> irq_machine * W -> irq_machine * W) : Prop :=
  forall h source context mw,
    ic (fst (call h source context mw)) = ic (fst mw) /\
    (rf_sized (ic_regs (fst mw)) -> rf_sized (ic_regs (fst (call h source context mw)))).

(** The operations on the interrupt controller: the calls of the driver
    loop and the delivery of a host signal to [irq_signal_handler]. *)
Inductive irq_op : Type :=
| IrqRegister (source handler context : Z)
| IrqUnregister (source : Z)
| IrqEnable (source : Z)
| IrqDisable (source : Z)
| IrqEnableAll
| IrqDisableAll
| IrqTrigger (source : Z)
| IrqClear (source : Z)
| IrqProcessPending
| IrqCleanup
| IrqSignal (signum : Z).

Definition irq_apply {W : Type}
    (call : Z -> Z -> Z -> irq_machine * W -> irq_machine * W)
    (op : irq_op) (mw : irq_machine * W) : irq_machine * W :=
  let '(m, w) := mw in
  match op with
  | IrqRegister source handler context =>
      (snd (irq_register_handler m source handler context), w)
  | IrqUnregister source => (snd (irq_unregister_handler m source), w)
  | IrqEnable source => (snd (irq_enable m source), w)
  | IrqDisable source => (snd (irq_disable m source), w)
  | IrqEnableAll => (irq_enable_all m, w)
  | IrqDisableAll => (irq_disable_all m, w)
  | IrqTrigger source => (irq_trigger m source, w)
  | IrqClear source => (irq_clear m source, w)
  | IrqProcessPending => snd (irq_process_pending call mw)
  | IrqCleanup => (irq_cleanup m, w)
  | IrqSignal signum => (irq_signal_handler m signum, w)
  end.

(** The interrupt controller after [irq_init] on the zeroed register
    file. *)
Definition irq_initial : irq_machine := snd (irq_init rf_zero).

(** Handlers that count their calls, like [test_irq_callback] of the
    repository's tests: the program state is the counter. *)
Definition counting_call (h source context : Z) (mw : irq_machine * Z)
  : irq_machine * Z :=
  (fst mw, snd mw + 1).

(** test_irq_handler_callback up to its call of [irq_process_pending]: a
    handler (at an address standing for [test_irq_callback]) registered for
    the motor fault source with a [NULL] context, the source enabled and
    triggered. *)
Definition irq_fault_raised : irq_machine :=
  irq_trigger
    (snd (irq_enable
            (snd (irq_register_handler irq_initial INT_MOTOR_FAULT 0x1000 0))
            INT_MOTOR_FAULT))
    INT_MOTOR_FAULT.

(** A handler registered for the motor fault source, which is left
    disabled, and the signal SIGUSR1 delivered to the bridge. *)
Definition irq_signal_while_disabled : irq_machine :=
  irq_signal_handler
    (snd (irq_register_handler irq_initial INT_MOTOR_FAULT 0x1000 0))
    SIGUSR1.

(** The handlers leave the register array at its declared size, as its C
    type makes every function do; the list that models the array does not
    carry its length. *)
Definition handlers_keep_size {W : Type}
    (call : Z -> Z -> Z -> irq_machine * W -> irq_machine * W) : Prop :=
  forall h source context mw,
    rf_sized (ic_regs (fst mw)) -> rf_sized (ic_regs (fst (call h source context mw))).

(** The calls made for the sources below [i]: among calls made by
    ascending source, those made before the loop reaches source [i]. *)
Definition calls_below (i : nat) (calls : list invocation) : list invocation :=
  List.filter (fun inv => inv_source inv <? Z.of_nat i) calls.

(** Handlers that call [irq_clear(ic, INT_TIMER)], and handlers that call
    [irq_trigger(ic, INT_TIMER)]; both count their calls. *)
Definition clearing_call (h source context : Z) (mw : irq_machine * Z)
  : irq_machine * Z :=
  (irq_clear (fst mw) INT_TIMER, snd mw + 1).

Definition triggering_call (h source context : Z) (mw : irq_machine * Z)
  : irq_machine * Z :=
  (irq_trigger (fst mw) INT_TIMER, snd mw + 1).

(** Handlers registered for the motor fault source and for the timer, both
    sources enabled, and the motor fault source triggered. *)
Definition irq_fault_raised_timer_enabled : irq_machine :=
  irq_trigger
    (snd (irq_enable
            (snd (irq_enable
                    (snd (irq_register_handler
                            (snd (irq_register_handler irq_initial
                                    INT_MOTOR_FAULT 0x1000 0x10))
                            INT_TIMER 0x2000 0x20))
                    INT_MOTOR_FAULT))
            INT_TIMER))
    INT_MOTOR_FAULT.

(** That controller with the timer triggered as well. *)
Definition irq_fault_and_timer_raised : irq_machine :=
  irq_trigger irq_fault_raised_timer_enabled INT_TIMER.

(** ** Further vocabulary *)

(** The well-formed register files: declared size, [uint32_t] words. *)
Definition rf_wf (rf : register_file) : Prop := rf_sized rf /\ rf_words rf.

(** The samples held by the ring, oldest first: the slots from the tail up
    to the head. *)
Definition ring_contents (sa : sensor_array) : list Z :=
  map (fun j : nat =>
         default 0 (buffer sa !! Z.to_nat ((buffer_tail sa + Z.of_nat j)
                                           mod SENSOR_BUFFER_SIZE)))
      (seq 0 (Z.to_nat ((buffer_head sa - buffer_tail sa) mod SENSOR_BUFFER_SIZE))).

(** [n] calls of [sensor_buffer_pop]: the return codes and the values
    stored through the pointer, in order, and the final state. *)
Fixpoint sensor_buffer_pop_n (n : nat) (hw : sensor_hw)
  : list (Z * option Z) * sensor_hw :=
  match n with
  | O => ([], hw)
  | S n =>
      let '(r, v, hw) := sensor_buffer_pop hw in
      let '(rs, hw) := sensor_buffer_pop_n n hw in
      ((r, v) :: rs, hw)
  end.

(** A sequence of operations on the interrupt controller applied in
    order. *)
Definition irq_run {W : Type}
    (call : Z -> Z -> Z -> irq_machine * W -> irq_machine * W)
    (ops : list irq_op) (mw : irq_machine * W) : irq_machine * W :=
  foldl (fun mw op => irq_apply call op mw) mw ops.

(** The operations of the driver loop: all but the delivery of a signal. *)
Definition is_loop_op (op : irq_op) : bool :=
  match op with
  | IrqSignal _ => false
  | _ => true
  end.

(** The handlers leave the interrupt controller and the two interrupt
    registers as they are, and the register array at its size. *)
Definition handlers_keep_irq_state {W : Type}
    (call : Z -> Z -> Z -> irq_machine * W -> irq_machine * W) : Prop :=
  forall h source context mw,
    let m := fst mw in
    let m' := fst (call h source context mw) in
    ic m' = ic m /\
    g_irq_controller m' = g_irq_controller m /\
    (rf_sized (ic_regs m) -> rf_sized (ic_regs m')) /\
    reg_read (ic_regs m') REG_IRQ_STATUS = reg_read (ic_regs m) REG_IRQ_STATUS /\
    reg_read (ic_regs m') REG_IRQ_ENABLE = reg_read (ic_regs m) REG_IRQ_ENABLE.

(** The interrupt registers shadow the masks of the controller: IRQ_STATUS
    holds [pending_irqs] and IRQ_ENABLE holds [enabled_irqs]. *)
Definition irq_shadowed (m : irq_machine) : Prop :=
  rf_sized (ic_regs m) /\
  reg_read (ic_regs m) REG_IRQ_STATUS = pending_irqs (ic m) /\
  reg_read (ic_regs m) REG_IRQ_ENABLE = enabled_irqs (ic m).

(** Handlers registered for the motor fault source and for the timer, the
    timer enabled and the motor fault source left disabled. *)
Definition irq_timer_armed : irq_machine :=
  snd (irq_enable
         (snd (irq_register_handler
                 (snd (irq_register_handler irq_initial INT_MOTOR_FAULT 0x1000 0x10))
                 INT_TIMER 0x2000 0x20))
         INT_TIMER).

(** The driver as [main] sets it up before its loop, on one register file:
    the devices initialised; handlers registered for the motor fault, motor
    stall and sensor ready sources, at addresses standing for
    [motor_fault_handler] and [sensor_ready_handler] with contexts standing
    for [&motor] and [&sensors], and these three sources enabled; the
    sensors enabled; the motor started at 5000 clockwise and the simulated
    values set. *)
Definition driver_started : driver :=
  let '(mc, rf) := snd (motor_init rf_zero) in
  let '(sa, rf) := snd (sensor_array_init rf) in
  let m := snd (irq_init rf) in
  let m := snd (irq_register_handler m INT_MOTOR_FAULT 0x1000 0x10) in
  let m := snd (irq_register_handler m INT_MOTOR_STALL 0x1000 0x10) in
  let m := snd (irq_register_handler m INT_SENSOR_READY 0x2000 0x20) in
  let m := snd (irq_enable m INT_MOTOR_FAULT) in
  let m := snd (irq_enable m INT_MOTOR_STALL) in
  let m := snd (irq_enable m INT_SENSOR_READY) in
  let '(sa, rf) := snd (sensor_array_enable (sa, ic_regs m)) in
  let '(mc, rf) := snd (motor_start (mc, rf) 5000 MOTOR_DIR_CW) in
  let hw := sensor_set_simulated_value (sa, rf) 0 100 in
  let hw := sensor_set_simulated_value hw 1 5000 in
  let hw := sensor_set_simulated_value hw 2 45 in
  let '(sa, rf) := sensor_set_simulated_value hw 3 2500 in
  {| drv_regs := rf; drv_motor := mc; drv_sensors := sa; drv_irq := ic m;
     drv_g_irq_controller := g_irq_controller m |}.

(** That driver with the overheat and fault bits raised in MOTOR_STATUS by
    the hardware. *)
Definition driver_overheating : driver :=
  {| drv_regs := reg_set_bits (drv_regs driver_started) REG_MOTOR_STATUS
                   (Z.lor MOTOR_STATUS_OVERHEAT MOTOR_STATUS_FAULT);
     drv_motor := drv_motor driver_started;
     drv_sensors := drv_sensors driver_started;
     drv_irq := drv_irq driver_started;
     drv_g_irq_controller := drv_g_irq_controller driver_started |}.

(** Handlers that only count their calls, as [counting_call], for the
    handlers of the driver. *)
Definition counting_handlers (h source context : Z)
    (mw : irq_machine * (motor_controller * sensor_array * Z))
  : irq_machine * (motor_controller * sensor_array * Z) :=
  (fst mw, (fst (snd mw), snd (snd mw) + 1)).

(** The motor running at 5000 clockwise: [motor_start(5000, CW)] and ten
    calls of [motor_update] after [motor_init]. *)
Definition motor_running_5000 : motor_hw :=
  motor_ticks 10 (snd (motor_start motor_initial 5000 MOTOR_DIR_CW)).

(** The fault code [motor_update] derives from the value of MOTOR_STATUS:
    stall before overheat before overcurrent. *)
Definition fault_of_status (status : Z) : motor_fault_t :=
  if Z.testbit status 2 then MOTOR_FAULT_STALL
  else if Z.testbit status 3 then MOTOR_FAULT_OVERHEAT
  else MOTOR_FAULT_OVERCURRENT.

(** The operations a motor in the fault state does not react to. *)
Definition blocked_in_fault (op : motor_op) : bool :=
  match op with
  | OpStart _ _ | OpSetSpeed _ | OpUpdate => true
  | _ => false
  end.

(** The motor running at 5000 with the overheat and fault bits raised in
    MOTOR_STATUS by the hardware. *)
Definition motor_overheating : motor_hw :=
  (fst motor_running_5000,
   reg_set_bits (snd motor_running_5000) REG_MOTOR_STATUS
                (Z.lor MOTOR_STATUS_OVERHEAT MOTOR_STATUS_FAULT)).

(** The motor running at 5000 after [motor_set_speed(4800)]. *)
Definition motor_slowing : motor_hw := snd (motor_set_speed motor_running_5000 4800).

(** The registers mirror the motor: MOTOR_SPEED holds the current speed
    and MOTOR_POSITION the position; the running bit of MOTOR_STATUS is set
    in the running state and clear in the idle state, and MOTOR_STATUS is
    zero in the recovery state. *)
Definition motor_mirrored (hw : motor_hw) : Prop :=
  rf_sized (snd hw) /\
  reg_read (snd hw) REG_MOTOR_SPEED = current_speed (fst hw) /\
  reg_read (snd hw) REG_MOTOR_POSITION = to_uint32 (position (fst hw)) /\
  (state (fst hw) = MOTOR_STATE_RUNNING ->
   Z.testbit (reg_read (snd hw) REG_MOTOR_STATUS) 0 = true) /\
  (state (fst hw) = MOTOR_STATE_IDLE ->
   Z.testbit (reg_read (snd hw) REG_MOTOR_STATUS) 0 = false) /\
  (state (fst hw) = MOTOR_STATE_RECOVERY ->
   reg_read (snd hw) REG_MOTOR_STATUS = 0).

(** The ring after 15 pushes and a 16th, refused, as in
    test_sensor_buffer_overflow. *)
Definition sensors_overflowed : sensor_hw :=
  snd (sensor_buffer_push
         (snd (sensor_buffer_push_all sensors_initial (map Z.of_nat (seq 0 15))))
         999).

(** The array after [sensor_array_init] and [sensor_array_enable], with the
    values the driver simulates. *)
Definition sensors_enabled : sensor_hw :=
  let hw := snd (sensor_array_enable sensors_initial) in
  let hw := sensor_set_simulated_value hw 0 100 in
  let hw := sensor_set_simulated_value hw 1 50000 in
  let hw := sensor_set_simulated_value hw 2 (-45) in
  sensor_set_simulated_value hw 3 2500.

(** The sample a channel in the sampling state contributes to the ring in
    continuous mode. *)
Definition sampled_value (s : sensor_t) : option Z :=
  if sensor_state_eqb (sstate s) SENSOR_STATE_SAMPLING
  then Some (clamp (min_value s) (max_value s) (value s))
  else None.

(** The enabled array switched to continuous mode and triggered once. *)
Definition sensors_streaming : sensor_hw :=
  snd (sensor_array_trigger (snd (sensor_array_set_continuous sensors_enabled true))).

(** ** Proof automation *)

(** Case analysis on the integer comparisons of a goal. *)
Ltac compare_cases :=
  rewrite ?Z.gtb_ltb, ?Z.geb_leb;
  repeat match goal with
         | |- context [?a <? ?b] => destruct (Z.ltb_spec a b)
         | |- context [?a <=? ?b] => destruct (Z.leb_spec a b)
         end.

(** * Properties *)

(** ** Register file *)

Section RegisterFile.

Implicit Types (rf : register_file) (o v m : Z).

Lemma word_index_lt o :
  0 <= o < REGISTER_FILE_SIZE -> (word_index o < REGISTER_FILE_WORDS)%nat.
Proof.
  unfold word_index, REGISTER_FILE_SIZE. intros H.
  assert (0 <= o / 4) by (apply Z.div_pos; lia).
  assert (o / 4 < 9) by (apply Z.div_lt_upper_bound; lia).
  change REGISTER_FILE_WORDS with (Z.to_nat 9). lia.
Qed.

Lemma word_index_aligned o :
  0 <= o -> word_index (o - o mod 4) = word_index o.
Proof.
  intros H. unfold word_index. f_equal.
  rewrite (Z.div_mod o 4) at 1 by lia.
  replace (4 * (o / 4) + o mod 4 - o mod 4) with (o / 4 * 4) by lia.
  apply Z.div_mul. lia.
Qed.

Lemma in_range_test o :
  o < REGISTER_FILE_SIZE -> (REGISTER_FILE_SIZE <=? o) = false.
Proof. intros H. apply Z.leb_gt. exact H. Qed.

Lemma out_of_range_test o :
  REGISTER_FILE_SIZE <= o -> (REGISTER_FILE_SIZE <=? o) = true.
Proof. intros H. apply Z.leb_le. exact H. Qed.

Lemma reg_write_sized rf o v : rf_sized rf -> rf_sized (reg_write rf o v).
Proof.
  unfold rf_sized, reg_write. intros H.
  destruct (REGISTER_FILE_SIZE <=? o); simpl; [exact H |].
  rewrite length_insert. exact H.
Qed.

Lemma reg_set_bits_sized rf o m : rf_sized rf -> rf_sized (reg_set_bits rf o m).
Proof.
  unfold rf_sized, reg_set_bits. intros H.
  destruct (REGISTER_FILE_SIZE <=? o); simpl; [exact H |].
  rewrite length_insert. exact H.
Qed.

Lemma reg_clear_bits_sized rf o m : rf_sized rf -> rf_sized (reg_clear_bits rf o m).
Proof.
  unfold rf_sized, reg_clear_bits. intros H.
  destruct (REGISTER_FILE_SIZE <=? o); simpl; [exact H |].
  rewrite length_insert. exact H.
Qed.

(** [reg_set_bits] and [reg_clear_bits] are a read followed by a write. *)
Lemma reg_set_bits_as_write rf o m :
  o < REGISTER_FILE_SIZE ->
  reg_set_bits rf o m = reg_write rf o (Z.lor (reg_read rf o) m).
Proof.
  intros H. unfold reg_set_bits, reg_write, reg_read.
  rewrite in_range_test by exact H. reflexivity.
Qed.

Lemma reg_clear_bits_as_write rf o m :
  o < REGISTER_FILE_SIZE ->
  reg_clear_bits rf o m = reg_write rf o (Z.land (reg_read rf o) (not32 m)).
Proof.
  intros H. unfold reg_clear_bits, reg_write, reg_read.
  rewrite in_range_test by exact H. reflexivity.
Qed.

Lemma reg_read_write_same rf o v :
  rf_sized rf -> 0 <= o < REGISTER_FILE_SIZE ->
  reg_read (reg_write rf o v) o = v.
Proof.
  intros Hs Ho. unfold reg_read, reg_write.
  rewrite in_range_test by lia. simpl.
  rewrite list_lookup_insert_eq; [reflexivity |].
  rewrite Hs. apply word_index_lt. exact Ho.
Qed.

Lemma reg_read_write_other rf o o' v :
  word_index o <> word_index o' ->
  reg_read (reg_write rf o v) o' = reg_read rf o'.
Proof.
  intros Hne. unfold reg_read, reg_write.
  destruct (REGISTER_FILE_SIZE <=? o'); [reflexivity |].
  destruct (REGISTER_FILE_SIZE <=? o); [reflexivity |]. simpl.
  rewrite list_lookup_insert_ne by exact Hne. reflexivity.
Qed.

Lemma reg_read_out_of_range rf o :
  REGISTER_FILE_SIZE <= o -> reg_read rf o = 0xFFFFFFFF.
Proof. intros H. unfold reg_read. rewrite out_of_range_test by exact H. reflexivity. Qed.

Lemma reg_write_out_of_range rf o v :
  REGISTER_FILE_SIZE <= o -> reg_write rf o v = rf.
Proof. intros H. unfold reg_write. rewrite out_of_range_test by exact H. reflexivity. Qed.

Lemma reg_read_set_bits_same rf o m :
  rf_sized rf -> 0 <= o < REGISTER_FILE_SIZE ->
  reg_read (reg_set_bits rf o m) o = Z.lor (reg_read rf o) m.
Proof.
  intros Hs Ho. rewrite reg_set_bits_as_write by lia.
  apply reg_read_write_same; assumption.
Qed.

Lemma reg_read_clear_bits_same rf o m :
  rf_sized rf -> 0 <= o < REGISTER_FILE_SIZE ->
  reg_read (reg_clear_bits rf o m) o = Z.land (reg_read rf o) (not32 m).
Proof.
  intros Hs Ho. rewrite reg_clear_bits_as_write by lia.
  apply reg_read_write_same; assumption.
Qed.

Lemma reg_read_set_bits_other rf o o' m :
  word_index o <> word_index o' ->
  reg_read (reg_set_bits rf o m) o' = reg_read rf o'.
Proof.
  intros Hne. destruct (Z.lt_ge_cases o REGISTER_FILE_SIZE) as [H | H].
  - rewrite reg_set_bits_as_write by exact H. apply reg_read_write_other, Hne.
  - unfold reg_set_bits. rewrite out_of_range_test by exact H. reflexivity.
Qed.

Lemma reg_read_clear_bits_other rf o o' m :
  word_index o <> word_index o' ->
  reg_read (reg_clear_bits rf o m) o' = reg_read rf o'.
Proof.
  intros Hne. destruct (Z.lt_ge_cases o REGISTER_FILE_SIZE) as [H | H].
  - rewrite reg_clear_bits_as_write by exact H. apply reg_read_write_other, Hne.
  - unfold reg_clear_bits. rewrite out_of_range_test by exact H. reflexivity.
Qed.

Lemma rf_zero_sized : rf_sized rf_zero.
Proof. reflexivity. Qed.

Lemma reg_read_uint32 rf o :
  rf_words rf -> 0 <= o < REGISTER_FILE_SIZE -> is_uint32 (reg_read rf o).
Proof.
  intros Hw Ho. unfold reg_read. rewrite in_range_test by lia.
  destruct (regs rf !! word_index o) as [w |] eqn:E; simpl.
  - eapply Forall_lookup_1; eassumption.
  - unfold is_uint32, uint32_mod. lia.
Qed.

End RegisterFile.

(** Bits of a 32-bit complement. *)
Lemma not32_spec x i :
  0 <= i -> Z.testbit (not32 x) i = negb (Z.testbit x i) && (i <? 32).
Proof.
  intros Hi. unfold not32. rewrite Z.land_spec, Z.lnot_spec by exact Hi.
  f_equal. change 0xFFFFFFFF with (Z.ones 32).
  destruct (Z.ltb_spec i 32).
  - apply Z.ones_spec_low. lia.
  - apply Z.ones_spec_high. lia.
Qed.

Lemma uint32_testbit_high w i : is_uint32 w -> 32 <= i -> Z.testbit w i = false.
Proof.
  intros [H0 H1] Hi. destruct (Z.eq_dec w 0) as [-> | Hne].
  - apply Z.bits_0.
  - apply Z.bits_above_log2; [exact H0 |].
    assert (Z.log2 w < 32); [| lia].
    apply Z.log2_lt_pow2; [lia | exact H1].
Qed.

(** C1: for an aligned in-range offset a write followed by a read returns
    the value written; for an offset at or beyond 0x24 a read returns
    0xFFFFFFFF and a write changes nothing, so that every in-range register
    reads as before. *)
Theorem reg_write_then_read rf o v :
  rf_sized rf ->
  (0 <= o < 0x24 -> o mod 4 = 0 -> reg_read (reg_write rf o v) o = v) /\
  (0x24 <= o ->
   reg_read rf o = 0xFFFFFFFF /\
   reg_write rf o v = rf /\
   forall o', 0 <= o' < 0x24 -> reg_read (reg_write rf o v) o' = reg_read rf o').
Proof.
  intros Hs. split.
  - intros Ho _. apply reg_read_write_same; assumption.
  - intros Ho. split; [| split].
    + apply reg_read_out_of_range. exact Ho.
    + apply reg_write_out_of_range. exact Ho.
    + intros o' _. rewrite reg_write_out_of_range by exact Ho. reflexivity.
Qed.

Lemma reg_write_then_read_witness :
  reg_read (reg_write rf_zero 0x14 0x12345678) 0x14 = 0x12345678 /\
  reg_read rf_zero 0x100 = 0xFFFFFFFF /\
  reg_write rf_zero 0x100 0xDEADBEEF = rf_zero.
Proof.
  destruct (reg_write_then_read rf_zero 0x14 0x12345678 rf_zero_sized) as [Hin _].
  destruct (reg_write_then_read rf_zero 0x100 0xDEADBEEF rf_zero_sized) as [_ Hout].
  split; [apply Hin; [lia | reflexivity] |].
  destruct Hout as (Hr & Hw & _); [lia |].
  split; [exact Hr | exact Hw].
Defined.

(** Clearing then setting the bits of [m] yields the original word with the
    bits of [m] set. *)
Lemma clear_then_set_word w m :
  is_uint32 w -> Z.lor (Z.land w (not32 m)) m = Z.lor w m.
Proof.
  intros Hw. apply Z.bits_inj'. intros i Hi.
  rewrite !Z.lor_spec, Z.land_spec, not32_spec by exact Hi.
  destruct (Z.ltb_spec i 32) as [Hlt | Hge].
  - destruct (Z.testbit w i), (Z.testbit m i); reflexivity.
  - rewrite (uint32_testbit_high w i Hw Hge). reflexivity.
Qed.

(** C9, as stated, fails: on the zeroed register file, clearing and then
    setting bit 0 of MOTOR_CTRL leaves bit 0 set although it was clear
    before the sequence. *)
Lemma clear_then_set_bits_not_restoring :
  ~ (forall rf o m i,
        rf_sized rf -> rf_words rf -> 0 <= o < 0x24 -> is_uint32 m ->
        Z.testbit m i = true ->
        Z.testbit (reg_read (reg_set_bits (reg_clear_bits rf o m) o m) o) i
        = Z.testbit (reg_read rf o) i).
Proof.
  intros H.
  specialize (H rf_zero REG_MOTOR_CTRL MOTOR_CTRL_ENABLE 0).
  assert (Hw : rf_words rf_zero).
  { unfold rf_words. vm_compute regs. repeat constructor; discriminate. }
  assert (Hm : is_uint32 MOTOR_CTRL_ENABLE) by (split; [discriminate | reflexivity]).
  specialize (H rf_zero_sized Hw ltac:(split; [discriminate | reflexivity]) Hm eq_refl).
  vm_compute in H. discriminate H.
Qed.

(** C9, amended: after [reg_clear_bits(o, m); reg_set_bits(o, m)] the word
    at an in-range offset is the original word with the bits of [m] set:
    every bit position of [m] holds 1 and every other bit position agrees
    with the word held before the sequence. *)
Theorem clear_then_set_bits rf o m :
  rf_sized rf -> rf_words rf -> 0 <= o < 0x24 ->
  reg_read (reg_set_bits (reg_clear_bits rf o m) o m) o = Z.lor (reg_read rf o) m /\
  forall i, 0 <= i ->
    Z.testbit (reg_read (reg_set_bits (reg_clear_bits rf o m) o m) o) i
    = if Z.testbit m i then true else Z.testbit (reg_read rf o) i.
Proof.
  intros Hs Hw Ho.
  assert (E : reg_read (reg_set_bits (reg_clear_bits rf o m) o m) o
              = Z.lor (reg_read rf o) m).
  { rewrite reg_read_set_bits_same by (try apply reg_clear_bits_sized; assumption).
    rewrite reg_read_clear_bits_same by assumption.
    apply clear_then_set_word, reg_read_uint32; assumption. }
  split; [exact E |].
  intros i Hi. rewrite E, Z.lor_spec.
  destruct (Z.testbit m i), (Z.testbit (reg_read rf o) i); reflexivity.
Qed.

Lemma rf_zero_words : rf_words rf_zero.
Proof. unfold rf_words. vm_compute regs. repeat constructor; discriminate. Qed.

Lemma clear_then_set_bits_witness :
  reg_read (reg_set_bits (reg_clear_bits rf_zero 0x04 0x0C) 0x04 0x0C) 0x04
  = Z.lor (reg_read rf_zero 0x04) 0x0C.
Proof.
  apply (clear_then_set_bits rf_zero 0x04 0x0C rf_zero_sized rf_zero_words).
  split; [discriminate | reflexivity].
Defined.

(** C10: an in-range offset that is not a multiple of 4 is served like the
    aligned offset below it.  The bounds check is on the byte offset and
    the word index is [o / 4]: each of the four operations acts on the
    word containing [o], a write is read back at the aligned offset, and
    the offsets 0x21 to 0x23 reach the last word, IRQ_ENABLE. *)
Theorem unaligned_offset_access rf o v m :
  rf_sized rf -> 0 <= o < 0x24 ->
  regs rf !! Z.to_nat (o / 4) = Some (reg_read rf o) /\
  reg_read rf o = reg_read rf (o - o mod 4) /\
  reg_write rf o v = reg_write rf (o - o mod 4) v /\
  reg_set_bits rf o m = reg_set_bits rf (o - o mod 4) m /\
  reg_clear_bits rf o m = reg_clear_bits rf (o - o mod 4) m /\
  reg_read (reg_write rf o v) (o - o mod 4) = v /\
  (0x21 <= o <= 0x23 ->
   reg_read rf o = reg_read rf REG_IRQ_ENABLE /\
   Z.to_nat (o / 4) = (REGISTER_FILE_WORDS - 1)%nat).
Proof.
  intros Hs Ho.
  assert (Hm : 0 <= o mod 4 < 4) by (apply Z.mod_pos_bound; lia).
  assert (Ha : 0 <= o - o mod 4 < REGISTER_FILE_SIZE)
    by (unfold REGISTER_FILE_SIZE; pose proof (Z.mod_le o 4); lia).
  assert (Hi : word_index (o - o mod 4) = word_index o)
    by (apply word_index_aligned; lia).
  assert (Hr : reg_read rf o = reg_read rf (o - o mod 4)).
  { unfold reg_read. rewrite !in_range_test by (unfold REGISTER_FILE_SIZE in *; lia).
    rewrite Hi. reflexivity. }
  assert (Hw : forall x, reg_write rf o x = reg_write rf (o - o mod 4) x).
  { intros x. unfold reg_write.
    rewrite !in_range_test by (unfold REGISTER_FILE_SIZE in *; lia).
    rewrite Hi. reflexivity. }
  repeat split.
  - unfold reg_read. rewrite in_range_test by (unfold REGISTER_FILE_SIZE; lia).
    fold (word_index o).
    destruct (lookup_lt_is_Some_2 (regs rf) (word_index o)) as [w E].
    + rewrite Hs. apply word_index_lt. exact Ho.
    + rewrite E. reflexivity.
  - exact Hr.
  - apply Hw.
  - rewrite !reg_set_bits_as_write by (unfold REGISTER_FILE_SIZE in *; lia).
    rewrite <- Hr. apply Hw.
  - rewrite !reg_clear_bits_as_write by (unfold REGISTER_FILE_SIZE in *; lia).
    rewrite <- Hr. apply Hw.
  - rewrite Hw. apply reg_read_write_same; assumption.
  - unfold reg_read. rewrite !in_range_test by (unfold REGISTER_FILE_SIZE; lia).
    replace (word_index o) with (word_index REG_IRQ_ENABLE); [reflexivity |].
    unfold word_index. f_equal.
    assert (E : o / 4 = 8) by (symmetry; apply (Z.div_unique o 4 8 (o - 32)); lia).
    rewrite E. reflexivity.
  - assert (E : o / 4 = 8) by (symmetry; apply (Z.div_unique o 4 8 (o - 32)); lia).
    rewrite E. reflexivity.
Qed.

Lemma unaligned_offset_access_witness :
  reg_read (reg_write rf_zero 0x22 0xCAFE) 0x20 = 0xCAFE.
Proof.
  apply (unaligned_offset_access rf_zero 0x22 0xCAFE 0 rf_zero_sized).
  split; [discriminate | reflexivity].
Defined.

(** ** Motor controller *)

(** C3 at the failing input: after [motor_start(1000, CW)] and 20 updates,
    [motor_reset] returns the motor to idle without fault and with zero
    speeds and clears MOTOR_CTRL, MOTOR_STATUS and MOTOR_SPEED, but
    MOTOR_POSITION still reads 180, the position reached before the reset. *)
Theorem motor_reset_keeps_position_register :
  let hw := snd (motor_reset motor_after_cw_run) in
  reg_read (snd motor_after_cw_run) REG_MOTOR_POSITION = 180 /\
  state (fst hw) = MOTOR_STATE_IDLE /\
  fault_code (fst hw) = MOTOR_FAULT_NONE /\
  current_speed (fst hw) = 0 /\
  target_speed (fst hw) = 0 /\
  reg_read (snd hw) REG_MOTOR_CTRL = 0 /\
  reg_read (snd hw) REG_MOTOR_STATUS = 0 /\
  reg_read (snd hw) REG_MOTOR_SPEED = 0 /\
  reg_read (snd hw) REG_MOTOR_POSITION = 180 /\
  position (fst hw) = 180.
Proof. vm_compute. repeat split; reflexivity. Qed.

(** The repository's test_motor_position_update expects a negative position
    after the reset and a counter-clockwise run of the same length; since
    the reset keeps the position, the run ends at 0. *)
Lemma position_after_reset_and_ccw_run :
  motor_get_position motor_after_cw_run = 180 /\
  motor_get_position motor_after_ccw_run = 0.
Proof. vm_compute. split; reflexivity. Qed.

(** What [motor_reset] does on any motor: the state and the registers
    MOTOR_CTRL, MOTOR_STATUS and MOTOR_SPEED are cleared; the position, the
    direction and the register MOTOR_POSITION are left as they were. *)
Lemma motor_reset_effect mc rf :
  rf_sized rf ->
  let hw := snd (motor_reset (mc, rf)) in
  fst (motor_reset (mc, rf)) = 0 /\
  state (fst hw) = MOTOR_STATE_IDLE /\
  fault_code (fst hw) = MOTOR_FAULT_NONE /\
  current_speed (fst hw) = 0 /\
  target_speed (fst hw) = 0 /\
  reg_read (snd hw) REG_MOTOR_CTRL = 0 /\
  reg_read (snd hw) REG_MOTOR_STATUS = 0 /\
  reg_read (snd hw) REG_MOTOR_SPEED = 0 /\
  reg_read (snd hw) REG_MOTOR_POSITION = reg_read rf REG_MOTOR_POSITION /\
  position (fst hw) = position mc /\
  direction (fst hw) = direction mc.
Proof.
  intros Hs. simpl.
  assert (Hin : forall o, In o [REG_MOTOR_CTRL; REG_MOTOR_STATUS; REG_MOTOR_SPEED] ->
                          0 <= o < REGISTER_FILE_SIZE).
  { intros o [<- | [<- | [<- | []]]]; split; (discriminate || reflexivity). }
  repeat split.
  - rewrite reg_read_clear_bits_same
      by (repeat apply reg_write_sized; try apply Hin; simpl; auto).
    rewrite !reg_read_write_other by (vm_compute; discriminate).
    rewrite reg_read_write_same by (try apply Hin; simpl; auto).
    reflexivity.
  - rewrite reg_read_clear_bits_other by (vm_compute; discriminate).
    rewrite reg_read_write_other by (vm_compute; discriminate).
    apply reg_read_write_same; [apply reg_write_sized, Hs | apply Hin; simpl; auto].
  - rewrite reg_read_clear_bits_other by (vm_compute; discriminate).
    apply reg_read_write_same; [repeat apply reg_write_sized; exact Hs |].
    apply Hin; simpl; auto.
  - rewrite reg_read_clear_bits_other by (vm_compute; discriminate).
    rewrite !reg_read_write_other by (vm_compute; discriminate).
    reflexivity.
Qed.

Section MotorTick.

Implicit Types (mc : motor_controller) (rf : register_file).

(** Without fault bits in MOTOR_STATUS, [motor_update] is the switch on
    the state. *)
Lemma motor_update_no_fault mc rf :
  no_fault_bits rf ->
  snd (motor_update (mc, rf)) =
  match state mc with
  | MOTOR_STATE_IDLE | MOTOR_STATE_FAULT => (mc, rf)
  | MOTOR_STATE_STARTING => update_starting mc rf
  | MOTOR_STATE_RUNNING => update_running mc rf
  | MOTOR_STATE_STOPPING => update_stopping mc rf
  | MOTOR_STATE_RECOVERY => (set_state mc MOTOR_STATE_IDLE, rf)
  end.
Proof.
  unfold no_fault_bits, motor_update. intros ->. simpl.
  destruct (state mc); reflexivity.
Qed.

(** Setting the running bit sets no fault bit. *)
Lemma running_bit_no_fault s :
  Z.land s MOTOR_STATUS_FAULT_BITS = 0 ->
  Z.land (Z.lor s MOTOR_STATUS_RUNNING) MOTOR_STATUS_FAULT_BITS = 0.
Proof.
  intros H. rewrite Z.land_lor_distr_l, H. reflexivity.
Qed.

Lemma update_starting_regs mc rf :
  rf_sized rf -> no_fault_bits rf ->
  rf_sized (snd (update_starting mc rf)) /\ no_fault_bits (snd (update_starting mc rf)).
Proof.
  intros Hs Hf. unfold update_starting. simpl. split.
  - apply reg_set_bits_sized, reg_write_sized, Hs.
  - unfold no_fault_bits.
    rewrite reg_read_set_bits_same;
      [| apply reg_write_sized, Hs | split; [discriminate | reflexivity]].
    rewrite reg_read_write_other by (vm_compute; discriminate).
    apply running_bit_no_fault, Hf.
Qed.

Lemma update_running_regs mc rf :
  rf_sized rf -> no_fault_bits rf ->
  rf_sized (snd (update_running mc rf)) /\ no_fault_bits (snd (update_running mc rf)).
Proof.
  intros Hs Hf. unfold update_running. simpl. split.
  - repeat apply reg_write_sized. exact Hs.
  - unfold no_fault_bits.
    rewrite !reg_read_write_other by (vm_compute; discriminate). exact Hf.
Qed.

(** A tick in the starting state below the target. *)
Lemma update_starting_speed mc rf :
  0 <= current_speed mc < target_speed mc -> target_speed mc <= MAX_SPEED ->
  let mc' := fst (update_starting mc rf) in
  target_speed mc' = target_speed mc /\
  current_speed mc' = Z.min (current_speed mc + SPEED_RAMP_RATE) (target_speed mc) /\
  state mc' = (if current_speed mc + SPEED_RAMP_RATE <? target_speed mc
               then state mc else MOTOR_STATE_RUNNING).
Proof.
  unfold MAX_SPEED, SPEED_RAMP_RATE. intros Hc Ht. unfold update_starting. simpl.
  destruct (Z.ltb_spec (current_speed mc) (target_speed mc)) as [_ | Hge]; [| lia].
  simpl. unfold add32, uint32_mod, SPEED_RAMP_RATE.
  rewrite Z.mod_small by lia.
  destruct (Z.ltb_spec (current_speed mc + 500) (target_speed mc)) as [Hlt | Hge].
  - rewrite Z.geb_leb, (proj2 (Z.leb_gt _ _)) by lia.
    simpl. rewrite Z.min_l by lia. auto.
  - rewrite Z.geb_leb, (proj2 (Z.leb_le _ _)) by lia.
    simpl. rewrite Z.min_r by lia. auto.
Qed.

(** A tick in the starting state at or above the target. *)
Lemma update_starting_done mc rf :
  target_speed mc <= current_speed mc ->
  fst (update_starting mc rf) = set_state mc MOTOR_STATE_RUNNING.
Proof.
  intros H. unfold update_starting.
  destruct (Z.ltb_spec (current_speed mc) (target_speed mc)); [lia | reflexivity].
Qed.

(** A tick in the running state at the target keeps the speed. *)
Lemma update_running_at_target mc rf :
  current_speed mc = target_speed mc ->
  let mc' := fst (update_running mc rf) in
  state mc' = state mc /\ target_speed mc' = target_speed mc /\
  current_speed mc' = current_speed mc.
Proof.
  intros H. unfold update_running. rewrite H, Z.ltb_irrefl.
  rewrite Z.gtb_ltb, Z.ltb_irrefl.
  simpl. destruct (direction mc); simpl; rewrite H; auto.
Qed.

End MotorTick.

Section RampUp.

Variables (t : Z) (dir : motor_direction_t) (mc : motor_controller) (rf : register_file).
Hypothesis t_range : 0 <= t <= 10000.
Hypothesis idle : state mc = MOTOR_STATE_IDLE.
Hypothesis at_rest : current_speed mc = 0.
Hypothesis sized : rf_sized rf.
Hypothesis healthy : no_fault_bits rf.

Local Abbreviation started := (snd (motor_start (mc, rf) t dir)).

(** The motor [k] ticks after the start. *)
Local Abbreviation at_tick k := (motor_ticks k started).

Lemma motor_start_from_idle :
  fst (motor_start (mc, rf) t dir) = 0 /\
  state (fst started) = MOTOR_STATE_STARTING /\
  target_speed (fst started) = t /\
  current_speed (fst started) = 0 /\
  direction (fst started) = dir /\
  rf_sized (snd started) /\ no_fault_bits (snd started).
Proof.
  unfold motor_start. rewrite idle. simpl.
  replace (t >? MAX_SPEED) with false
    by (symmetry; rewrite Z.gtb_ltb; apply Z.ltb_ge; unfold MAX_SPEED; lia).
  repeat split; try assumption.
  - apply reg_write_sized, sized.
  - unfold no_fault_bits.
    rewrite reg_read_write_other by (vm_compute; discriminate). exact healthy.
Qed.

(** The state of the motor at every tick of the ramp. *)
Lemma ramp_invariant (k : nat) :
  rf_sized (snd (at_tick k)) /\ no_fault_bits (snd (at_tick k)) /\
  target_speed (fst (at_tick k)) = t /\
  current_speed (fst (at_tick k)) = Z.min (500 * Z.of_nat k) t /\
  state (fst (at_tick k)) =
    (if (Z.of_nat k =? 0) || (500 * Z.of_nat k <? t)
     then MOTOR_STATE_STARTING else MOTOR_STATE_RUNNING).
Proof.
  induction k as [| k IH].
  - destruct motor_start_from_idle as (_ & Hst & Ht & Hc & _ & Hs & Hf).
    change (motor_ticks 0 started) with started.
    repeat split; try assumption.
    rewrite Hc. simpl. lia.
  - destruct IH as (Hs & Hf & Ht & Hc & Hst).
    assert (E : at_tick (S k) = snd (motor_update (at_tick k))) by reflexivity.
    rewrite E. destruct (at_tick k) as [m r]. simpl in Hs, Hf, Ht, Hc, Hst.
    rewrite motor_update_no_fault by exact Hf.
    rewrite Nat2Z.inj_succ.
    replace (Z.succ (Z.of_nat k) =? 0) with false by (symmetry; apply Z.eqb_neq; lia).
    rewrite orb_false_l. rewrite Hst.
    destruct ((Z.of_nat k =? 0) || (500 * Z.of_nat k <? t)) eqn:Hphase.
    + (* starting *)
      destruct (update_starting_regs m r Hs Hf) as [Hs' Hf'].
      split; [exact Hs' |]. split; [exact Hf' |].
      assert (Hck : current_speed m = 500 * Z.of_nat k).
      { rewrite Hc. apply orb_true_iff in Hphase. destruct Hphase as [H0 | Hlt].
        - apply Z.eqb_eq in H0. rewrite H0. lia.
        - apply Z.ltb_lt in Hlt. lia. }
      destruct (Z.lt_ge_cases (current_speed m) (target_speed m)) as [Hlt | Hge].
      * destruct (update_starting_speed m r) as (Ht' & Hc' & Hst');
          [lia | unfold MAX_SPEED; lia |].
        rewrite Ht', Hc', Hst', Ht, Hck, Hst. unfold SPEED_RAMP_RATE.
        replace (500 * Z.of_nat k + 500) with (500 * Z.succ (Z.of_nat k)) by lia.
        auto.
      * rewrite update_starting_done by exact Hge. simpl.
        rewrite Ht, Hck.
        replace (500 * Z.succ (Z.of_nat k) <? t) with false
          by (symmetry; apply Z.ltb_ge; lia).
        repeat split. lia.
    + (* running at the target *)
      apply orb_false_iff in Hphase. destruct Hphase as [_ Hge].
      apply Z.ltb_ge in Hge.
      destruct (update_running_regs m r Hs Hf) as [Hs' Hf'].
      destruct (update_running_at_target m r) as (Hst' & Ht' & Hc'); [lia |].
      rewrite Ht', Hc', Hst', Ht, Hc, Hst.
      replace (500 * Z.succ (Z.of_nat k) <? t) with false
        by (symmetry; apply Z.ltb_ge; lia).
      repeat split; try assumption. lia.
Qed.

End RampUp.

(** C2: after [motor_start(t, dir)] with [t <= 10000] on an idle motor at
    rest, with no fault bit in MOTOR_STATUS, the speed after [k] calls of
    [motor_update] is [min (500 * k) t]: it grows by 500 per tick, clamped at
    [t], and never decreases.  The motor is starting while the speed is
    below [t]; from some tick on, at most the 20th, the speed equals [t] and
    the state is running.  No tick sets a fault bit. *)
Theorem motor_ramp_up t dir mc rf :
  0 <= t <= 10000 ->
  state mc = MOTOR_STATE_IDLE ->
  current_speed mc = 0 ->
  rf_sized rf ->
  no_fault_bits rf ->
  let started := snd (motor_start (mc, rf) t dir) in
  let speed k := current_speed (fst (motor_ticks k started)) in
  let phase k := state (fst (motor_ticks k started)) in
  fst (motor_start (mc, rf) t dir) = 0 /\
  phase 0%nat = MOTOR_STATE_STARTING /\
  (forall k, speed k = Z.min (500 * Z.of_nat k) t) /\
  (forall k, speed k <= speed (S k)) /\
  (forall k, speed k < t -> phase k = MOTOR_STATE_STARTING) /\
  (forall k, no_fault_bits (snd (motor_ticks k started))) /\
  exists n, (n <= 20)%nat /\
    forall k, (n <= k)%nat -> speed k = t /\ phase k = MOTOR_STATE_RUNNING.
Proof.
  intros Ht Hidle Hrest Hs Hf started speed phase.
  pose proof (ramp_invariant t dir mc rf Ht Hidle Hrest Hs Hf) as Inv.
  fold started in Inv.
  assert (Hspeed : forall k, speed k = Z.min (500 * Z.of_nat k) t)
    by (intros k; apply (Inv k)).
  split; [apply (motor_start_from_idle t dir mc rf Ht Hidle Hrest Hs Hf) |].
  split; [apply (Inv 0%nat) |].
  split; [exact Hspeed |].
  split; [intros k; rewrite !Hspeed; lia |].
  split.
  { intros k Hlt. unfold phase. destruct (Inv k) as (_ & _ & _ & _ & ->).
    rewrite Hspeed in Hlt.
    replace (500 * Z.of_nat k <? t) with true by (symmetry; apply Z.ltb_lt; lia).
    rewrite orb_true_r. reflexivity. }
  split; [intros k; apply (Inv k) |].
  exists (Z.to_nat (Z.max 1 ((t + 499) / 500))).
  assert (Hq : t <= 500 * ((t + 499) / 500) /\ (t + 499) / 500 <= 20).
  { pose proof (Z.div_mod (t + 499) 500 ltac:(lia)) as Hdm.
    pose proof (Z.mod_pos_bound (t + 499) 500 ltac:(lia)) as Hmb.
    split; lia. }
  split; [lia |].
  intros k Hk. split.
  - rewrite Hspeed. lia.
  - unfold phase. destruct (Inv k) as (_ & _ & _ & _ & ->).
    replace (Z.of_nat k =? 0) with false by (symmetry; apply Z.eqb_neq; lia).
    replace (500 * Z.of_nat k <? t) with false by (symmetry; apply Z.ltb_ge; lia).
    reflexivity.
Qed.

Lemma motor_initial_idle :
  state (fst motor_initial) = MOTOR_STATE_IDLE /\
  current_speed (fst motor_initial) = 0 /\
  rf_sized (snd motor_initial) /\ no_fault_bits (snd motor_initial).
Proof. repeat split. Qed.

Lemma motor_ramp_up_witness :
  current_speed
    (fst (motor_ticks 20
            (snd (motor_start (fst motor_initial, snd motor_initial) 5000 MOTOR_DIR_CW))))
  = Z.min (500 * Z.of_nat 20) 5000.
Proof.
  destruct motor_initial_idle as (Hidle & Hrest & Hs & Hf).
  destruct (motor_ramp_up 5000 MOTOR_DIR_CW (fst motor_initial) (snd motor_initial)
              ltac:(lia) Hidle Hrest Hs Hf) as (_ & _ & Hspeed & _).
  exact (Hspeed 20%nat).
Defined.

(** ** Bounds on the speeds *)



Lemma add32_small a b : 0 <= a + b < uint32_mod -> add32 a b = a + b.
Proof. apply Z.mod_small. Qed.

Lemma sub32_small a b : 0 <= a - b < uint32_mod -> sub32 a b = a - b.
Proof. apply Z.mod_small. Qed.






Lemma zero_uint32 : is_uint32 0.
Proof. split; [reflexivity | reflexivity]. Qed.





Lemma motor_run_reachable ops : forall hw,
  motor_reachable hw -> Forall motor_op_valid ops -> motor_reachable (motor_run ops hw).
Proof.
  induction ops as [| op ops IH]; intros hw Hr Hv; [exact Hr |].
  inversion Hv as [| ? ? Hop Hops]; subst.
  apply (IH (motor_apply op hw)); [| exact Hops].
  apply reach_step; assumption.
Qed.

Lemma motor_initial_reachable : motor_reachable motor_initial.
Proof. apply reach_init, rf_zero_sized. Qed.




(** The ramp down of the running state wraps around when the speed is less
    than 500 above the target: after [motor_start(300, CW)], one update,
    [motor_set_speed(0)] and one more update the current speed is
    2^32 - 200.  No bound on the current speed is therefore part of the
    statement above. *)
Lemma running_ramp_down_wraps :
  let ops := [OpStart 300 MOTOR_DIR_CW; OpUpdate; OpSetSpeed 0; OpUpdate] in
  Forall motor_op_valid ops /\
  current_speed (fst (motor_run ops motor_initial)) = 4294967096.
Proof.
  split; [repeat constructor; discriminate | reflexivity].
Qed.

(** ** Sensor ring buffer *)

(** Advancing an index of the ring by 1 to 15 slots does not lead back to
    it. *)
Lemma ring_advance_not_tail tl j :
  0 <= tl < 16 -> 1 <= j < 16 -> (tl + j) mod 16 <> tl.
Proof.
  intros Ht Hj. destruct (Z.lt_ge_cases (tl + j) 16) as [Hlt | Hge].
  - rewrite Z.mod_small by lia. lia.
  - replace (tl + j) with (tl + j - 16 + 1 * 16) by lia.
    rewrite Z.mod_add, Z.mod_small by lia. lia.
Qed.

Section Ring.

Implicit Types (sa : sensor_array) (rf : register_file).

(** A push into a ring that is not full. *)
Lemma sensor_buffer_push_free sa rf v :
  (buffer_head sa + 1) mod SENSOR_BUFFER_SIZE <> buffer_tail sa ->
  sensor_buffer_push (sa, rf) v =
  (0, (set_buffer_head
         (set_buffer sa (<[Z.to_nat (buffer_head sa) := v]> (buffer sa)))
         ((buffer_head sa + 1) mod SENSOR_BUFFER_SIZE), rf)).
Proof.
  intros H. unfold sensor_buffer_push.
  rewrite (proj2 (Z.eqb_neq _ _)) by exact H. reflexivity.
Qed.

(** A push into a full ring. *)
Lemma sensor_buffer_push_full sa rf v :
  (buffer_head sa + 1) mod SENSOR_BUFFER_SIZE = buffer_tail sa ->
  sensor_buffer_push (sa, rf) v =
  (-2, (sa, reg_set_bits rf REG_SENSOR_STATUS SENSOR_STATUS_OVERFLOW)).
Proof.
  intros H. unfold sensor_buffer_push.
  rewrite (proj2 (Z.eqb_eq _ _)) by exact H. reflexivity.
Qed.

(** [length vs] pushes into a ring holding [k] elements succeed as long
    as the ring ends with at most 15 elements; the head advances by the
    number of pushes and the tail, the sensors and the registers stay. *)
Lemma sensor_buffer_push_all_free vs : forall sa rf k,
  0 <= buffer_tail sa < SENSOR_BUFFER_SIZE ->
  0 <= k ->
  buffer_head sa = (buffer_tail sa + k) mod SENSOR_BUFFER_SIZE ->
  k + Z.of_nat (length vs) < SENSOR_BUFFER_SIZE ->
  let '(rets, (sa', rf')) := sensor_buffer_push_all (sa, rf) vs in
  rets = replicate (length vs) 0 /\
  rf' = rf /\
  buffer_tail sa' = buffer_tail sa /\
  buffer_head sa' = (buffer_tail sa + k + Z.of_nat (length vs)) mod SENSOR_BUFFER_SIZE /\
  length (buffer sa') = length (buffer sa) /\
  sensors sa' = sensors sa /\
  continuous_mode sa' = continuous_mode sa.
Proof.
  unfold SENSOR_BUFFER_SIZE.
  induction vs as [| v vs IH]; intros sa rf k Ht Hk Hh Hlen.
  - simpl. rewrite Z.add_0_r. repeat split. exact Hh.
  - simpl length in *. rewrite Nat2Z.inj_succ in *.
    assert (Hnext : (buffer_head sa + 1) mod 16 = (buffer_tail sa + (k + 1)) mod 16).
    { rewrite Hh, Zplus_mod_idemp_l. f_equal. lia. }
    cbn [sensor_buffer_push_all].
    rewrite sensor_buffer_push_free.
    2:{ unfold SENSOR_BUFFER_SIZE. rewrite Hnext.
        apply ring_advance_not_tail; [exact Ht | lia]. }
    specialize (IH (set_buffer_head
                      (set_buffer sa (<[Z.to_nat (buffer_head sa) := v]> (buffer sa)))
                      ((buffer_head sa + 1) mod SENSOR_BUFFER_SIZE)) rf (k + 1)).
    simpl in IH. unfold SENSOR_BUFFER_SIZE in IH.
    specialize (IH Ht ltac:(lia) Hnext ltac:(lia)).
    destruct (sensor_buffer_push_all _ vs) as [rets [sa' rf']].
    destruct IH as (Hr & Hrf & Htl & Hhd & Hbl & Hss & Hcm).
    repeat split; try assumption.
    + rewrite Hr. reflexivity.
    + rewrite Hhd. f_equal. lia.
    + rewrite Hbl. apply length_insert.
Qed.

End Ring.

(** C7: on an empty ring (head equal to tail), 15 consecutive pushes return
    0; the 16th returns -2 (buffer full), sets the OVERFLOW bit of
    SENSOR_STATUS and leaves the sensor array, hence the ring contents, the
    head and the tail, unchanged. *)
Theorem sensor_buffer_sixteenth_push sa rf vs v :
  sa_sized sa -> rf_sized rf ->
  buffer_head sa = buffer_tail sa ->
  length vs = 15%nat ->
  let filled := snd (sensor_buffer_push_all (sa, rf) vs) in
  let last := sensor_buffer_push filled v in
  fst (sensor_buffer_push_all (sa, rf) vs) = replicate 15 0 /\
  fst last = -2 /\
  Z.testbit (reg_read (snd (snd last)) REG_SENSOR_STATUS) 1 = true /\
  Z.land (reg_read (snd (snd last)) REG_SENSOR_STATUS) SENSOR_STATUS_OVERFLOW <> 0 /\
  fst (snd last) = fst filled /\
  buffer (fst (snd last)) = buffer (fst filled) /\
  buffer_head (fst (snd last)) = buffer_head (fst filled) /\
  buffer_tail (fst (snd last)) = buffer_tail (fst filled).
Proof.
  intros (_ & _ & _ & Ht) Hs Hempty Hlen. 
  pose proof (sensor_buffer_push_all_free vs sa rf 0 Ht ltac:(lia)) as H.
  rewrite Hlen in H. 
  destruct (sensor_buffer_push_all (sa, rf) vs) as [rets [sa' rf']].
  destruct H as (Hr & -> & Htl & Hhd & _).
  { rewrite Z.add_0_r, Z.mod_small by exact Ht. exact Hempty. }
  { unfold SENSOR_BUFFER_SIZE. simpl. lia. }
  cbn [fst snd].
  assert (Hfull : (buffer_head sa' + 1) mod SENSOR_BUFFER_SIZE = buffer_tail sa').
  { rewrite Hhd, Htl. unfold SENSOR_BUFFER_SIZE in *. rewrite Zplus_mod_idemp_l.
    replace (buffer_tail sa + 0 + Z.of_nat 15 + 1) with (buffer_tail sa + 1 * 16) by lia.
    rewrite Z.mod_add by lia. apply Z.mod_small. exact Ht. }
  rewrite sensor_buffer_push_full by exact Hfull. cbn [fst snd].
  assert (Hbit : reg_read (reg_set_bits rf REG_SENSOR_STATUS SENSOR_STATUS_OVERFLOW)
                          REG_SENSOR_STATUS
                 = Z.lor (reg_read rf REG_SENSOR_STATUS) SENSOR_STATUS_OVERFLOW).
  { apply reg_read_set_bits_same; [exact Hs | split; [discriminate | reflexivity]]. }
  assert (Htest : Z.testbit (Z.lor (reg_read rf REG_SENSOR_STATUS) SENSOR_STATUS_OVERFLOW) 1
                  = true).
  { rewrite Z.lor_spec. apply orb_true_r. }
  repeat split; try reflexivity.
  - exact Hr.
  - rewrite Hbit. exact Htest.
  - rewrite Hbit. intros E.
    assert (Hb : Z.testbit (Z.land (Z.lor (reg_read rf REG_SENSOR_STATUS)
                                      SENSOR_STATUS_OVERFLOW) SENSOR_STATUS_OVERFLOW) 1
                 = true).
    { rewrite Z.land_spec, Htest. reflexivity. }
    rewrite E in Hb. discriminate Hb.
Qed.

Lemma sensors_initial_sized : sa_sized (fst sensors_initial) /\ rf_sized (snd sensors_initial).
Proof. repeat split; discriminate. Qed.

Lemma sensor_buffer_sixteenth_push_witness :
  fst (sensor_buffer_push
         (snd (sensor_buffer_push_all (fst sensors_initial, snd sensors_initial)
                 (map Z.of_nat (seq 0 15))))
         999) = -2.
Proof.
  destruct sensors_initial_sized as [Hsa Hrf].
  apply (sensor_buffer_sixteenth_push (fst sensors_initial) (snd sensors_initial)
           (map Z.of_nat (seq 0 15)) 999 Hsa Hrf eq_refl eq_refl).
Defined.

(** ** Sensor sampling and clamping *)

Section Channels.

Implicit Types (sa : sensor_array) (rf : register_file) (s : sensor_t) (i : nat).

Lemma sensor_at_put sa i s :
  (i < length (sensors sa))%nat -> sensor_at (put_sensor sa i s) i = s.
Proof.
  intros H. unfold sensor_at, put_sensor. simpl.
  rewrite list_lookup_insert_eq by exact H. reflexivity.
Qed.

Lemma put_sensor_twice sa i s s' :
  put_sensor (put_sensor sa i s) i s' = put_sensor sa i s'.
Proof. unfold put_sensor. simpl. rewrite list_insert_insert_eq. reflexivity. Qed.

Lemma put_sensor_same sa i :
  (i < length (sensors sa))%nat -> put_sensor sa i (sensor_at sa i) = sa.
Proof.
  intros H. destruct sa as [l b h t c]. unfold put_sensor, sensor_at. simpl in *.
  destruct (lookup_lt_is_Some_2 l i H) as [s E]. rewrite E. simpl.
  rewrite list_insert_id by exact E. reflexivity.
Qed.

Lemma put_sensor_length sa i s :
  length (sensors (put_sensor sa i s)) = length (sensors sa).
Proof. apply length_insert. Qed.

(** A loop whose body rewrites channel [i] with [f] maps [f] over the
    array. *)
Lemma for_each_sensor_map
      (body : sensor_array -> nat -> sensor_array) (f : sensor_t -> sensor_t) sa :
  length (sensors sa) = Z.to_nat SENSOR_COUNT ->
  (forall sa' i, length (sensors sa') = Z.to_nat SENSOR_COUNT ->
                 (i < Z.to_nat SENSOR_COUNT)%nat ->
                 body sa' i = put_sensor sa' i (f (sensor_at sa' i))) ->
  for_each_sensor body sa = set_sensors sa (map f (sensors sa)).
Proof.
  intros H Hbody. unfold for_each_sensor.
  change (seq 0 (Z.to_nat SENSOR_COUNT)) with [0; 1; 2; 3]%nat.
  change (Z.to_nat SENSOR_COUNT) with 4%nat in *.
  cbn [foldl].
  rewrite (Hbody sa 0%nat) by (exact H || lia).
  rewrite (Hbody (put_sensor _ 0 _) 1%nat)
    by (rewrite ?put_sensor_length; (exact H || lia)).
  rewrite (Hbody (put_sensor _ 1 _) 2%nat)
    by (rewrite ?put_sensor_length; (exact H || lia)).
  rewrite (Hbody (put_sensor _ 2 _) 3%nat)
    by (rewrite ?put_sensor_length; (exact H || lia)).
  destruct sa as [l b h t c]. simpl in H.
  destruct l as [| s0 [| s1 [| s2 [| s3 [| s4 l]]]]]; try discriminate H.
  reflexivity.
Qed.

(** The same for a loop that also carries the register file along. *)
Lemma for_each_sensor_map_regs
      (body : sensor_hw -> nat -> sensor_hw) (f : sensor_t -> sensor_t) sa rf :
  length (sensors sa) = Z.to_nat SENSOR_COUNT ->
  (forall sa' i, continuous_mode sa' = continuous_mode sa ->
                 length (sensors sa') = Z.to_nat SENSOR_COUNT ->
                 (i < Z.to_nat SENSOR_COUNT)%nat ->
                 body (sa', rf) i = (put_sensor sa' i (f (sensor_at sa' i)), rf)) ->
  for_each_sensor body (sa, rf) = (set_sensors sa (map f (sensors sa)), rf).
Proof.
  intros H Hbody. unfold for_each_sensor.
  change (seq 0 (Z.to_nat SENSOR_COUNT)) with [0; 1; 2; 3]%nat.
  change (Z.to_nat SENSOR_COUNT) with 4%nat in *.
  cbn [foldl].
  rewrite !Hbody by (rewrite ?put_sensor_length; simpl; (reflexivity || lia || exact H)).
  f_equal.
  destruct sa as [l b h t c]. simpl in H.
  destruct l as [| s0 [| s1 [| s2 [| s3 [| s4 l]]]]]; try discriminate H.
  reflexivity.
Qed.

Lemma trigger_body_channel sa i :
  (i < length (sensors sa))%nat ->
  (if sensor_state_eqb (sstate (sensor_at sa i)) SENSOR_STATE_IDLE then
     let sa' := put_sensor sa i (set_sstate (sensor_at sa i) SENSOR_STATE_SAMPLING) in
     put_sensor sa' i
       (set_sample_count (sensor_at sa' i) (add32 (sample_count (sensor_at sa' i)) 1))
   else sa)
  = put_sensor sa i (trigger_channel (sensor_at sa i)).
Proof.
  intros H. unfold trigger_channel.
  destruct (sensor_state_eqb (sstate (sensor_at sa i)) SENSOR_STATE_IDLE).
  - cbv zeta. rewrite sensor_at_put by exact H. apply put_sensor_twice.
  - symmetry. apply put_sensor_same, H.
Qed.

(** A successful trigger: the enable bit is set. *)
Lemma sensor_array_trigger_enabled sa rf :
  length (sensors sa) = Z.to_nat SENSOR_COUNT ->
  Z.land (reg_read rf REG_SENSOR_CTRL) SENSOR_CTRL_ENABLE <> 0 ->
  sensor_array_trigger (sa, rf) =
  (0, (set_sensors sa (map trigger_channel (sensors sa)),
       reg_set_bits rf REG_SENSOR_CTRL SENSOR_CTRL_TRIGGER)).
Proof.
  intros Hlen Hen. unfold sensor_array_trigger.
  rewrite (proj2 (Z.eqb_neq _ _)) by exact Hen.
  f_equal. f_equal.
  apply for_each_sensor_map; [exact Hlen |].
  intros sa' i Hlen' Hi. apply trigger_body_channel. lia.
Qed.

Lemma update_channel_sample sa rf i :
  continuous_mode sa = false ->
  (i < length (sensors sa))%nat ->
  update_channel (sa, rf) i = (put_sensor sa i (sample_channel (sensor_at sa i)), rf).
Proof.
  intros Hc Hi. unfold update_channel, sample_channel.
  destruct (sensor_state_eqb (sstate (sensor_at sa i)) SENSOR_STATE_SAMPLING).
  - rewrite sensor_at_put by exact Hi. cbn [value min_value max_value set_sstate].
    unfold clamp.
    destruct (value (sensor_at sa i) <? min_value (sensor_at sa i)).
    + rewrite sensor_at_put by (rewrite put_sensor_length; exact Hi).
      cbn [value min_value max_value set_value set_sstate].
      destruct (min_value (sensor_at sa i) >? max_value (sensor_at sa i)).
      * rewrite !put_sensor_twice. cbn [continuous_mode put_sensor]. rewrite Hc.
        reflexivity.
      * rewrite !put_sensor_twice. cbn [continuous_mode put_sensor]. rewrite Hc.
        reflexivity.
    + rewrite sensor_at_put by exact Hi.
      cbn [value min_value max_value set_value set_sstate].
      destruct (value (sensor_at sa i) >? max_value (sensor_at sa i)).
      * rewrite !put_sensor_twice. cbn [continuous_mode put_sensor]. rewrite Hc.
        reflexivity.
      * cbn [continuous_mode put_sensor]. rewrite Hc.
        destruct (sensor_at sa i); reflexivity.
  - rewrite put_sensor_same by exact Hi. reflexivity.
Qed.

(** An update outside continuous mode samples every channel, clears the
    trigger bit and leaves the ring alone. *)
Lemma sensor_array_update_single_shot sa rf :
  length (sensors sa) = Z.to_nat SENSOR_COUNT ->
  continuous_mode sa = false ->
  sensor_array_update (sa, rf) =
  (0, (set_sensors sa (map sample_channel (sensors sa)),
       reg_clear_bits rf REG_SENSOR_CTRL SENSOR_CTRL_TRIGGER)).
Proof.
  intros Hlen Hc. unfold sensor_array_update.
  rewrite (for_each_sensor_map_regs update_channel sample_channel sa rf Hlen).
  - cbn [fst snd set_sensors continuous_mode]. rewrite Hc. reflexivity.
  - intros sa' i Hc' Hlen' Hi. apply update_channel_sample; [congruence | lia].
Qed.

End Channels.

Section Clamping.

Variable rf : register_file.
Hypothesis sized : rf_sized rf.

(** The array after [sensor_array_init] and [sensor_array_enable]. *)
Local Abbreviation enabled := (snd (sensor_array_enable (snd (sensor_array_init rf)))).




End Clamping.



(** ** Interrupt controller *)

Lemma irq_bit_pow2 s : irq_bit s = 2 ^ s.
Proof. apply Z.shiftl_1_l. Qed.

(** The test [mask & (1 << source)] reads bit [source] of the mask. *)
Lemma irq_bit_set_testbit mask s :
  0 <= s -> irq_bit_set mask s = Z.testbit mask s.
Proof.
  intros Hs. unfold irq_bit_set. rewrite irq_bit_pow2.
  destruct (Z.testbit mask s) eqn:E.
  - apply negb_true_iff, Z.eqb_neq. intros H0.
    assert (Hb : Z.testbit (Z.land mask (2 ^ s)) s = true).
    { rewrite Z.land_spec, E, Z.pow2_bits_true by exact Hs. reflexivity. }
    rewrite H0, Z.bits_0 in Hb. discriminate Hb.
  - apply negb_false_iff, Z.eqb_eq. apply Z.bits_inj'. intros j Hj.
    rewrite Z.land_spec, Z.bits_0, Z.pow2_bits_eqb by exact Hs.
    destruct (Z.eqb_spec s j) as [<- | _].
    + rewrite E. reflexivity.
    + apply andb_false_r.
Qed.

Lemma irq_bit_set_negative mask s : s < 0 -> irq_bit_set mask s = false.
Proof.
  intros Hs. unfold irq_bit_set. rewrite irq_bit_pow2, Z.pow_neg_r by exact Hs.
  rewrite Z.land_0_r. reflexivity.
Qed.

(** [irq_trigger] on a source that is not enabled changes nothing. *)
Lemma irq_trigger_disabled m s :
  irq_bit_set (enabled_irqs (ic m)) s = false -> irq_trigger m s = m.
Proof.
  intros H. unfold irq_trigger. rewrite H.
  destruct (INT_COUNT <=? s); reflexivity.
Qed.

(** A bit that [irq_trigger] makes pending is the bit of its source, and
    that source is enabled. *)
Lemma irq_trigger_gated m s i :
  0 <= i ->
  Z.testbit (pending_irqs (ic (irq_trigger m s))) i = true ->
  Z.testbit (pending_irqs (ic m)) i = true \/
  (i = s /\ Z.testbit (enabled_irqs (ic m)) i = true).
Proof.
  intros Hi. unfold irq_trigger.
  destruct (INT_COUNT <=? s); [auto |].
  destruct (irq_bit_set (enabled_irqs (ic m)) s) eqn:Hen; [| auto].
  destruct (Z.lt_ge_cases s 0) as [Hneg | Hpos].
  { rewrite irq_bit_set_negative in Hen by exact Hneg. discriminate Hen. }
  rewrite irq_bit_set_testbit in Hen by exact Hpos.
  simpl. rewrite Z.lor_spec, irq_bit_pow2, Z.pow2_bits_eqb by exact Hpos.
  intros H. apply orb_true_iff in H. destruct H as [H | H]; [auto |].
  apply Z.eqb_eq in H. subst i. auto.
Qed.

Section DispatchLoop.

Context {W : Type}.
Variable call : Z -> Z -> Z -> irq_machine * W -> irq_machine * W.
Hypothesis well_behaved : handlers_keep_controller call.

(** One iteration of the loop makes the call due for its source, if
    any. *)
Lemma dispatch_one_due processed made mw i :
  dispatch_one call (processed, made, mw) i =
  match pending_handler (ic (fst mw)) i with
  | Some inv =>
      (processed + 1, made ++ [inv],
       call (inv_handler inv) (inv_source inv) (inv_context inv) mw)
  | None => (processed, made, mw)
  end.
Proof.
  unfold dispatch_one, pending_handler.
  destruct (irq_bit_set (pending_irqs (ic (fst mw))) (Z.of_nat i)
            && negb (default 0 (handlers (ic (fst mw)) !! i) =? 0)); reflexivity.
Qed.

(** The loop of [irq_process_pending] over the sources [l]: it makes the
    calls due for these sources, in order, and counts them. *)
Lemma dispatch_loop l : forall processed made m w,
  let out := foldl (dispatch_one call) (processed, made, (m, w)) l in
  let due := omap (pending_handler (ic m)) l in
  ic (fst (snd out)) = ic m /\
  (rf_sized (ic_regs m) -> rf_sized (ic_regs (fst (snd out)))) /\
  snd (fst out) = made ++ due /\
  fst (fst out) = processed + Z.of_nat (length due) /\
  snd out = run_invocations call due (m, w).
Proof.
  induction l as [| i l IH]; intros processed made m w out due.
  - subst out due. simpl. rewrite app_nil_r, Z.add_0_r. auto.
  - assert (Eout : out = foldl (dispatch_one call)
                           (dispatch_one call (processed, made, (m, w)) i) l)
      by reflexivity.
    assert (Edue : due = match pending_handler (ic m) i with
                         | Some inv => inv :: omap (pending_handler (ic m)) l
                         | None => omap (pending_handler (ic m)) l
                         end) by reflexivity.
    rewrite dispatch_one_due in Eout. cbn [fst] in Eout.
    clearbody out due. subst out due.
    destruct (pending_handler (ic m) i) as [inv |].
    + destruct (well_behaved (inv_handler inv) (inv_source inv) (inv_context inv) (m, w))
        as [Hic Hsz].
      destruct (call (inv_handler inv) (inv_source inv) (inv_context inv) (m, w))
        as [m1 w1] eqn:Ecall.
      cbn [fst snd] in Hic, Hsz.
      specialize (IH (processed + 1) (made ++ [inv]) m1 w1).
      cbv zeta in IH. rewrite Hic in IH.
      destruct IH as (H1 & H2 & H3 & H4 & H5).
      repeat split.
      * exact H1.
      * intros Hs. apply H2, Hsz, Hs.
      * rewrite H3, <- app_assoc. reflexivity.
      * rewrite H4. cbn [length]. lia.
      * rewrite H5. unfold run_invocations at 2. cbn [foldl].
        rewrite Ecall. reflexivity.
    + apply IH.
Qed.

End DispatchLoop.

(** A call due for source [i] has that source, the handler registered for
    it, which is not [NULL], and the context recorded for it, and the
    pending bit of [i] is set. *)
Lemma pending_handler_some c i inv :
  pending_handler c i = Some inv ->
  inv_source inv = Z.of_nat i /\
  inv_handler inv = default 0 (handlers c !! i) /\
  inv_handler inv <> 0 /\
  inv_context inv = default 0 (handler_contexts c !! i) /\
  Z.testbit (pending_irqs c) (Z.of_nat i) = true.
Proof.
  unfold pending_handler.
  destruct (irq_bit_set (pending_irqs c) (Z.of_nat i)) eqn:Hbit; [| discriminate].
  destruct (default 0 (handlers c !! i) =? 0) eqn:Hh; [discriminate |].
  simpl. intros [= <-]. simpl.
  rewrite irq_bit_set_testbit in Hbit by lia.
  apply Z.eqb_neq in Hh. auto.
Qed.

(** No call is due for a source without a pending bit or without a
    handler. *)
Lemma pending_handler_none c i :
  pending_handler c i = None ->
  Z.testbit (pending_irqs c) (Z.of_nat i) = false \/ default 0 (handlers c !! i) = 0.
Proof.
  unfold pending_handler. rewrite irq_bit_set_testbit by lia.
  destruct (Z.testbit (pending_irqs c) (Z.of_nat i)); [| auto].
  destruct (Z.eqb_spec (default 0 (handlers c !! i)) 0); [auto | discriminate].
Qed.

(** The calls due over an ascending list of sources have ascending
    sources. *)
Lemma due_sources_ascending c l :
  StronglySorted lt l ->
  StronglySorted Z.lt (inv_source <$> omap (pending_handler c) l).
Proof.
  induction 1 as [| i l Hsorted IH Hall]; [constructor |].
  change (omap (pending_handler c) (i :: l))
    with (match pending_handler c i with
          | Some inv => inv :: omap (pending_handler c) l
          | None => omap (pending_handler c) l
          end).
  destruct (pending_handler c i) as [inv |] eqn:E; [| exact IH].
  rewrite fmap_cons. constructor; [exact IH |].
  apply Forall_forall. intros s Hs.
  apply list_elem_of_fmap in Hs as (inv' & -> & Hin).
  apply list_elem_of_omap in Hin as (j & Hj & Ej).
  apply pending_handler_some in E as (-> & _).
  apply pending_handler_some in Ej as (-> & _).
  rewrite Forall_forall in Hall. specialize (Hall j Hj). lia.
Qed.

(** With handlers that leave the interrupt controller alone,
    [irq_process_pending] calls, by ascending source index, the handler
    registered for each source pending after the latch step, with the
    context recorded for it, and only these. *)
Lemma irq_process_pending_undisturbed {W : Type}
    (call : Z -> Z -> Z -> irq_machine * W -> irq_machine * W)
    (m : irq_machine) (w : W) :
  handlers_keep_controller call ->
  rf_sized (ic_regs m) ->
  let latched := irq_consume_latch m in
  let due := spec_pending_handlers (ic latched) in
  let out := irq_process_pending call (m, w) in
  latched = (if negb (signal_received (ic m) =? 0)
             then irq_trigger (with_ic m (set_signal_received (ic m) 0)) INT_TIMER
             else m) /\
  snd (fst out) = due /\
  StronglySorted Z.lt (inv_source <$> due) /\
  (forall i, (i < Z.to_nat INT_COUNT)%nat ->
     match pending_handler (ic latched) i with
     | Some inv =>
         inv ∈ due /\ inv_source inv = Z.of_nat i /\
         inv_handler inv = default 0 (handlers (ic latched) !! i) /\
         inv_handler inv <> 0 /\
         inv_context inv = default 0 (handler_contexts (ic latched) !! i) /\
         Z.testbit (pending_irqs (ic latched)) (Z.of_nat i) = true
     | None =>
         (Z.testbit (pending_irqs (ic latched)) (Z.of_nat i) = false \/
          default 0 (handlers (ic latched) !! i) = 0) /\
         forall inv, inv ∈ due -> inv_source inv <> Z.of_nat i
     end) /\
  fst (fst out) = Z.of_nat (length due) /\
  snd (snd out) = snd (run_invocations call due (latched, w)) /\
  pending_irqs (ic (fst (snd out))) = 0 /\
  reg_read (ic_regs (fst (snd out))) REG_IRQ_STATUS = 0 /\
  signal_received (ic (fst (snd out))) = 0.
Proof.
  intros Hwb Hs latched due out.
  assert (Hls : rf_sized (ic_regs latched)).
  { unfold latched, irq_consume_latch.
    destruct (negb (signal_received (ic m) =? 0)); [| exact Hs].
    unfold irq_trigger. destruct (INT_COUNT <=? INT_TIMER); [exact Hs |].
    destruct (irq_bit_set _ INT_TIMER); [| exact Hs].
    apply reg_set_bits_sized, Hs. }
  assert (Hlatch : signal_received (ic latched) = 0).
  { unfold latched, irq_consume_latch.
    destruct (Z.eqb_spec (signal_received (ic m)) 0) as [E | _]; [exact E |].
    simpl. unfold irq_trigger. destruct (INT_COUNT <=? INT_TIMER); [reflexivity |].
    destruct (irq_bit_set _ INT_TIMER); reflexivity. }
  pose proof (dispatch_loop call Hwb (seq 0 (Z.to_nat INT_COUNT)) 0 [] latched w) as Hloop.
  cbv zeta in Hloop. fold (spec_pending_handlers (ic latched)) in Hloop. fold due in Hloop.
  assert (Eout : out =
            let st := foldl (dispatch_one call) (0, [], (latched, w))
                            (seq 0 (Z.to_nat INT_COUNT)) in
            (fst (fst st), snd (fst st),
             (with_regs (with_ic (fst (snd st)) (set_pending_irqs (ic (fst (snd st))) 0))
                        (reg_write (ic_regs (fst (snd st))) REG_IRQ_STATUS 0),
              snd (snd st)))).
  { unfold out, irq_process_pending. fold latched.
    destruct (foldl (dispatch_one call) (0, [], (latched, w)) (seq 0 (Z.to_nat INT_COUNT)))
      as [[p mk] [m' w']]. reflexivity. }
  clearbody out. subst out. cbv zeta.
  destruct (foldl (dispatch_one call) (0, [], (latched, w)) (seq 0 (Z.to_nat INT_COUNT)))
    as [[p mk] [m' w']].
  cbn [fst snd] in Hloop |- *.
  destruct Hloop as (Hic & Hsz & Hmk & Hp & Hrun).
  split; [reflexivity |].
  split; [exact Hmk |].
  split.
  { apply due_sources_ascending.
    change (seq 0 (Z.to_nat INT_COUNT)) with [0; 1; 2; 3; 4]%nat.
    repeat (constructor; [| repeat constructor; lia]). constructor. }
  split.
  { intros i Hi. destruct (pending_handler (ic latched) i) as [inv |] eqn:E.
    - split; [| apply pending_handler_some, E].
      apply list_elem_of_omap. exists i. split; [| exact E].
      apply elem_of_seq. lia.
    - split; [apply pending_handler_none, E |].
      intros inv Hin Hsrc.
      apply list_elem_of_omap in Hin as (j & _ & Ej).
      pose proof (pending_handler_some _ _ _ Ej) as (Hj & _).
      assert (j = i) by lia. subst j. congruence. }
  split; [rewrite Hp; reflexivity |].
  split; [rewrite <- Hrun; reflexivity |].
  split; [reflexivity |].
  split.
  - apply reg_read_write_same; [apply Hsz, Hls | split; [discriminate | reflexivity]].
  - simpl. rewrite Hic. exact Hlatch.
Qed.

Section DispatchAsReached.

Context {W : Type}.
Variable call : Z -> Z -> Z -> irq_machine * W -> irq_machine * W.

Lemma calls_below_none i calls :
  Forall (fun inv => Z.of_nat i <= inv_source inv) calls -> calls_below i calls = [].
Proof.
  induction 1 as [| inv calls Hinv _ IH]; [reflexivity |].
  unfold calls_below in *. cbn [List.filter].
  rewrite (proj2 (Z.ltb_ge _ _)) by exact Hinv. exact IH.
Qed.

Lemma calls_below_cons i inv calls :
  inv_source inv < Z.of_nat i ->
  calls_below i (inv :: calls) = inv :: calls_below i calls.
Proof.
  intros H. unfold calls_below. cbn [List.filter].
  rewrite (proj2 (Z.ltb_lt _ _)) by exact H. reflexivity.
Qed.

Lemma run_invocations_cons inv calls (mw : irq_machine * W) :
  run_invocations call (inv :: calls) mw
  = run_invocations call calls
      (call (inv_handler inv) (inv_source inv) (inv_context inv) mw).
Proof. reflexivity. Qed.

(** The loop of [irq_process_pending] over an ascending list of sources,
    for any handlers: the call for a source is made exactly when it is due
    in the controller as the calls for the sources before it have left
    it. *)
Lemma dispatch_loop_reached l :
  StronglySorted lt l ->
  forall processed made mw,
    let out := foldl (dispatch_one call) (processed, made, mw) l in
    exists extra,
      snd (fst out) = made ++ extra /\
      fst (fst out) = processed + Z.of_nat (length extra) /\
      snd out = run_invocations call extra mw /\
      Forall (fun inv => exists i, i ∈ l /\ inv_source inv = Z.of_nat i) extra /\
      StronglySorted Z.lt (inv_source <$> extra) /\
      forall i, i ∈ l ->
        match pending_handler
                (ic (fst (run_invocations call (calls_below i extra) mw))) i with
        | Some inv => inv ∈ extra
        | None => forall inv, inv ∈ extra -> inv_source inv <> Z.of_nat i
        end.
Proof.
  induction 1 as [| j l Hsorted IH Hall]; intros processed made mw out.
  - exists []. subst out. cbn [foldl fst snd length].
    rewrite app_nil_r, Z.add_0_r.
    split; [reflexivity |]. split; [reflexivity |]. split; [reflexivity |].
    split; [constructor |]. split; [constructor |].
    intros i Hi. inversion Hi.
  - assert (Eout : out = foldl (dispatch_one call)
                           (dispatch_one call (processed, made, mw) j) l)
      by reflexivity.
    rewrite dispatch_one_due in Eout. clearbody out. subst out.
    rewrite Forall_forall in Hall.
    assert (Habove : forall extra,
              Forall (fun inv => exists i, i ∈ l /\ inv_source inv = Z.of_nat i) extra ->
              Forall (fun inv => Z.of_nat j < inv_source inv) extra).
    { intros extra Hex. eapply Forall_impl; [exact Hex |].
      intros inv (i & Hi & ->). specialize (Hall i Hi). lia. }
    destruct (pending_handler (ic (fst mw)) j) as [inv |] eqn:E.
    + destruct (IH (processed + 1) (made ++ [inv])
                   (call (inv_handler inv) (inv_source inv) (inv_context inv) mw))
        as (extra & H1 & H2 & H3 & H4 & H5 & H6).
      exists (inv :: extra).
      pose proof (pending_handler_some _ _ _ E) as (Hsrc & _).
      pose proof (Habove extra H4) as Hab.
      split; [rewrite H1, <- app_assoc; reflexivity |].
      split; [rewrite H2; cbn [length]; lia |].
      split; [rewrite H3; reflexivity |].
      split.
      { constructor.
        - exists j. split; [left | exact Hsrc].
        - eapply Forall_impl; [exact H4 |].
          intros inv' (i & Hi & Hs). exists i. split; [right; exact Hi | exact Hs]. }
      split.
      { rewrite fmap_cons. constructor; [exact H5 |].
        apply Forall_forall. intros s Hs.
        apply list_elem_of_fmap in Hs as (inv' & -> & Hin).
        rewrite Forall_forall in Hab. specialize (Hab inv' Hin). lia. }
      intros i Hi. apply elem_of_cons in Hi as [-> | Hi].
      * rewrite calls_below_none.
        -- cbn [run_invocations foldl]. rewrite E. left.
        -- constructor; [lia |].
           eapply Forall_impl; [exact Hab |]. intros inv' Hlt. cbv beta in Hlt. lia.
      * specialize (Hall i Hi).
        rewrite calls_below_cons by lia. rewrite run_invocations_cons.
        specialize (H6 i Hi).
        destruct (pending_handler _ i) as [inv' |].
        -- right. exact H6.
        -- intros x Hx. apply elem_of_cons in Hx as [-> | Hx]; [lia | apply H6, Hx].
    + destruct (IH processed made mw) as (extra & H1 & H2 & H3 & H4 & H5 & H6).
      exists extra.
      pose proof (Habove extra H4) as Hab.
      split; [exact H1 |]. split; [exact H2 |]. split; [exact H3 |].
      split.
      { eapply Forall_impl; [exact H4 |].
        intros inv' (i & Hi & Hs). exists i. split; [right; exact Hi | exact Hs]. }
      split; [exact H5 |].
      intros i Hi. apply elem_of_cons in Hi as [-> | Hi]; [| apply H6, Hi].
      rewrite calls_below_none.
      * cbn [run_invocations foldl]. rewrite E.
        intros x Hx. rewrite Forall_forall in Hab. specialize (Hab x Hx). lia.
      * eapply Forall_impl; [exact Hab |]. intros inv' Hlt. cbv beta in Hlt. lia.
Qed.

(** Handlers that keep the register array at its size keep it so through
    the loop. *)
Lemma dispatch_loop_sized l :
  handlers_keep_size call ->
  forall st, rf_sized (ic_regs (fst (snd st))) ->
             rf_sized (ic_regs (fst (snd (foldl (dispatch_one call) st l)))).
Proof.
  intros Hk. induction l as [| i l IH]; intros st Hst; [exact Hst |].
  cbn [foldl]. apply IH.
  destruct st as [[processed made] mw]. rewrite dispatch_one_due.
  destruct (pending_handler (ic (fst mw)) i); cbn [snd] in *; [apply Hk |]; exact Hst.
Qed.

End DispatchAsReached.

Lemma irq_consume_latch_sized m :
  rf_sized (ic_regs m) -> rf_sized (ic_regs (irq_consume_latch m)).
Proof.
  intros Hs. unfold irq_consume_latch.
  destruct (negb (signal_received (ic m) =? 0)); [| exact Hs].
  unfold irq_trigger. destruct (INT_COUNT <=? INT_TIMER); [exact Hs |].
  destruct (irq_bit_set _ INT_TIMER); [| exact Hs].
  apply reg_set_bits_sized, Hs.
Qed.

(** C6, as stated, fails for handlers that act on the controller.  With
    the motor fault and timer sources both pending and both with a
    registered handler, and no signal latched, a motor fault handler that
    calls [irq_clear(ic, INT_TIMER)] makes [irq_process_pending] skip the
    timer: one call is made and 1 is returned, although two sources were
    pending.  With the motor fault source alone pending, a handler that
    calls [irq_trigger(ic, INT_TIMER)] makes it call the timer handler as
    well: two calls are made, although one source was pending. *)
Lemma handlers_change_what_is_dispatched :
  (signal_received (ic irq_fault_and_timer_raised) = 0 /\
   spec_pending_handlers (ic irq_fault_and_timer_raised)
   = [ {| inv_handler := 0x1000; inv_source := INT_MOTOR_FAULT; inv_context := 0x10 |};
       {| inv_handler := 0x2000; inv_source := INT_TIMER; inv_context := 0x20 |} ] /\
   fst (irq_process_pending clearing_call (irq_fault_and_timer_raised, 0))
   = (1, [ {| inv_handler := 0x1000; inv_source := INT_MOTOR_FAULT;
              inv_context := 0x10 |} ])) /\
  (signal_received (ic irq_fault_raised_timer_enabled) = 0 /\
   spec_pending_handlers (ic irq_fault_raised_timer_enabled)
   = [ {| inv_handler := 0x1000; inv_source := INT_MOTOR_FAULT; inv_context := 0x10 |} ] /\
   fst (irq_process_pending triggering_call (irq_fault_raised_timer_enabled, 0))
   = (2, [ {| inv_handler := 0x1000; inv_source := INT_MOTOR_FAULT;
              inv_context := 0x10 |};
           {| inv_handler := 0x2000; inv_source := INT_TIMER;
              inv_context := 0x20 |} ])).
Proof. repeat split; vm_compute; reflexivity. Qed.

(** C6, amended: [irq_process_pending] first turns a set signal latch into
    a trigger of the timer source and clears the latch.  It then goes
    through the sources by ascending index and, for any handlers, calls
    the handler of a source exactly when, as the loop reaches that source
    (after the calls for the sources below it), its pending bit is set and a
    handler is registered for it; the call passes the handler and the
    context registered at that moment.  It makes no other call, returns the
    number of calls made and leaves the pending mask and the register
    IRQ_STATUS at zero.  With handlers that leave the interrupt controller
    alone the calls are those due for the sources pending after the latch
    step, and the latch ends clear. *)
Theorem irq_process_pending_dispatch {W : Type}
    (call : Z -> Z -> Z -> irq_machine * W -> irq_machine * W)
    (m : irq_machine) (w : W) :
  handlers_keep_size call ->
  rf_sized (ic_regs m) ->
  let latched := irq_consume_latch m in
  let out := irq_process_pending call (m, w) in
  let calls := snd (fst out) in
  let reached i := ic (fst (run_invocations call (calls_below i calls) (latched, w))) in
  latched = (if negb (signal_received (ic m) =? 0)
             then irq_trigger (with_ic m (set_signal_received (ic m) 0)) INT_TIMER
             else m) /\
  StronglySorted Z.lt (inv_source <$> calls) /\
  Forall (fun inv => 0 <= inv_source inv < INT_COUNT) calls /\
  (forall i, (i < Z.to_nat INT_COUNT)%nat ->
     match pending_handler (reached i) i with
     | Some inv =>
         inv ∈ calls /\ inv_source inv = Z.of_nat i /\
         inv_handler inv = default 0 (handlers (reached i) !! i) /\
         inv_handler inv <> 0 /\
         inv_context inv = default 0 (handler_contexts (reached i) !! i) /\
         Z.testbit (pending_irqs (reached i)) (Z.of_nat i) = true
     | None =>
         (Z.testbit (pending_irqs (reached i)) (Z.of_nat i) = false \/
          default 0 (handlers (reached i) !! i) = 0) /\
         forall inv, inv ∈ calls -> inv_source inv <> Z.of_nat i
     end) /\
  fst (fst out) = Z.of_nat (length calls) /\
  snd (snd out) = snd (run_invocations call calls (latched, w)) /\
  pending_irqs (ic (fst (snd out))) = 0 /\
  reg_read (ic_regs (fst (snd out))) REG_IRQ_STATUS = 0 /\
  (handlers_keep_controller call ->
   calls = spec_pending_handlers (ic latched) /\
   signal_received (ic (fst (snd out))) = 0).
Proof.
  intros Hk Hs latched out calls reached.
  assert (Hsorted : StronglySorted lt (seq 0 (Z.to_nat INT_COUNT))).
  { change (seq 0 (Z.to_nat INT_COUNT)) with [0; 1; 2; 3; 4]%nat.
    repeat (constructor; [| repeat constructor; lia]). constructor. }
  pose proof (dispatch_loop_reached call _ Hsorted 0 [] (latched, w)) as Hloop.
  pose proof (dispatch_loop_sized call (seq 0 (Z.to_nat INT_COUNT)) Hk
                (0, [], (latched, w)) (irq_consume_latch_sized m Hs)) as Hsz.
  cbv zeta in Hloop. destruct Hloop as (extra & H1 & H2 & H3 & H4 & H5 & H6).
  assert (Eout : out =
            let st := foldl (dispatch_one call) (0, [], (latched, w))
                            (seq 0 (Z.to_nat INT_COUNT)) in
            (fst (fst st), snd (fst st),
             (with_regs (with_ic (fst (snd st)) (set_pending_irqs (ic (fst (snd st))) 0))
                        (reg_write (ic_regs (fst (snd st))) REG_IRQ_STATUS 0),
              snd (snd st)))).
  { unfold out, irq_process_pending. fold latched.
    destruct (foldl (dispatch_one call) (0, [], (latched, w)) (seq 0 (Z.to_nat INT_COUNT)))
      as [[p mk] [m' w']]. reflexivity. }
  assert (Ecalls : calls = extra).
  { unfold calls. rewrite Eout. cbv zeta. cbn [fst snd]. exact H1. }
  split; [reflexivity |].
  split; [rewrite Ecalls; exact H5 |].
  split.
  { rewrite Ecalls. eapply Forall_impl; [exact H4 |].
    intros inv (i & Hi & ->). apply elem_of_seq in Hi. unfold INT_COUNT in *. lia. }
  split.
  { intros i Hi. unfold reached. rewrite Ecalls.
    assert (Hin : i ∈ seq 0 (Z.to_nat INT_COUNT)) by (apply elem_of_seq; lia).
    specialize (H6 i Hin).
    destruct (pending_handler
                (ic (fst (run_invocations call (calls_below i extra) (latched, w)))) i)
      as [inv |] eqn:E.
    - split; [exact H6 | apply pending_handler_some, E].
    - split; [apply pending_handler_none, E | exact H6]. }
  split.
  { rewrite Ecalls, Eout. cbv zeta. cbn [fst snd]. rewrite H2. apply Z.add_0_l. }
  split.
  { rewrite Ecalls, Eout. cbv zeta. cbn [fst snd]. rewrite H3. reflexivity. }
  split; [rewrite Eout; reflexivity |].
  split.
  { rewrite Eout. cbv zeta. cbn [fst snd ic_regs with_regs].
    apply reg_read_write_same; [exact Hsz | split; [discriminate | reflexivity]]. }
  intros Hwb.
  destruct (irq_process_pending_undisturbed call m w Hwb Hs)
    as (_ & Hdue & _ & _ & _ & _ & _ & _ & Hlatch).
  split; [exact Hdue | exact Hlatch].
Qed.

Lemma counting_call_keeps_controller : handlers_keep_controller counting_call.
Proof. intros h source context mw. split; [reflexivity | auto]. Qed.

Lemma triggering_call_keeps_size : handlers_keep_size triggering_call.
Proof.
  intros h source context mw Hs. unfold triggering_call, irq_trigger. cbn [fst].
  destruct (INT_COUNT <=? INT_TIMER); [exact Hs |].
  destruct (irq_bit_set _ INT_TIMER); [| exact Hs].
  apply reg_set_bits_sized, Hs.
Qed.

Lemma irq_process_pending_dispatch_witness :
  let out := irq_process_pending triggering_call (irq_fault_raised_timer_enabled, 0) in
  StronglySorted Z.lt (inv_source <$> snd (fst out)) /\
  fst (fst out) = Z.of_nat (length (snd (fst out))) /\
  fst (fst out) = 2 /\
  pending_irqs (ic (fst (snd out))) = 0 /\
  reg_read (ic_regs (fst (snd out))) REG_IRQ_STATUS = 0.
Proof.
  assert (Hs : rf_sized (ic_regs irq_fault_raised_timer_enabled)) by reflexivity.
  destruct (irq_process_pending_dispatch triggering_call irq_fault_raised_timer_enabled 0
              triggering_call_keeps_size Hs)
    as (_ & Hsorted & _ & _ & Hcount & _ & Hpending & Hstatus & _).
  intros out.
  split; [exact Hsorted |]. split; [exact Hcount |].
  split; [vm_compute; reflexivity |]. split; [exact Hpending | exact Hstatus].
Defined.

(** C5 at the failing input: right after [irq_init] no source is enabled
    and none is pending; [irq_trigger] of the motor fault source is dropped,
    but the delivery of SIGUSR1 to [irq_signal_handler] sets its pending
    bit.  The source is still disabled, and IRQ_STATUS does not show the
    bit. *)
Theorem signal_bridge_sets_disabled_source_pending :
  let m := irq_signal_handler irq_initial SIGUSR1 in
  g_irq_controller irq_initial = true /\
  enabled_irqs (ic irq_initial) = 0 /\
  pending_irqs (ic irq_initial) = 0 /\
  irq_trigger irq_initial INT_MOTOR_FAULT = irq_initial /\
  irq_is_pending m INT_MOTOR_FAULT = true /\
  Z.testbit (pending_irqs (ic m)) INT_MOTOR_FAULT = true /\
  Z.testbit (enabled_irqs (ic m)) INT_MOTOR_FAULT = false /\
  reg_read (ic_regs m) REG_IRQ_STATUS = 0.
Proof. vm_compute. repeat split; reflexivity. Qed.

(** The bit set by the bridge for a disabled source is dispatched: the next
    [irq_process_pending] calls the handler registered for the motor fault
    source although the source was never enabled. *)
Lemma signal_bridge_dispatches_disabled_source :
  let out := irq_process_pending counting_call (irq_signal_while_disabled, 0) in
  enabled_irqs (ic irq_signal_while_disabled) = 0 /\
  snd (fst out) = [ {| inv_handler := 0x1000; inv_source := INT_MOTOR_FAULT;
                       inv_context := 0 |} ] /\
  fst (fst out) = 1.
Proof. vm_compute. repeat split; reflexivity. Qed.

Section Gating.

Context {W : Type}.
Variable call : Z -> Z -> Z -> irq_machine * W -> irq_machine * W.

(** Whatever the handlers do, [irq_process_pending] ends with an empty
    pending mask. *)
Lemma irq_process_pending_clears_mask mw :
  pending_irqs (ic (fst (snd (irq_process_pending call mw)))) = 0.
Proof.
  destruct mw as [m w]. unfold irq_process_pending.
  destruct (foldl (dispatch_one call) (0, [], (irq_consume_latch m, w))
                  (seq 0 (Z.to_nat INT_COUNT))) as [[p mk] [m' w']].
  reflexivity.
Qed.

(** Every operation of the driver loop respects the gate of
    [irq_trigger]: a bit that is pending after the operation was pending
    before it or belongs to a source that was enabled before it.  Only
    the signal bridge is excluded. *)
Lemma irq_apply_gated op m w i :
  (forall signum, op <> IrqSignal signum) ->
  0 <= i ->
  Z.testbit (pending_irqs (ic (fst (irq_apply call op (m, w))))) i = true ->
  Z.testbit (pending_irqs (ic m)) i = true \/
  Z.testbit (enabled_irqs (ic m)) i = true.
Proof.
  intros Hop Hi. destruct op; cbn [irq_apply fst snd].
  - unfold irq_register_handler. destruct (INT_COUNT <=? source); auto.
  - unfold irq_unregister_handler. destruct (INT_COUNT <=? source); auto.
  - unfold irq_enable. destruct (INT_COUNT <=? source); auto.
  - unfold irq_disable. destruct (INT_COUNT <=? source); auto.
  - auto.
  - auto.
  - intros H. destruct (irq_trigger_gated m source i Hi H) as [Hp | [_ He]]; auto.
  - unfold irq_clear. destruct (INT_COUNT <=? source); [auto |].
    simpl. rewrite Z.land_spec. intros H. apply andb_true_iff in H. tauto.
  - rewrite irq_process_pending_clears_mask, Z.bits_0. discriminate.
  - auto.
  - exfalso. apply (Hop signum). reflexivity.
Qed.

End Gating.

Section AnyHandlers.

Context {W : Type}.
Variable call : Z -> Z -> Z -> irq_machine * W -> irq_machine * W.

(** Whatever the handlers do to the program state, the loop over an
    ascending list of sources counts the calls it makes and makes them
    by ascending source, each source being one of the list. *)
Lemma dispatch_loop_counts l :
  StronglySorted lt l ->
  forall processed made mw,
    let out := foldl (dispatch_one call) (processed, made, mw) l in
    exists extra,
      snd (fst out) = made ++ extra /\
      fst (fst out) = processed + Z.of_nat (length extra) /\
      StronglySorted Z.lt (inv_source <$> extra) /\
      Forall (fun inv => exists i, i ∈ l /\ inv_source inv = Z.of_nat i) extra.
Proof.
  induction 1 as [| i l Hsorted IH Hall]; intros processed made mw out.
  - exists []. subst out. simpl. rewrite app_nil_r, Z.add_0_r.
    repeat split; constructor.
  - assert (Eout : out = foldl (dispatch_one call)
                           (dispatch_one call (processed, made, mw) i) l)
      by reflexivity.
    rewrite dispatch_one_due in Eout. clearbody out. subst out.
    destruct (pending_handler (ic (fst mw)) i) as [inv |] eqn:E.
    + destruct (IH (processed + 1) (made ++ [inv])
                   (call (inv_handler inv) (inv_source inv) (inv_context inv) mw))
        as (extra & H1 & H2 & H3 & H4).
      exists (inv :: extra).
      apply pending_handler_some in E as (Hsrc & _).
      split; [rewrite H1, <- app_assoc; reflexivity |].
      split; [rewrite H2; cbn [length]; lia |].
      split.
      * rewrite fmap_cons. constructor; [exact H3 |].
        apply Forall_forall. intros s Hs.
        apply list_elem_of_fmap in Hs as (inv' & -> & Hin).
        rewrite Forall_forall in H4. destruct (H4 inv' Hin) as (j & Hj & ->).
        rewrite Forall_forall in Hall. specialize (Hall j Hj). lia.
      * constructor.
        -- exists i. split; [left | exact Hsrc].
        -- eapply Forall_impl; [exact H4 |].
           intros inv' (j & Hj & Hs). exists j. split; [right; exact Hj | exact Hs].
    + destruct (IH processed made mw) as (extra & H1 & H2 & H3 & H4).
      exists extra. repeat split; try assumption.
      eapply Forall_impl; [exact H4 |].
      intros inv' (j & Hj & Hs). exists j. split; [right; exact Hj | exact Hs].
Qed.

(** For arbitrary handlers [irq_process_pending] still returns the number
    of calls it made, makes them by ascending source and ends with an
    empty pending mask. *)
Lemma irq_process_pending_any_handlers mw :
  let out := irq_process_pending call mw in
  fst (fst out) = Z.of_nat (length (snd (fst out))) /\
  StronglySorted Z.lt (inv_source <$> snd (fst out)) /\
  pending_irqs (ic (fst (snd out))) = 0.
Proof.
  intros out. split; [| split]; [| | apply irq_process_pending_clears_mask].
  - subst out. destruct mw as [m w]. unfold irq_process_pending.
    destruct (dispatch_loop_counts (seq 0 (Z.to_nat INT_COUNT))) 
      with (processed := 0) (made := @nil invocation) (mw := (irq_consume_latch m, w))
      as (extra & H1 & H2 & _).
    { change (seq 0 (Z.to_nat INT_COUNT)) with [0; 1; 2; 3; 4]%nat.
      repeat (constructor; [| repeat constructor; lia]). constructor. }
    destruct (foldl (dispatch_one call) (0, [], (irq_consume_latch m, w))
                    (seq 0 (Z.to_nat INT_COUNT))) as [[p mk] [m' w']].
    cbn [fst snd] in *. subst. reflexivity.
  - subst out. destruct mw as [m w]. unfold irq_process_pending.
    destruct (dispatch_loop_counts (seq 0 (Z.to_nat INT_COUNT))) 
      with (processed := 0) (made := @nil invocation) (mw := (irq_consume_latch m, w))
      as (extra & H1 & _ & H3 & _).
    { change (seq 0 (Z.to_nat INT_COUNT)) with [0; 1; 2; 3; 4]%nat.
      repeat (constructor; [| repeat constructor; lia]). constructor. }
    destruct (foldl (dispatch_one call) (0, [], (irq_consume_latch m, w))
                    (seq 0 (Z.to_nat INT_COUNT))) as [[p mk] [m' w']].
    cbn [fst snd] in *. subst. exact H3.
Qed.

End AnyHandlers.

(** * Further properties of the code *)

(** ** Register file: initialisation, bits and frame *)

Lemma land_nonneg_l a b : 0 <= a -> 0 <= Z.land a b.
Proof. intros H. apply Z.land_nonneg. left. exact H. Qed.

(** A non-negative integer without bits from position 32 on is a
    [uint32_t]. *)
Lemma uint32_of_bits x :
  0 <= x -> (forall i, 32 <= i -> Z.testbit x i = false) -> is_uint32 x.
Proof.
  intros H0 Hbits. split; [exact H0 |].
  destruct (Z.eq_dec x 0) as [-> | Hne]; [reflexivity |].
  assert (Hpos : 0 < x) by lia.
  pose proof (Z.bit_log2 x Hpos) as Hlog.
  destruct (Z.lt_ge_cases (Z.log2 x) 32) as [Hlt | Hge].
  - apply Z.log2_lt_pow2; assumption.
  - rewrite Hbits in Hlog by exact Hge. discriminate Hlog.
Qed.

Lemma lor_uint32 a b : is_uint32 a -> is_uint32 b -> is_uint32 (Z.lor a b).
Proof.
  intros Ha Hb. apply uint32_of_bits.
  - apply Z.lor_nonneg. split; [apply Ha | apply Hb].
  - intros i Hi. rewrite Z.lor_spec, !uint32_testbit_high by assumption. reflexivity.
Qed.

Lemma land_uint32 a b : is_uint32 a -> is_uint32 (Z.land a b).
Proof.
  intros Ha. apply uint32_of_bits.
  - apply land_nonneg_l, Ha.
  - intros i Hi. rewrite Z.land_spec, (uint32_testbit_high a) by assumption. reflexivity.
Qed.

Lemma reg_write_words rf o v : rf_words rf -> is_uint32 v -> rf_words (reg_write rf o v).
Proof.
  unfold rf_words, reg_write. intros Hw Hv.
  destruct (REGISTER_FILE_SIZE <=? o); [exact Hw |]. simpl.
  apply Forall_insert; assumption.
Qed.

Lemma reg_read_words rf o : rf_words rf -> is_uint32 (reg_read rf o).
Proof.
  intros Hw. unfold reg_read.
  destruct (REGISTER_FILE_SIZE <=? o); [split; [discriminate | reflexivity] |].
  destruct (regs rf !! word_index o) as [w |] eqn:E; simpl.
  - eapply Forall_lookup_1; eassumption.
  - apply zero_uint32.
Qed.

Lemma reg_set_bits_words rf o m :
  rf_words rf -> is_uint32 m -> rf_words (reg_set_bits rf o m).
Proof.
  intros Hw Hm. destruct (Z.lt_ge_cases o REGISTER_FILE_SIZE) as [H | H].
  - rewrite reg_set_bits_as_write by exact H.
    apply reg_write_words; [exact Hw |]. apply lor_uint32; [| exact Hm].
    apply reg_read_words, Hw.
  - unfold reg_set_bits. rewrite out_of_range_test by exact H. exact Hw.
Qed.

Lemma reg_clear_bits_words rf o m : rf_words rf -> rf_words (reg_clear_bits rf o m).
Proof.
  intros Hw. destruct (Z.lt_ge_cases o REGISTER_FILE_SIZE) as [H | H].
  - rewrite reg_clear_bits_as_write by exact H.
    apply reg_write_words; [exact Hw |]. apply land_uint32, reg_read_words, Hw.
  - unfold reg_clear_bits. rewrite out_of_range_test by exact H. exact Hw.
Qed.

(** X1: [reg_init] keeps the size of the array and leaves every word at
    zero: each in-range offset, aligned or not, reads 0, and an
    out-of-range offset still reads 0xFFFFFFFF. *)
Theorem reg_init_reads_zero rf o :
  rf_sized rf ->
  rf_sized (reg_init rf) /\
  rf_words (reg_init rf) /\
  (0 <= o < 0x24 -> reg_read (reg_init rf) o = 0) /\
  (0x24 <= o -> reg_read (reg_init rf) o = 0xFFFFFFFF).
Proof.
  intros Hs.
  assert (Hs' : rf_sized (reg_init rf)).
  { unfold rf_sized, reg_init. simpl. rewrite length_replicate. exact Hs. }
  split; [exact Hs' |]. split; [| split].
  - unfold rf_words, reg_init. simpl. apply Forall_replicate, zero_uint32.
  - intros Ho. unfold reg_read. rewrite in_range_test by apply Ho.
    unfold reg_init. simpl. rewrite lookup_replicate_2; [reflexivity |].
    rewrite Hs. apply word_index_lt. exact Ho.
  - apply reg_read_out_of_range.
Qed.

Lemma reg_init_reads_zero_witness :
  reg_read (reg_init (reg_write rf_zero 0x08 0xDEADBEEF)) 0x0A = 0.
Proof.
  apply (reg_init_reads_zero (reg_write rf_zero 0x08 0xDEADBEEF) 0x0A).
  - apply reg_write_sized, rf_zero_sized.
  - split; [discriminate | reflexivity].
Defined.

(** X2: on a well-formed register file, [reg_set_bits] sets exactly the
    bits of the mask and [reg_clear_bits] clears exactly the bits of the
    mask in the word addressed; both, like [reg_write], leave every other
    word as it was. *)
Theorem reg_bit_operations rf o m :
  rf_sized rf -> rf_words rf -> 0 <= o < 0x24 ->
  (forall i, 0 <= i ->
     Z.testbit (reg_read (reg_set_bits rf o m) o) i
     = Z.testbit (reg_read rf o) i || Z.testbit m i) /\
  (forall i, 0 <= i ->
     Z.testbit (reg_read (reg_clear_bits rf o m) o) i
     = Z.testbit (reg_read rf o) i && negb (Z.testbit m i)) /\
  (forall o' v, 0 <= o' -> o' / 4 <> o / 4 ->
     reg_read (reg_set_bits rf o m) o' = reg_read rf o' /\
     reg_read (reg_clear_bits rf o m) o' = reg_read rf o' /\
     reg_read (reg_write rf o v) o' = reg_read rf o').
Proof.
  intros Hs Hw Ho. split; [| split].
  - intros i Hi. rewrite reg_read_set_bits_same by assumption. apply Z.lor_spec.
  - intros i Hi. rewrite reg_read_clear_bits_same by assumption.
    rewrite Z.land_spec, not32_spec by exact Hi.
    destruct (Z.ltb_spec i 32) as [_ | Hge]; [rewrite andb_true_r; reflexivity |].
    rewrite (uint32_testbit_high (reg_read rf o) i) by (try apply reg_read_words; assumption).
    reflexivity.
  - intros o' v Ho' Hne.
    assert (Hidx : word_index o <> word_index o').
    { unfold word_index. intros E. apply Hne. apply Z2Nat.inj in E.
      - symmetry. exact E.
      - apply Z.div_pos; lia.
      - apply Z.div_pos; lia. }
    split; [| split].
    + apply reg_read_set_bits_other, Hidx.
    + apply reg_read_clear_bits_other, Hidx.
    + apply reg_read_write_other, Hidx.
Qed.

Lemma reg_bit_operations_witness :
  Z.testbit (reg_read (reg_clear_bits (reg_write rf_zero 0x04 0x0F) 0x04 0x05) 0x04) 1
  = Z.testbit (reg_read (reg_write rf_zero 0x04 0x0F) 0x04) 1 && negb (Z.testbit 0x05 1).
Proof.
  apply (reg_bit_operations (reg_write rf_zero 0x04 0x0F) 0x04 0x05).
  - apply reg_write_sized, rf_zero_sized.
  - apply reg_write_words; [apply rf_zero_words | split; [discriminate | reflexivity]].
  - split; [discriminate | reflexivity].
  - discriminate.
Defined.

(** X3: the register operations keep a register file well formed: the
    array keeps its size and its words stay [uint32_t], for [reg_write] of
    a [uint32_t], [reg_set_bits] of a [uint32_t] mask and [reg_clear_bits]
    of any mask, at any offset. *)
Theorem reg_operations_keep_well_formed rf o x :
  rf_wf rf ->
  rf_wf (reg_clear_bits rf o x) /\
  (is_uint32 x -> rf_wf (reg_write rf o x) /\ rf_wf (reg_set_bits rf o x)).
Proof.
  intros [Hs Hw]. split.
  - split; [apply reg_clear_bits_sized, Hs | apply reg_clear_bits_words, Hw].
  - intros Hx. split; split.
    + apply reg_write_sized, Hs.
    + apply reg_write_words; assumption.
    + apply reg_set_bits_sized, Hs.
    + apply reg_set_bits_words; assumption.
Qed.

Lemma rf_zero_wf : rf_wf rf_zero.
Proof. split; [apply rf_zero_sized | apply rf_zero_words]. Qed.

Lemma reg_operations_keep_well_formed_witness :
  rf_wf (reg_clear_bits rf_zero 0x10 0xFF) /\ rf_wf (reg_set_bits rf_zero 0x10 0xFF).
Proof.
  destruct (reg_operations_keep_well_formed rf_zero 0x10 0xFF rf_zero_wf) as [Hc Hws].
  split; [exact Hc |]. apply Hws. split; [discriminate | reflexivity].
Defined.

(** ** Motor: stopping, braking, faults *)

(** Side conditions of the register lemmas on concrete offsets. *)
Ltac reg_range := split; [discriminate | reflexivity].

Ltac reg_sized :=
  repeat first [ apply reg_write_sized | apply reg_set_bits_sized
               | apply reg_clear_bits_sized ];
  assumption.

(** Reads a register through the writes made after it was last set. *)
Ltac reg_simpl :=
  repeat first
    [ rewrite reg_read_write_other by (vm_compute; discriminate)
    | rewrite reg_read_set_bits_other by (vm_compute; discriminate)
    | rewrite reg_read_clear_bits_other by (vm_compute; discriminate)
    | rewrite reg_read_write_same by (first [reg_sized | reg_range])
    | rewrite reg_read_set_bits_same by (first [reg_sized | reg_range])
    | rewrite reg_read_clear_bits_same by (first [reg_sized | reg_range]) ].

(** Projections of a motor context after field updates. *)
Ltac mc_simpl :=
  cbn [state fault_code target_speed current_speed position direction
       set_state set_fault_code set_target_speed set_current_speed
       set_position set_direction fst snd].

(** Clearing the running bit sets no fault bit. *)
Lemma clear_running_no_fault s :
  Z.land s MOTOR_STATUS_FAULT_BITS = 0 ->
  Z.land (Z.land s (not32 MOTOR_STATUS_RUNNING)) MOTOR_STATUS_FAULT_BITS = 0.
Proof.
  intros H. rewrite <- Z.land_assoc, (Z.land_comm (not32 _)), Z.land_assoc, H.
  apply Z.land_0_l.
Qed.

Lemma update_stopping_regs mc rf :
  rf_sized rf -> no_fault_bits rf ->
  rf_sized (snd (update_stopping mc rf)) /\ no_fault_bits (snd (update_stopping mc rf)).
Proof.
  intros Hs Hf. unfold update_stopping.
  destruct (current_speed mc >? SPEED_RAMP_RATE); cbn [fst snd].
  - split; [reg_sized |]. unfold no_fault_bits. reg_simpl. exact Hf.
  - split; [reg_sized |]. unfold no_fault_bits. reg_simpl.
    apply clear_running_no_fault, Hf.
Qed.

(** A tick in the stopping state. *)
Lemma update_stopping_tick mc rf :
  rf_sized rf -> is_uint32 (current_speed mc) ->
  let hw := update_stopping mc rf in
  target_speed (fst hw) = target_speed mc /\
  current_speed (fst hw) = Z.max (current_speed mc - SPEED_RAMP_RATE) 0 /\
  state (fst hw) = (if SPEED_RAMP_RATE <? current_speed mc
                    then state mc else MOTOR_STATE_IDLE) /\
  reg_read (snd hw) REG_MOTOR_SPEED = current_speed (fst hw) /\
  (current_speed mc <= SPEED_RAMP_RATE ->
   Z.testbit (reg_read (snd hw) REG_MOTOR_STATUS) 0 = false).
Proof.
  intros Hs [Hc0 Hc1]. unfold update_stopping. rewrite Z.gtb_ltb.
  unfold SPEED_RAMP_RATE, uint32_mod in *.
  destruct (Z.ltb_spec 500 (current_speed mc)) as [Hgt | Hle]; mc_simpl.
  - rewrite sub32_small by (unfold uint32_mod; lia).
    repeat split; try lia. reg_simpl. reflexivity.
  - repeat split; try lia.
    + reg_simpl. reflexivity.
    + intros _. reg_simpl. rewrite Z.land_spec, not32_spec by lia.
      apply andb_false_r.
Qed.

Section RampDown.

Variables (mc : motor_controller) (rf : register_file).
Hypothesis moving : state mc <> MOTOR_STATE_IDLE.
Hypothesis speed_word : is_uint32 (current_speed mc).
Hypothesis sized : rf_sized rf.
Hypothesis healthy : no_fault_bits rf.

Local Abbreviation stopping := (snd (motor_stop (mc, rf))).

Lemma motor_stop_from_moving :
  fst (motor_stop (mc, rf)) = 0 /\
  state (fst stopping) = MOTOR_STATE_STOPPING /\
  target_speed (fst stopping) = 0 /\
  current_speed (fst stopping) = current_speed mc /\
  Z.testbit (reg_read (snd stopping) REG_MOTOR_CTRL) 0 = false /\
  rf_sized (snd stopping) /\ no_fault_bits (snd stopping).
Proof.
  unfold motor_stop.
  destruct (state mc) eqn:E; try congruence; cbn [motor_state_eqb fst snd];
    (repeat split;
     [ reg_simpl; rewrite Z.land_spec, not32_spec by lia; apply andb_false_r
     | reg_sized
     | unfold no_fault_bits; reg_simpl; exact healthy ]).
Qed.

(** The state of the motor at every tick after [motor_stop]. *)
Lemma ramp_down_invariant (k : nat) :
  let hw := motor_ticks k stopping in
  rf_sized (snd hw) /\ no_fault_bits (snd hw) /\
  current_speed (fst hw) = Z.max (current_speed mc - 500 * Z.of_nat k) 0 /\
  state (fst hw) =
    (if (Z.of_nat k =? 0) || (500 * Z.of_nat k <? current_speed mc)
     then MOTOR_STATE_STOPPING else MOTOR_STATE_IDLE) /\
  ((0 < k)%nat -> reg_read (snd hw) REG_MOTOR_SPEED = current_speed (fst hw)) /\
  ((0 < k)%nat -> current_speed mc <= 500 * Z.of_nat k ->
   Z.testbit (reg_read (snd hw) REG_MOTOR_STATUS) 0 = false).
Proof.
  destruct speed_word as [Hc0 Hc1].
  induction k as [| k IH].
  - destruct motor_stop_from_moving as (_ & Hst & _ & Hc & _ & Hs & Hf).
    change (motor_ticks 0 stopping) with stopping. cbv zeta.
    rewrite Hc, Hst. simpl. repeat split; try assumption; lia.
  - cbv zeta in IH. destruct IH as (Hs & Hf & Hc & Hst & Hreg & Hbit).
    assert (E : motor_ticks (S k) stopping = snd (motor_update (motor_ticks k stopping)))
      by reflexivity.
    cbv zeta. rewrite E. destruct (motor_ticks k stopping) as [m r].
    cbn [fst snd] in Hs, Hf, Hc, Hst, Hreg, Hbit.
    rewrite motor_update_no_fault by exact Hf.
    rewrite Nat2Z.inj_succ.
    replace (Z.succ (Z.of_nat k) =? 0) with false by (symmetry; apply Z.eqb_neq; lia).
    rewrite orb_false_l. rewrite Hst.
    destruct ((Z.of_nat k =? 0) || (500 * Z.of_nat k <? current_speed mc)) eqn:Hphase.
    + assert (Hck : current_speed m = current_speed mc - 500 * Z.of_nat k).
      { rewrite Hc. apply orb_true_iff in Hphase. destruct Hphase as [H0 | Hlt].
        - apply Z.eqb_eq in H0. rewrite H0. lia.
        - apply Z.ltb_lt in Hlt. lia. }
      destruct (update_stopping_regs m r Hs Hf) as [Hs' Hf'].
      destruct (update_stopping_tick m r Hs) as (_ & Hc' & Hst' & Hreg' & Hbit').
      { unfold is_uint32. lia. }
      unfold SPEED_RAMP_RATE in *.
      split; [exact Hs' |]. split; [exact Hf' |].
      split; [rewrite Hc', Hck; lia |].
      split.
      { rewrite Hst', Hst, Hck.
        destruct (Z.ltb_spec 500 (current_speed mc - 500 * Z.of_nat k));
          destruct (Z.ltb_spec (500 * Z.succ (Z.of_nat k)) (current_speed mc));
          (reflexivity || lia). }
      split; [intros _; exact Hreg' |].
      intros _ Hle. apply Hbit'. lia.
    + apply orb_false_iff in Hphase. destruct Hphase as [Hk0 Hge].
      apply Z.eqb_neq in Hk0. apply Z.ltb_ge in Hge.
      cbn [fst snd].
      replace (500 * Z.succ (Z.of_nat k) <? current_speed mc) with false
        by (symmetry; apply Z.ltb_ge; lia).
      repeat split; try assumption.
      * rewrite Hc. lia.
      * intros _. apply Hreg. lia.
      * intros _ _. apply Hbit; lia.
Qed.

End RampDown.

(** X4: after [motor_stop] on a motor that is not idle, with no fault bit in
    MOTOR_STATUS, the enable bit of MOTOR_CTRL is clear and the target is 0;
    the speed after [k] calls of [motor_update] is [max (c - 500 * k) 0] for
    the speed [c] at the stop, so it never increases, and MOTOR_SPEED shows
    it.  The motor is stopping while [500 * k < c] and idle, with the
    running bit clear, from then on. *)
Theorem motor_ramp_down mc rf :
  state mc <> MOTOR_STATE_IDLE ->
  is_uint32 (current_speed mc) ->
  rf_sized rf ->
  no_fault_bits rf ->
  let c := current_speed mc in
  let stopping := snd (motor_stop (mc, rf)) in
  let speed k := current_speed (fst (motor_ticks k stopping)) in
  let phase k := state (fst (motor_ticks k stopping)) in
  fst (motor_stop (mc, rf)) = 0 /\
  target_speed (fst stopping) = 0 /\
  Z.testbit (reg_read (snd stopping) REG_MOTOR_CTRL) 0 = false /\
  (forall k, speed k = Z.max (c - 500 * Z.of_nat k) 0) /\
  (forall k, speed (S k) <= speed k) /\
  (forall k, (0 < k)%nat ->
     reg_read (snd (motor_ticks k stopping)) REG_MOTOR_SPEED = speed k) /\
  (forall k, phase k = if (Z.of_nat k =? 0) || (500 * Z.of_nat k <? c)
                       then MOTOR_STATE_STOPPING else MOTOR_STATE_IDLE) /\
  (forall k, (0 < k)%nat -> c <= 500 * Z.of_nat k ->
     speed k = 0 /\ phase k = MOTOR_STATE_IDLE /\
     Z.testbit (reg_read (snd (motor_ticks k stopping)) REG_MOTOR_STATUS) 0 = false).
Proof.
  intros Hmov Hc Hs Hf c stopping speed phase.
  pose proof (ramp_down_invariant mc rf Hmov Hc Hs Hf) as Inv. cbv zeta in Inv.
  fold stopping in Inv.
  destruct (motor_stop_from_moving mc rf Hmov Hs Hf) as (Hret & _ & Ht & _ & Hen & _).
  assert (Hspeed : forall k, speed k = Z.max (c - 500 * Z.of_nat k) 0)
    by (intros k; apply (Inv k)).
  split; [exact Hret |]. split; [exact Ht |]. split; [exact Hen |].
  split; [exact Hspeed |].
  split; [intros k; rewrite !Hspeed; lia |].
  split; [intros k Hk; apply (Inv k), Hk |].
  split; [intros k; apply (Inv k) |].
  intros k Hk Hle. destruct (Inv k) as (_ & _ & _ & Hst & _ & Hbit).
  split; [rewrite Hspeed; lia |]. split; [| apply Hbit; assumption].
  unfold phase. rewrite Hst.
  replace (Z.of_nat k =? 0) with false by (symmetry; apply Z.eqb_neq; lia).
  replace (500 * Z.of_nat k <? current_speed mc) with false
    by (symmetry; apply Z.ltb_ge; exact Hle).
  reflexivity.
Qed.

Lemma motor_running_5000_facts :
  state (fst motor_running_5000) = MOTOR_STATE_RUNNING /\
  current_speed (fst motor_running_5000) = 5000 /\
  target_speed (fst motor_running_5000) = 5000 /\
  rf_sized (snd motor_running_5000) /\
  rf_words (snd motor_running_5000) /\
  no_fault_bits (snd motor_running_5000).
Proof.
  repeat split; try reflexivity; try discriminate.
  unfold rf_words. vm_compute regs. repeat constructor; discriminate.
Qed.

Lemma motor_ramp_down_witness :
  current_speed
    (fst (motor_ticks 10
            (snd (motor_stop (fst motor_running_5000, snd motor_running_5000)))))
  = Z.max (5000 - 500 * Z.of_nat 10) 0.
Proof.
  destruct motor_running_5000_facts as (Hst & Hc & _ & Hs & _ & Hf).
  destruct (motor_ramp_down (fst motor_running_5000) (snd motor_running_5000))
    as (_ & _ & _ & Hspeed & _).
  - rewrite Hst. discriminate.
  - rewrite Hc. split; [discriminate | reflexivity].
  - exact Hs.
  - exact Hf.
  - rewrite <- Hc. exact (Hspeed 10%nat).
Defined.

(** The bits of the constants used as masks. *)
Lemma bit_mask_testbit n i : 0 <= n -> Z.testbit (Z.shiftl 1 n) i = (n =? i).
Proof. intros Hn. rewrite Z.shiftl_1_l. apply Z.pow2_bits_eqb, Hn. Qed.

(** X5: [motor_brake] stops the motor at once, whatever its state: it
    returns 0, the state is idle and both speeds and MOTOR_SPEED are 0.  In
    MOTOR_CTRL the brake bit is set and the enable bit clear, in
    MOTOR_STATUS the running bit is clear, and the other bits of both
    registers, the fault bits among them, are as before; so are the fault
    code, the position and the direction. *)
Theorem motor_brake_immediate mc rf :
  rf_sized rf -> rf_words rf ->
  let hw := snd (motor_brake (mc, rf)) in
  fst (motor_brake (mc, rf)) = 0 /\
  state (fst hw) = MOTOR_STATE_IDLE /\
  motor_is_running hw = false /\
  current_speed (fst hw) = 0 /\
  target_speed (fst hw) = 0 /\
  fault_code (fst hw) = fault_code mc /\
  position (fst hw) = position mc /\
  direction (fst hw) = direction mc /\
  reg_read (snd hw) REG_MOTOR_SPEED = 0 /\
  reg_read (snd hw) REG_MOTOR_POSITION = reg_read rf REG_MOTOR_POSITION /\
  (forall i, 0 <= i ->
     Z.testbit (reg_read (snd hw) REG_MOTOR_CTRL) i
     = if i =? 2 then true
       else if i =? 0 then false
       else Z.testbit (reg_read rf REG_MOTOR_CTRL) i) /\
  (forall i, 0 <= i ->
     Z.testbit (reg_read (snd hw) REG_MOTOR_STATUS) i
     = if i =? 0 then false else Z.testbit (reg_read rf REG_MOTOR_STATUS) i).
Proof.
  intros Hs Hw hw. subst hw. unfold motor_brake. cbn [fst snd]. mc_simpl.
  split; [reflexivity |]. split; [reflexivity |]. split; [reflexivity |].
  split; [reflexivity |]. split; [reflexivity |]. split; [reflexivity |].
  split; [reflexivity |]. split; [reflexivity |].
  split; [reg_simpl; reflexivity |].
  split; [reg_simpl; reflexivity |].
  split.
  - intros i Hi. reg_simpl.
    rewrite Z.land_spec, Z.lor_spec, not32_spec by exact Hi.
    unfold MOTOR_CTRL_BRAKE, MOTOR_CTRL_ENABLE. rewrite !bit_mask_testbit by lia.
    rewrite (Z.eqb_sym 2 i), (Z.eqb_sym 0 i).
    destruct (Z.eqb_spec i 2) as [E2 | H2], (Z.eqb_spec i 0) as [E0 | H0];
      cbn [negb]; rewrite ?andb_false_l, ?andb_false_r, ?orb_true_r, ?orb_false_r,
                          ?andb_true_l; try reflexivity; try lia.
    destruct (Z.ltb_spec i 32) as [_ | Hge]; [apply andb_true_r |].
    rewrite uint32_testbit_high by (try apply reg_read_words; assumption).
    reflexivity.
  - intros i Hi. reg_simpl.
    rewrite Z.land_spec, not32_spec by exact Hi.
    unfold MOTOR_STATUS_RUNNING. rewrite bit_mask_testbit by lia.
    rewrite (Z.eqb_sym 0 i).
    destruct (Z.eqb_spec i 0) as [E0 | H0]; cbn [negb];
      rewrite ?andb_false_l, ?andb_false_r, ?andb_true_l; [reflexivity |].
    destruct (Z.ltb_spec i 32) as [_ | Hge]; [apply andb_true_r |].
    rewrite uint32_testbit_high by (try apply reg_read_words; assumption).
    reflexivity.
Qed.

Lemma motor_brake_immediate_witness :
  current_speed (fst (snd (motor_brake (fst motor_running_5000, snd motor_running_5000))))
  = 0 /\
  reg_read (snd (snd (motor_brake (fst motor_running_5000, snd motor_running_5000))))
           REG_MOTOR_SPEED = 0.
Proof.
  destruct motor_running_5000_facts as (_ & _ & _ & Hs & Hw & _).
  destruct (motor_brake_immediate (fst motor_running_5000) (snd motor_running_5000) Hs Hw)
    as (_ & _ & _ & Hc & _ & _ & _ & _ & Hreg & _).
  split; [exact Hc | exact Hreg].
Defined.

(** The test [status & mask] of a one-bit mask reads that bit. *)
Lemma land_bit_test s n :
  0 <= n -> negb (Z.land s (Z.shiftl 1 n) =? 0) = Z.testbit s n.
Proof. intros Hn. apply (irq_bit_set_testbit s n Hn). Qed.

(** The test of [motor_update] for a fault reads bits 1, 2 and 3 of
    MOTOR_STATUS. *)
Lemma fault_bits_test s :
  negb (Z.land s MOTOR_STATUS_FAULT_BITS =? 0)
  = Z.testbit s 1 || Z.testbit s 2 || Z.testbit s 3.
Proof.
  assert (Hbits : forall i, 0 <= i ->
            Z.testbit (Z.land s MOTOR_STATUS_FAULT_BITS) i
            = Z.testbit s i && ((1 =? i) || (2 =? i) || (3 =? i))).
  { intros i Hi. unfold MOTOR_STATUS_FAULT_BITS, MOTOR_STATUS_FAULT,
      MOTOR_STATUS_STALL, MOTOR_STATUS_OVERHEAT.
    rewrite Z.land_spec, !Z.lor_spec, !bit_mask_testbit by lia. reflexivity. }
  destruct (Z.eqb_spec (Z.land s MOTOR_STATUS_FAULT_BITS) 0) as [E | Hne]; cbn [negb].
  - pose proof (Hbits 1 ltac:(lia)) as H1. pose proof (Hbits 2 ltac:(lia)) as H2.
    pose proof (Hbits 3 ltac:(lia)) as H3.
    rewrite E, Z.bits_0 in H1, H2, H3.
    change ((1 =? 1) || (2 =? 1) || (3 =? 1)) with true in H1.
    change ((1 =? 2) || (2 =? 2) || (3 =? 2)) with true in H2.
    change ((1 =? 3) || (2 =? 3) || (3 =? 3)) with true in H3.
    rewrite andb_true_r in H1, H2, H3. rewrite <- H1, <- H2, <- H3. reflexivity.
  - symmetry. apply not_false_iff_true. intros Hnone.
    apply orb_false_iff in Hnone as [Hnone H3].
    apply orb_false_iff in Hnone as [H1 H2].
    apply Hne. apply Z.bits_inj'. intros i Hi. rewrite Hbits, Z.bits_0 by exact Hi.
    destruct (Z.eqb_spec 1 i) as [<- | _]; [rewrite H1; reflexivity |].
    destruct (Z.eqb_spec 2 i) as [<- | _]; [rewrite H2; reflexivity |].
    destruct (Z.eqb_spec 3 i) as [<- | _]; [rewrite H3; reflexivity |].
    apply andb_false_r.
Qed.

Lemma no_fault_bits_iff rf :
  no_fault_bits rf <->
  Z.testbit (reg_read rf REG_MOTOR_STATUS) 1 = false /\
  Z.testbit (reg_read rf REG_MOTOR_STATUS) 2 = false /\
  Z.testbit (reg_read rf REG_MOTOR_STATUS) 3 = false.
Proof.
  unfold no_fault_bits. pose proof (fault_bits_test (reg_read rf REG_MOTOR_STATUS)) as H.
  split.
  - intros E. rewrite E in H. change (negb (0 =? 0)) with false in H. symmetry in H.
    apply orb_false_iff in H as [H H3]. apply orb_false_iff in H as [H1 H2]. auto.
  - intros (H1 & H2 & H3). rewrite H1, H2, H3 in H.
    change (false || false || false) with false in H.
    apply negb_false_iff, Z.eqb_eq in H. exact H.
Qed.

(** X6: when [motor_update] finds bit 1 (fault), 2 (stall) or 3 (overheat)
    set in MOTOR_STATUS and the motor is not in the fault state, it returns
    0 and only changes the state, to fault, and the fault code: stall if the
    stall bit is set, else overheat if the overheat bit is set, else
    overcurrent.  Speeds, position and registers are as before. *)
Theorem motor_update_detects_fault mc rf :
  state mc <> MOTOR_STATE_FAULT ->
  Z.testbit (reg_read rf REG_MOTOR_STATUS) 1
  || Z.testbit (reg_read rf REG_MOTOR_STATUS) 2
  || Z.testbit (reg_read rf REG_MOTOR_STATUS) 3 = true ->
  motor_update (mc, rf) =
  (0, (set_fault_code (set_state mc MOTOR_STATE_FAULT)
         (fault_of_status (reg_read rf REG_MOTOR_STATUS)), rf)).
Proof.
  intros Hst Hbits. unfold motor_update, fault_of_status.
  rewrite fault_bits_test, Hbits.
  replace (motor_state_eqb (state mc) MOTOR_STATE_FAULT) with false
    by (destruct (state mc); (reflexivity || congruence)).
  cbn [negb].
  unfold MOTOR_STATUS_STALL, MOTOR_STATUS_OVERHEAT. rewrite !land_bit_test by lia.
  destruct (Z.testbit (reg_read rf REG_MOTOR_STATUS) 2); [reflexivity |].
  destruct (Z.testbit (reg_read rf REG_MOTOR_STATUS) 3); reflexivity.
Qed.

Lemma motor_update_detects_fault_witness :
  fault_code (fst (snd (motor_update motor_overheating))) = MOTOR_FAULT_OVERHEAT.
Proof.
  assert (Hst : state (fst motor_overheating) <> MOTOR_STATE_FAULT)
    by (vm_compute; discriminate).
  assert (Hbits : Z.testbit (reg_read (snd motor_overheating) REG_MOTOR_STATUS) 1
                  || Z.testbit (reg_read (snd motor_overheating) REG_MOTOR_STATUS) 2
                  || Z.testbit (reg_read (snd motor_overheating) REG_MOTOR_STATUS) 3 = true)
    by (vm_compute; reflexivity).
  pose proof (motor_update_detects_fault (fst motor_overheating) (snd motor_overheating)
                Hst Hbits) as H.
  replace (fst motor_overheating, snd motor_overheating) with motor_overheating in H
    by (vm_compute; reflexivity).
  rewrite H. vm_compute. reflexivity.
Defined.

Lemma motor_apply_in_fault op hw :
  state (fst hw) = MOTOR_STATE_FAULT -> blocked_in_fault op = true ->
  motor_apply op hw = hw.
Proof.
  destruct hw as [mc rf]. cbn [fst]. intros Hst Hop.
  destruct op; try discriminate Hop; cbn [motor_apply].
  - unfold motor_start. rewrite Hst. reflexivity.
  - unfold motor_set_speed. rewrite Hst. reflexivity.
  - unfold motor_update. rewrite Hst. cbn [motor_state_eqb negb].
    destruct (negb (Z.land (reg_read rf REG_MOTOR_STATUS) MOTOR_STATUS_FAULT_BITS =? 0));
      reflexivity.
Qed.

(** X7: a motor in the fault state does not react to [motor_start],
    [motor_set_speed] and [motor_update]: the first two return -2,
    [motor_update] returns 0, and no sequence of these calls changes the
    motor or a register, whatever MOTOR_STATUS holds. *)
Theorem fault_state_blocks ops hw speed dir :
  state (fst hw) = MOTOR_STATE_FAULT ->
  forallb blocked_in_fault ops = true ->
  motor_run ops hw = hw /\
  fst (motor_start hw speed dir) = -2 /\
  fst (motor_set_speed hw speed) = -2 /\
  fst (motor_update hw) = 0.
Proof.
  intros Hst Hops. split; [| split; [| split]].
  - induction ops as [| op ops IH]; [reflexivity |].
    cbn [forallb] in Hops. apply andb_true_iff in Hops as [Hop Hops].
    unfold motor_run. cbn [foldl]. rewrite motor_apply_in_fault by assumption.
    apply IH, Hops.
  - destruct hw as [mc rf]. cbn [fst] in Hst. unfold motor_start. rewrite Hst. reflexivity.
  - destruct hw as [mc rf]. cbn [fst] in Hst. unfold motor_set_speed. rewrite Hst.
    reflexivity.
  - destruct hw as [mc rf]. cbn [fst] in Hst. unfold motor_update. rewrite Hst.
    cbn [motor_state_eqb negb].
    destruct (negb (Z.land (reg_read rf REG_MOTOR_STATUS) MOTOR_STATUS_FAULT_BITS =? 0));
      reflexivity.
Qed.

Lemma fault_state_blocks_witness :
  let hw := motor_inject_fault motor_running_5000 MOTOR_FAULT_STALL in
  motor_run [OpUpdate; OpStart 3000 MOTOR_DIR_CCW; OpSetSpeed 100; OpUpdate] hw = hw.
Proof.
  intros hw.
  apply (fault_state_blocks [OpUpdate; OpStart 3000 MOTOR_DIR_CCW; OpSetSpeed 100; OpUpdate]
           hw 0 MOTOR_DIR_CW); reflexivity.
Defined.

(** X8: the fault and recovery cycle.  [motor_inject_fault] puts the motor
    in the fault state with the given code and sets the status bit of that
    fault; [motor_clear_fault] then returns 0, moves it to recovery with no
    fault code and zeroes MOTOR_STATUS; the next [motor_update] makes it
    idle.  The speeds, the position and the direction are those before the
    fault throughout: the idle motor keeps the current speed it had. *)
Theorem fault_recovery_cycle mc rf f :
  rf_sized rf ->
  let faulted := motor_inject_fault (mc, rf) f in
  let cleared := motor_clear_fault faulted in
  let recovered := motor_update (snd cleared) in
  (state (fst faulted) = MOTOR_STATE_FAULT /\ fault_code (fst faulted) = f /\
   match f with
   | MOTOR_FAULT_STALL => Z.testbit (reg_read (snd faulted) REG_MOTOR_STATUS) 2 = true
   | MOTOR_FAULT_OVERHEAT => Z.testbit (reg_read (snd faulted) REG_MOTOR_STATUS) 3 = true
   | MOTOR_FAULT_OVERCURRENT => Z.testbit (reg_read (snd faulted) REG_MOTOR_STATUS) 1 = true
   | MOTOR_FAULT_NONE => snd faulted = rf
   end) /\
  (fst cleared = 0 /\ state (fst (snd cleared)) = MOTOR_STATE_RECOVERY /\
   fault_code (fst (snd cleared)) = MOTOR_FAULT_NONE /\
   reg_read (snd (snd cleared)) REG_MOTOR_STATUS = 0) /\
  (fst recovered = 0 /\ state (fst (snd recovered)) = MOTOR_STATE_IDLE /\
   fault_code (fst (snd recovered)) = MOTOR_FAULT_NONE /\
   reg_read (snd (snd recovered)) REG_MOTOR_STATUS = 0) /\
  (current_speed (fst (snd recovered)) = current_speed mc /\
   target_speed (fst (snd recovered)) = target_speed mc /\
   position (fst (snd recovered)) = position mc /\
   direction (fst (snd recovered)) = direction mc).
Proof.
  intros Hs faulted cleared recovered.
  assert (Hf : exists rf', faulted = (set_state (set_fault_code mc f) MOTOR_STATE_FAULT, rf')
                           /\ rf_sized rf').
  { unfold faulted, motor_inject_fault.
    destruct f; eexists; (split; [reflexivity | reg_sized]). }
  destruct Hf as (rf' & Ef & Hs').
  assert (Ec : cleared =
               (0, (set_state (set_fault_code (fst faulted) MOTOR_FAULT_NONE)
                      MOTOR_STATE_RECOVERY,
                    reg_write rf' REG_MOTOR_STATUS 0))).
  { unfold cleared. rewrite Ef. reflexivity. }
  assert (Hzero : reg_read (reg_write rf' REG_MOTOR_STATUS 0) REG_MOTOR_STATUS = 0)
    by (reg_simpl; reflexivity).
  assert (Er : recovered =
               (0, (set_state (fst (snd cleared)) MOTOR_STATE_IDLE, snd (snd cleared)))).
  { unfold recovered. rewrite Ec. cbn [fst snd]. unfold motor_update.
    rewrite Hzero. rewrite Ef. reflexivity. }
  split; [| split; [| split]].
  - split; [rewrite Ef; reflexivity |]. split; [rewrite Ef; reflexivity |].
    unfold faulted, motor_inject_fault.
    destruct f; cbn [snd]; [reflexivity | | |]; reg_simpl; rewrite Z.lor_spec;
      apply orb_true_r.
  - rewrite Ec. cbn [fst snd]. mc_simpl. auto.
  - rewrite Er, Ec. cbn [fst snd]. mc_simpl. auto.
  - rewrite Er, Ec, Ef. cbn [fst snd]. mc_simpl. auto.
Qed.

Lemma fault_recovery_cycle_witness :
  state (fst (snd (motor_update
                     (snd (motor_clear_fault
                             (motor_inject_fault
                                (fst motor_running_5000, snd motor_running_5000)
                                MOTOR_FAULT_STALL))))))
  = MOTOR_STATE_IDLE.
Proof.
  destruct motor_running_5000_facts as (_ & _ & _ & Hs & _).
  destruct (fault_recovery_cycle (fst motor_running_5000) (snd motor_running_5000)
              MOTOR_FAULT_STALL Hs) as (_ & _ & (_ & H & _) & _).
  exact H.
Defined.

(** ** Motor: the running state *)

Lemma to_int32_small x : - 2 ^ 31 <= x < 2 ^ 31 -> to_int32 x = x.
Proof.
  intros H. unfold to_int32, uint32_mod. rewrite Z.mod_small; lia.
Qed.

Lemma speed_step_int32 s : is_uint32 s -> to_int32 (s / 100) = s / 100.
Proof.
  intros [H0 H1]. unfold uint32_mod in H1. apply to_int32_small.
  assert (0 <= s / 100) by (apply Z.div_pos; lia).
  assert (s / 100 < 2 ^ 31) by (apply Z.div_lt_upper_bound; lia).
  lia.
Qed.

Lemma sub32_wrap a b : 0 <= a < b -> b <= uint32_mod -> sub32 a b = a + uint32_mod - b.
Proof.
  intros Ha Hb. unfold sub32.
  replace (a - b) with (a + uint32_mod - b + (-1) * uint32_mod) by lia.
  rewrite Z.mod_add by (unfold uint32_mod; lia).
  apply Z.mod_small. lia.
Qed.

(** The speed after a tick in the running state. *)
Lemma update_running_speed mc rf :
  is_uint32 (current_speed mc) -> 0 <= target_speed mc <= MAX_SPEED ->
  let c := current_speed mc in
  let t := target_speed mc in
  current_speed (fst (update_running mc rf)) =
  if c <? t then Z.min (c + 500) t
  else if t <? c then (if 500 <=? c then Z.max (c - 500) t else c + 2 ^ 32 - 500)
  else c.
Proof.
  intros [Hc0 Hc1] Ht c t. unfold MAX_SPEED, uint32_mod in *.
  assert (E : current_speed (fst (update_running mc rf)) =
              current_speed
                (if c <? t then
                   let m := set_current_speed mc (add32 c SPEED_RAMP_RATE) in
                   if current_speed m >? t then set_current_speed m t else m
                 else if c >? t then
                   let m := set_current_speed mc (sub32 c SPEED_RAMP_RATE) in
                   if current_speed m <? t then set_current_speed m t else m
                 else mc)).
  { unfold update_running. cbv zeta. fold c t.
    match goal with
    | |- context [direction ?m] => destruct (direction m); reflexivity
    end. }
  rewrite E. clear E. unfold SPEED_RAMP_RATE. cbv zeta.
  rewrite !Z.gtb_ltb. mc_simpl. fold c t.
  destruct (Z.ltb_spec c t) as [Hlt | Hge].
  - rewrite add32_small by (unfold uint32_mod; lia).
    destruct (Z.ltb_spec t (c + 500)); mc_simpl; lia.
  - destruct (Z.ltb_spec t c) as [Hgt | Heq]; [| reflexivity].
    destruct (Z.leb_spec 500 c) as [Hbig | Hsmall].
    + rewrite sub32_small by (unfold uint32_mod; lia).
      destruct (Z.ltb_spec (c - 500) t); mc_simpl; lia.
    + rewrite sub32_wrap by (unfold uint32_mod; lia). unfold uint32_mod.
      destruct (Z.ltb_spec (c + 2 ^ 32 - 500) t); mc_simpl; lia.
Qed.

(** What a tick in the running state does besides adjusting the speed. *)
Lemma update_running_position mc rf :
  rf_sized rf ->
  let hw := update_running mc rf in
  state (fst hw) = state mc /\
  target_speed (fst hw) = target_speed mc /\
  direction (fst hw) = direction mc /\
  fault_code (fst hw) = fault_code mc /\
  reg_read (snd hw) REG_MOTOR_SPEED = current_speed (fst hw) /\
  position (fst hw) =
    to_int32 (match direction mc with
              | MOTOR_DIR_CW => position mc + to_int32 (current_speed (fst hw) / 100)
              | MOTOR_DIR_CCW => position mc - to_int32 (current_speed (fst hw) / 100)
              end) /\
  reg_read (snd hw) REG_MOTOR_POSITION = to_uint32 (position (fst hw)) /\
  reg_read (snd hw) REG_MOTOR_STATUS = reg_read rf REG_MOTOR_STATUS /\
  reg_read (snd hw) REG_MOTOR_CTRL = reg_read rf REG_MOTOR_CTRL.
Proof.
  intros Hs. unfold update_running. cbv zeta.
  set (m1 := if current_speed mc <? target_speed mc then _ else _).
  assert (Hm1 : state m1 = state mc /\ target_speed m1 = target_speed mc /\
                direction m1 = direction mc /\ position m1 = position mc /\
                fault_code m1 = fault_code mc).
  { subst m1. compare_cases; mc_simpl; auto. }
  destruct Hm1 as (Hm1s & Hm1t & Hm1d & Hm1p & Hm1f).
  clearbody m1. rewrite <- Hm1s, <- Hm1t, <- Hm1d, <- Hm1p, <- Hm1f.
  destruct (direction m1) eqn:Ed; mc_simpl; rewrite ?Ed;
    repeat split; reg_simpl; reflexivity.
Qed.

(** X9: one [motor_update] in the running state without fault bits.  The
    state and the target stay.  Below the target the speed grows by 500,
    clamped at the target; above it, from a speed of at least 500, it falls
    by 500, clamped at the target; above it from a speed under 500 the
    subtraction wraps around and the speed becomes [speed + 2^32 - 500].
    MOTOR_SPEED shows the new speed [c'], the position moves by [c' / 100]
    in the direction of rotation (as an [int32_t]) and MOTOR_POSITION shows
    it. *)
Theorem motor_update_running mc rf :
  state mc = MOTOR_STATE_RUNNING ->
  rf_sized rf -> no_fault_bits rf ->
  is_uint32 (current_speed mc) -> 0 <= target_speed mc <= MAX_SPEED ->
  let c := current_speed mc in
  let t := target_speed mc in
  let hw := snd (motor_update (mc, rf)) in
  let c' := current_speed (fst hw) in
  state (fst hw) = MOTOR_STATE_RUNNING /\
  target_speed (fst hw) = t /\
  (c <= t -> c' = Z.min (c + 500) t) /\
  (t < c -> 500 <= c -> c' = Z.max (c - 500) t) /\
  (t < c -> c < 500 -> c' = c + 2 ^ 32 - 500) /\
  reg_read (snd hw) REG_MOTOR_SPEED = c' /\
  position (fst hw) =
    to_int32 (match direction mc with
              | MOTOR_DIR_CW => position mc + c' / 100
              | MOTOR_DIR_CCW => position mc - c' / 100
              end) /\
  reg_read (snd hw) REG_MOTOR_POSITION = to_uint32 (position (fst hw)).
Proof.
  intros Hst Hs Hf Hc Ht c t hw c'. subst hw c'.
  rewrite motor_update_no_fault by exact Hf. rewrite Hst.
  pose proof (update_running_speed mc rf Hc Ht) as Hspeed. cbv zeta in Hspeed.
  fold c t in Hspeed.
  destruct (update_running_position mc rf Hs)
    as (Hst' & Htg & _ & _ & Hreg & Hpos & Hpreg & _).
  assert (Hnew : is_uint32 (current_speed (fst (update_running mc rf)))).
  { destruct Hc as [Hc0 Hc1]. unfold MAX_SPEED, uint32_mod in *. fold c in Hc0, Hc1.
    fold t in Ht. rewrite Hspeed. unfold is_uint32, uint32_mod.
    destruct (Z.ltb_spec c t); [lia |].
    destruct (Z.ltb_spec t c); [| lia].
    destruct (Z.leb_spec 500 c); lia. }
  rewrite speed_step_int32 in Hpos by exact Hnew.
  split; [rewrite Hst'; exact Hst |]. split; [exact Htg |].
  split; [| split; [| split]].
  - intros Hle. rewrite Hspeed.
    destruct (Z.ltb_spec c t); [reflexivity |].
    destruct (Z.ltb_spec t c); lia.
  - intros Hgt Hbig. rewrite Hspeed.
    destruct (Z.ltb_spec c t); [lia |].
    destruct (Z.ltb_spec t c); [| lia].
    destruct (Z.leb_spec 500 c); [reflexivity | lia].
  - intros Hgt Hsmall. rewrite Hspeed.
    destruct (Z.ltb_spec c t); [lia |].
    destruct (Z.ltb_spec t c); [| lia].
    destruct (Z.leb_spec 500 c); [lia | reflexivity].
  - split; [exact Hreg |]. split; [exact Hpos | exact Hpreg].
Qed.

Lemma motor_slowing_facts :
  state (fst motor_slowing) = MOTOR_STATE_RUNNING /\
  current_speed (fst motor_slowing) = 5000 /\
  target_speed (fst motor_slowing) = 4800 /\
  rf_sized (snd motor_slowing) /\ no_fault_bits (snd motor_slowing).
Proof. vm_compute. repeat split. Qed.

Lemma motor_update_running_witness :
  current_speed (fst (snd (motor_update (fst motor_slowing, snd motor_slowing))))
  = Z.max (current_speed (fst motor_slowing) - 500) (target_speed (fst motor_slowing)).
Proof.
  destruct motor_slowing_facts as (Hst & Hc & Ht & Hs & Hf).
  destruct (motor_update_running (fst motor_slowing) (snd motor_slowing) Hst Hs Hf)
    as (_ & _ & _ & Hdown & _).
  - rewrite Hc. split; [discriminate | reflexivity].
  - rewrite Ht. split; discriminate.
  - apply Hdown; rewrite Hc; [rewrite Ht; reflexivity | discriminate].
Defined.

Section SteadyRun.

Variables (mc : motor_controller) (rf : register_file).
Hypothesis running : state mc = MOTOR_STATE_RUNNING.
Hypothesis steady : current_speed mc = target_speed mc.
Hypothesis speed_word : is_uint32 (current_speed mc).
Hypothesis sized : rf_sized rf.
Hypothesis healthy : no_fault_bits rf.
Hypothesis position_word : - 2 ^ 31 <= position mc < 2 ^ 31.

(** The position after [k] ticks at the speed of [mc], before its
    conversion to [int32_t]. *)
Local Abbreviation travelled k :=
  (match direction mc with
   | MOTOR_DIR_CW => position mc + Z.of_nat k * (current_speed mc / 100)
   | MOTOR_DIR_CCW => position mc - Z.of_nat k * (current_speed mc / 100)
   end).

Lemma steady_run_invariant (n : nat) :
  - 2 ^ 31 <= travelled n < 2 ^ 31 ->
  let hw := motor_ticks n (mc, rf) in
  rf_sized (snd hw) /\ no_fault_bits (snd hw) /\
  state (fst hw) = MOTOR_STATE_RUNNING /\
  direction (fst hw) = direction mc /\
  target_speed (fst hw) = target_speed mc /\
  current_speed (fst hw) = current_speed mc /\
  position (fst hw) = travelled n /\
  ((0 < n)%nat -> reg_read (snd hw) REG_MOTOR_POSITION = to_uint32 (travelled n) /\
                  reg_read (snd hw) REG_MOTOR_SPEED = current_speed mc).
Proof.
  assert (Hd : 0 <= current_speed mc / 100)
    by (apply Z.div_pos; [apply speed_word | lia]).
  induction n as [| n IH]; intros Hrange.
  - change (motor_ticks 0 (mc, rf)) with (mc, rf). cbv zeta. cbn [fst snd].
    repeat split; try assumption; try lia.
    destruct (direction mc); lia.
  - assert (Hprev : - 2 ^ 31 <= travelled n < 2 ^ 31).
    { rewrite Nat2Z.inj_succ in Hrange.
      assert (0 <= Z.of_nat n * (current_speed mc / 100))
        by (apply Z.mul_nonneg_nonneg; lia).
      destruct (direction mc); lia. }
    specialize (IH Hprev). cbv zeta in IH.
    destruct IH as (Hs & Hf & Hst & Hdir & Ht & Hc & Hp & _).
    assert (E : motor_ticks (S n) (mc, rf) = snd (motor_update (motor_ticks n (mc, rf))))
      by reflexivity.
    cbv zeta. rewrite E. destruct (motor_ticks n (mc, rf)) as [m r].
    cbn [fst snd] in Hs, Hf, Hst, Hdir, Ht, Hc, Hp.
    rewrite motor_update_no_fault by exact Hf. rewrite Hst.
    destruct (update_running_regs m r Hs Hf) as [Hs' Hf'].
    destruct (update_running_at_target m r) as (Hst' & Ht' & Hc'); [congruence |].
    destruct (update_running_position m r Hs)
      as (_ & _ & Hdir' & _ & Hreg & Hpos & Hpreg & _).
    rewrite Hc', Hc in Hpos, Hreg. rewrite speed_step_int32 in Hpos by exact speed_word.
    assert (Hnew : position (fst (update_running m r)) = travelled (S n)).
    { rewrite Hpos, Hdir, Hp. rewrite Nat2Z.inj_succ in Hrange |- *.
      destruct (direction mc); rewrite to_int32_small; lia. }
    split; [exact Hs' |]. split; [exact Hf' |].
    split; [congruence |]. split; [congruence |]. split; [congruence |].
    split; [congruence |]. split; [exact Hnew |].
    intros _. split; [rewrite Hpreg, Hnew; reflexivity | exact Hreg].
Qed.

End SteadyRun.

(** X10: a motor running at its target speed [s] without fault bits keeps
    state and speed under [motor_update], and each call moves the position
    by [s / 100], up when the direction is clockwise, down otherwise: as long
    as the result fits an [int32_t], the position after [n] calls is
    [position + n * (s / 100)], respectively [position - n * (s / 100)], and
    MOTOR_POSITION holds it as a [uint32_t]. *)
Theorem motor_position_integrates mc rf n :
  state mc = MOTOR_STATE_RUNNING ->
  current_speed mc = target_speed mc ->
  is_uint32 (current_speed mc) ->
  rf_sized rf -> no_fault_bits rf ->
  - 2 ^ 31 <= position mc < 2 ^ 31 ->
  let final :=
    match direction mc with
    | MOTOR_DIR_CW => position mc + Z.of_nat n * (current_speed mc / 100)
    | MOTOR_DIR_CCW => position mc - Z.of_nat n * (current_speed mc / 100)
    end in
  - 2 ^ 31 <= final < 2 ^ 31 ->
  let hw := motor_ticks n (mc, rf) in
  state (fst hw) = MOTOR_STATE_RUNNING /\
  current_speed (fst hw) = current_speed mc /\
  position (fst hw) = final /\
  ((0 < n)%nat -> reg_read (snd hw) REG_MOTOR_POSITION = to_uint32 final).
Proof.
  intros Hst Heq Hc Hs Hf Hp final Hrange hw.
  destruct (steady_run_invariant mc rf Hst Heq Hc Hs Hf Hp n Hrange)
    as (_ & _ & Hst' & _ & _ & Hc' & Hpos & Hreg).
  split; [exact Hst' |]. split; [exact Hc' |]. split; [exact Hpos |].
  intros Hn. apply Hreg, Hn.
Qed.

Lemma motor_position_integrates_witness :
  position (fst (motor_ticks 7 (fst motor_running_5000, snd motor_running_5000)))
  = position (fst motor_running_5000)
    + Z.of_nat 7 * (current_speed (fst motor_running_5000) / 100).
Proof.
  destruct motor_running_5000_facts as (Hst & Hc & Ht & Hs & _ & Hf).
  assert (Hp : position (fst motor_running_5000) = 0) by (vm_compute; reflexivity).
  assert (Hd : direction (fst motor_running_5000) = MOTOR_DIR_CW)
    by (vm_compute; reflexivity).
  destruct (motor_position_integrates (fst motor_running_5000) (snd motor_running_5000) 7)
    as (_ & _ & Hpos & _).
  - exact Hst.
  - rewrite Hc, Ht. reflexivity.
  - rewrite Hc. split; [discriminate | reflexivity].
  - exact Hs.
  - exact Hf.
  - rewrite Hp. split; [discriminate | reflexivity].
  - rewrite Hd, Hp, Hc. split; [discriminate | reflexivity].
  - rewrite Hd in Hpos. exact Hpos.
Defined.

(** ** Motor: the shutdown drain of the driver *)

(** X11: [motor_is_running] is false right after [motor_stop], in every
    state, so the loop of [main] that calls [motor_update] while the motor is
    running makes no call at all: it ends at once, for any bound on its
    iterations, and leaves the motor as [motor_stop] left it, stopping at the
    speed it had, with MOTOR_SPEED unchanged. *)
Theorem shutdown_drain_makes_no_update hw fuel :
  let stopped := snd (motor_stop hw) in
  motor_is_running stopped = false /\
  motor_drain fuel stopped = Some (0%nat, stopped) /\
  state (fst stopped) = (if motor_state_eqb (state (fst hw)) MOTOR_STATE_IDLE
                         then MOTOR_STATE_IDLE else MOTOR_STATE_STOPPING) /\
  current_speed (fst stopped) = current_speed (fst hw) /\
  reg_read (snd stopped) REG_MOTOR_SPEED = reg_read (snd hw) REG_MOTOR_SPEED.
Proof.
  destruct hw as [mc rf]. cbv zeta. cbn [fst].
  assert (Hrun : motor_is_running (snd (motor_stop (mc, rf))) = false).
  { unfold motor_stop, motor_is_running. destruct (state mc) eqn:E; cbn [motor_state_eqb snd fst];
      mc_simpl; rewrite ?E; reflexivity. }
  split; [exact Hrun |]. split.
  - destruct fuel; cbn [motor_drain]; rewrite Hrun; reflexivity.
  - unfold motor_stop.
    destruct (motor_state_eqb (state mc) MOTOR_STATE_IDLE) eqn:E; cbn [fst snd]; mc_simpl.
    + destruct (state mc); try discriminate E. auto.
    + repeat split. reg_simpl. reflexivity.
Qed.

(** ** Motor: registers and state agree *)

Lemma update_starting_mirror mc rf :
  rf_sized rf ->
  let hw := update_starting mc rf in
  (state (fst hw) = state mc \/ state (fst hw) = MOTOR_STATE_RUNNING) /\
  position (fst hw) = position mc /\
  reg_read (snd hw) REG_MOTOR_SPEED = current_speed (fst hw) /\
  reg_read (snd hw) REG_MOTOR_POSITION = reg_read rf REG_MOTOR_POSITION /\
  Z.testbit (reg_read (snd hw) REG_MOTOR_STATUS) 0 = true.
Proof.
  intros Hs. unfold update_starting. cbv zeta.
  set (m1 := if current_speed mc <? target_speed mc then _ else _).
  assert (Hm1 : (state m1 = state mc \/ state m1 = MOTOR_STATE_RUNNING) /\
                position m1 = position mc).
  { subst m1. compare_cases; mc_simpl; auto. }
  clearbody m1. destruct Hm1 as [Hst Hp]. cbn [fst snd].
  split; [exact Hst |]. split; [exact Hp |].
  split; [reg_simpl; reflexivity |]. split; [reg_simpl; reflexivity |].
  reg_simpl. rewrite Z.lor_spec. apply orb_true_r.
Qed.

Lemma update_stopping_mirror mc rf :
  rf_sized rf ->
  let hw := update_stopping mc rf in
  (state (fst hw) = state mc \/
   state (fst hw) = MOTOR_STATE_IDLE /\
   Z.testbit (reg_read (snd hw) REG_MOTOR_STATUS) 0 = false) /\
  position (fst hw) = position mc /\
  reg_read (snd hw) REG_MOTOR_SPEED = current_speed (fst hw) /\
  reg_read (snd hw) REG_MOTOR_POSITION = reg_read rf REG_MOTOR_POSITION.
Proof.
  intros Hs. unfold update_stopping.
  destruct (current_speed mc >? SPEED_RAMP_RATE); cbn [fst snd]; mc_simpl.
  - split; [left; reflexivity |]. split; [reflexivity |].
    split; reg_simpl; reflexivity.
  - split.
    + right. split; [reflexivity |]. reg_simpl.
      rewrite Z.land_spec, not32_spec by lia. apply andb_false_r.
    + split; [reflexivity |]. split; reg_simpl; reflexivity.
Qed.

(** Closes the goals on the state of a motor that an operation leaves in
    a known state. *)
Ltac mirror_state :=
  repeat split; try assumption;
  try (intros E; first [discriminate E | congruence | auto]).

Lemma motor_update_mirrored hw : motor_mirrored hw -> motor_mirrored (snd (motor_update hw)).
Proof.
  destruct hw as [mc rf]. unfold motor_mirrored. cbn [fst snd].
  intros (Hs & Hsp & Hpos & Hrun & Hidle & Hrec).
  unfold motor_update.
  destruct (negb (Z.land (reg_read rf REG_MOTOR_STATUS) MOTOR_STATUS_FAULT_BITS =? 0)).
  - destruct (negb (motor_state_eqb (state mc) MOTOR_STATE_FAULT));
      [| cbn [fst snd]; mirror_state].
    destruct (negb (Z.land (reg_read rf REG_MOTOR_STATUS) MOTOR_STATUS_STALL =? 0));
      [| destruct (negb (Z.land (reg_read rf REG_MOTOR_STATUS) MOTOR_STATUS_OVERHEAT =? 0))];
      cbn [fst snd]; mc_simpl; mirror_state.
  - destruct (state mc) eqn:Est; cbn [fst snd].
    + rewrite Est. mirror_state.
    + destruct (update_starting_mirror mc rf Hs) as (Hst' & Hp' & Hsp' & Hpos' & Hbit).
      split; [unfold update_starting; cbn [snd]; reg_sized |].
      split; [exact Hsp' |]. split; [rewrite Hpos', Hp'; exact Hpos |].
      rewrite Est in Hst'.
      repeat split; intros E; destruct Hst' as [E' | E']; congruence.
    + destruct (update_running_position mc rf Hs)
        as (Hst' & _ & _ & _ & Hsp' & _ & Hpos' & Hstatus & _).
      split; [unfold update_running; cbn [snd]; reg_sized |].
      split; [exact Hsp' |]. split; [exact Hpos' |].
      rewrite Hst', Est, Hstatus.
      repeat split; try discriminate. intros _. apply Hrun. reflexivity.
    + destruct (update_stopping_mirror mc rf Hs) as (Hst' & Hp' & Hsp' & Hpos').
      split.
      { unfold update_stopping. destruct (current_speed mc >? SPEED_RAMP_RATE);
          cbn [snd]; reg_sized. }
      split; [exact Hsp' |]. split; [rewrite Hpos', Hp'; exact Hpos |].
      rewrite Est in Hst'.
      repeat split; intros E; destruct Hst' as [E' | [E' Hbit]]; congruence.
    + rewrite Est. mirror_state.
    + mc_simpl. split; [exact Hs |]. split; [exact Hsp |]. split; [exact Hpos |].
      repeat split; try discriminate.
      intros _. rewrite Hrec by reflexivity. reflexivity.
Qed.

Lemma motor_apply_mirrored op hw : motor_mirrored hw -> motor_mirrored (motor_apply op hw).
Proof.
  intros Hm. destruct op; cbn [motor_apply]; try (apply motor_update_mirrored, Hm);
    destruct hw as [mc rf]; unfold motor_mirrored in *; cbn [fst snd] in *;
    destruct Hm as (Hs & Hsp & Hpos & Hrun & Hidle & Hrec).
  - (* motor_start *)
    unfold motor_start.
    destruct (motor_state_eqb (state mc) MOTOR_STATE_FAULT); cbn [fst snd]; mc_simpl;
      [mirror_state |].
    split; [reg_sized |]. split; [reg_simpl; exact Hsp |].
    split; [reg_simpl; exact Hpos |]. repeat split; discriminate.
  - (* motor_stop *)
    unfold motor_stop.
    destruct (motor_state_eqb (state mc) MOTOR_STATE_IDLE); cbn [fst snd]; mc_simpl;
      [mirror_state |].
    split; [reg_sized |]. split; [reg_simpl; exact Hsp |].
    split; [reg_simpl; exact Hpos |]. repeat split; discriminate.
  - (* motor_brake *)
    unfold motor_brake. cbn [fst snd]. mc_simpl.
    split; [reg_sized |]. split; [reg_simpl; reflexivity |].
    split; [reg_simpl; exact Hpos |].
    repeat split; try discriminate.
    intros _. reg_simpl. rewrite Z.land_spec, not32_spec by lia. apply andb_false_r.
  - (* motor_set_speed *)
    unfold motor_set_speed.
    destruct (motor_state_eqb (state mc) MOTOR_STATE_FAULT); cbn [fst snd]; mc_simpl;
      mirror_state.
  - (* motor_reset *)
    unfold motor_reset. cbn [fst snd]. mc_simpl.
    split; [reg_sized |]. split; [reg_simpl; reflexivity |].
    split; [reg_simpl; exact Hpos |].
    repeat split; try discriminate.
    intros _. reg_simpl. reflexivity.
  - (* motor_inject_fault *)
    unfold motor_inject_fault. destruct fault; cbn [fst snd]; mc_simpl;
      (split; [reg_sized |]); (split; [reg_simpl; exact Hsp |]);
      (split; [reg_simpl; exact Hpos |]); repeat split; discriminate.
  - (* motor_clear_fault *)
    unfold motor_clear_fault.
    destruct (negb (motor_state_eqb (state mc) MOTOR_STATE_FAULT)); cbn [fst snd];
      mc_simpl; [mirror_state |].
    split; [reg_sized |]. split; [reg_simpl; exact Hsp |].
    split; [reg_simpl; exact Hpos |].
    repeat split; try discriminate. intros _. reg_simpl. reflexivity.
Qed.

Lemma motor_reachable_mirrored hw : motor_reachable hw -> motor_mirrored hw.
Proof.
  induction 1 as [rf Hs | op hw _ IH _].
  - unfold motor_mirrored, motor_init. cbn [fst snd]. mc_simpl.
    split; [reg_sized |]. split; [reg_simpl; reflexivity |].
    split; [reg_simpl; reflexivity |].
    repeat split; try discriminate. intros _. reg_simpl. reflexivity.
  - apply motor_apply_mirrored, IH.
Qed.

(** X12: in every state reachable from [motor_init] by motor operations,
    the register MOTOR_SPEED holds the current speed and the register
    MOTOR_POSITION holds the position (as a [uint32_t]); [motor_reset], which
    keeps both the position and its register, does not break this. *)
Theorem motor_registers_mirror_speed_and_position hw :
  motor_reachable hw ->
  reg_read (snd hw) REG_MOTOR_SPEED = motor_get_speed hw /\
  reg_read (snd hw) REG_MOTOR_POSITION = to_uint32 (motor_get_position hw).
Proof.
  intros Hr. destruct (motor_reachable_mirrored hw Hr) as (_ & Hsp & Hpos & _).
  split; assumption.
Qed.

Lemma motor_slowing_reachable : motor_reachable motor_slowing.
Proof.
  assert (E : motor_slowing =
              motor_run (OpStart 5000 MOTOR_DIR_CW :: replicate 10 OpUpdate
                           ++ [OpSetSpeed 4800])
                        motor_initial) by (vm_compute; reflexivity).
  rewrite E. apply motor_run_reachable; [apply motor_initial_reachable |].
  repeat constructor; discriminate.
Qed.

Lemma motor_registers_mirror_speed_and_position_witness :
  reg_read (snd motor_slowing) REG_MOTOR_SPEED = motor_get_speed motor_slowing.
Proof.
  apply (motor_registers_mirror_speed_and_position motor_slowing motor_slowing_reachable).
Defined.

(** X13: in every state reachable from [motor_init] by motor operations,
    the running bit of MOTOR_STATUS is set whenever the motor is in the
    running state and clear whenever it is idle, and MOTOR_STATUS is zero in
    the recovery state. *)
Theorem motor_running_bit_follows_state hw :
  motor_reachable hw ->
  (motor_get_state hw = MOTOR_STATE_RUNNING ->
   Z.testbit (reg_read (snd hw) REG_MOTOR_STATUS) 0 = true) /\
  (motor_get_state hw = MOTOR_STATE_IDLE ->
   Z.testbit (reg_read (snd hw) REG_MOTOR_STATUS) 0 = false) /\
  (motor_get_state hw = MOTOR_STATE_RECOVERY ->
   reg_read (snd hw) REG_MOTOR_STATUS = 0).
Proof.
  intros Hr. destruct (motor_reachable_mirrored hw Hr) as (_ & _ & _ & H).
  exact H.
Qed.

Lemma motor_running_bit_follows_state_witness :
  Z.testbit (reg_read (snd motor_slowing) REG_MOTOR_STATUS) 0 = true.
Proof.
  apply (motor_running_bit_follows_state motor_slowing motor_slowing_reachable).
  vm_compute. reflexivity.
Defined.

(** ** Sensor ring: a queue of at most 15 samples *)

Section RingQueue.

Implicit Types (sa : sensor_array) (rf : register_file).

(** The slot [j] places after the tail. *)
Local Abbreviation slot sa j :=
  (default 0 (buffer sa !! Z.to_nat ((buffer_tail sa + Z.of_nat j) mod SENSOR_BUFFER_SIZE))).

Lemma ring_contents_length sa :
  length (ring_contents sa)
  = Z.to_nat ((buffer_head sa - buffer_tail sa) mod SENSOR_BUFFER_SIZE).
Proof. unfold ring_contents. rewrite length_map, length_seq. reflexivity. Qed.

Lemma ring_count_bounds sa :
  0 <= (buffer_head sa - buffer_tail sa) mod SENSOR_BUFFER_SIZE < SENSOR_BUFFER_SIZE.
Proof. apply Z.mod_pos_bound. reflexivity. Qed.

Lemma sensor_buffer_count_contents sa rf :
  sa_sized sa ->
  sensor_buffer_count (sa, rf) = Z.of_nat (length (ring_contents sa)) /\
  (length (ring_contents sa) <= 15)%nat.
Proof.
  intros (_ & _ & Hh & Ht). rewrite ring_contents_length.
  pose proof (ring_count_bounds sa) as Hb. unfold SENSOR_BUFFER_SIZE in *.
  split; [| lia].
  rewrite Z2Nat.id by lia. unfold sensor_buffer_count. cbn [fst].
  rewrite Z.geb_leb. unfold SENSOR_BUFFER_SIZE.
  destruct (Z.leb_spec (buffer_tail sa) (buffer_head sa)).
  - rewrite Z.mod_small; lia.
  - replace (buffer_head sa - buffer_tail sa)
      with (16 - buffer_tail sa + buffer_head sa + (-1) * 16) by lia.
    rewrite Z.mod_add, Z.mod_small; lia.
Qed.

(** The ring is full exactly when it holds 15 samples and empty exactly when
    it holds none. *)
Lemma ring_full_iff sa :
  sa_sized sa ->
  ((buffer_head sa + 1) mod SENSOR_BUFFER_SIZE = buffer_tail sa
   <-> length (ring_contents sa) = 15%nat).
Proof.
  intros (_ & _ & Hh & Ht). rewrite ring_contents_length.
  unfold SENSOR_BUFFER_SIZE in *.
  pose proof (Z.mod_pos_bound (buffer_head sa - buffer_tail sa) 16 ltac:(lia)) as Hb.
  destruct (Z.lt_ge_cases (buffer_head sa) (buffer_tail sa)) as [Hlt | Hge].
  - replace (buffer_head sa - buffer_tail sa)
      with (buffer_head sa - buffer_tail sa + 16 + (-1) * 16) in * by lia.
    rewrite Z.mod_add, (Z.mod_small (_ + 16)) in * by lia.
    rewrite (Z.mod_small (buffer_head sa + 1)) by lia. lia.
  - rewrite (Z.mod_small (buffer_head sa - buffer_tail sa)) in * by lia.
    destruct (Z.eq_dec (buffer_head sa) 15) as [E | Hne].
    + rewrite E. change ((15 + 1) mod 16) with 0. lia.
    + rewrite (Z.mod_small (buffer_head sa + 1)) by lia. lia.
Qed.

Lemma ring_empty_iff sa :
  sa_sized sa -> (buffer_head sa = buffer_tail sa <-> ring_contents sa = []).
Proof.
  intros (_ & _ & Hh & Ht).
  rewrite <- length_zero_iff_nil, ring_contents_length.
  unfold SENSOR_BUFFER_SIZE in *.
  pose proof (Z.mod_pos_bound (buffer_head sa - buffer_tail sa) 16 ltac:(lia)) as Hb.
  destruct (Z.lt_ge_cases (buffer_head sa) (buffer_tail sa)) as [Hlt | Hge].
  - replace (buffer_head sa - buffer_tail sa)
      with (buffer_head sa - buffer_tail sa + 16 + (-1) * 16) in * by lia.
    rewrite Z.mod_add, (Z.mod_small (_ + 16)) in * by lia. lia.
  - rewrite (Z.mod_small (buffer_head sa - buffer_tail sa)) in * by lia. lia.
Qed.

(** The slot [j] places after the tail, for [j] up to the number of
    samples, is the head exactly when [j] is that number. *)
Lemma ring_slot_index sa j :
  sa_sized sa ->
  0 <= j <= (buffer_head sa - buffer_tail sa) mod SENSOR_BUFFER_SIZE ->
  ((buffer_tail sa + j) mod SENSOR_BUFFER_SIZE = buffer_head sa
   <-> j = (buffer_head sa - buffer_tail sa) mod SENSOR_BUFFER_SIZE).
Proof.
  intros (_ & _ & Hh & Ht). unfold SENSOR_BUFFER_SIZE in *.
  pose proof (Z.mod_pos_bound (buffer_head sa - buffer_tail sa) 16 ltac:(lia)) as Hb.
  destruct (Z.lt_ge_cases (buffer_head sa) (buffer_tail sa)) as [Hlt | Hge].
  - replace (buffer_head sa - buffer_tail sa)
      with (buffer_head sa - buffer_tail sa + 16 + (-1) * 16) in * by lia.
    rewrite Z.mod_add, (Z.mod_small (_ + 16)) in * by lia.
    intros Hj. destruct (Z.lt_ge_cases (buffer_tail sa + j) 16) as [Hs | Hl].
    + rewrite Z.mod_small by lia. lia.
    + replace (buffer_tail sa + j) with (buffer_tail sa + j - 16 + 1 * 16) by lia.
      rewrite Z.mod_add, Z.mod_small by lia. lia.
  - rewrite (Z.mod_small (buffer_head sa - buffer_tail sa)) in * by lia.
    intros Hj. rewrite Z.mod_small by lia. lia.
Qed.

(** A push into a ring with room adds the sample at the end. *)
Lemma ring_push_contents sa rf v :
  sa_sized sa -> (length (ring_contents sa) < 15)%nat ->
  let r := sensor_buffer_push (sa, rf) v in
  fst r = 0 /\
  ring_contents (fst (snd r)) = ring_contents sa ++ [v] /\
  snd (snd r) = rf /\
  sa_sized (fst (snd r)) /\
  sensors (fst (snd r)) = sensors sa /\
  continuous_mode (fst (snd r)) = continuous_mode sa.
Proof.
  intros Hsz Hroom.
  assert (Hfree : (buffer_head sa + 1) mod SENSOR_BUFFER_SIZE <> buffer_tail sa).
  { intros E. apply (ring_full_iff sa Hsz) in E. lia. }
  cbv zeta. rewrite sensor_buffer_push_free by exact Hfree. cbn [fst snd].
  pose proof Hsz as (Hls & Hlb & Hh & Ht).
  set (n := (buffer_head sa - buffer_tail sa) mod SENSOR_BUFFER_SIZE) in *.
  pose proof (ring_count_bounds sa) as Hb. fold n in Hb.
  rewrite ring_contents_length in Hroom. fold n in Hroom.
  unfold SENSOR_BUFFER_SIZE in *.
  assert (Hn' : ((buffer_head sa + 1) mod 16 - buffer_tail sa) mod 16 = n + 1).
  { rewrite Zminus_mod_idemp_l.
    replace (buffer_head sa + 1 - buffer_tail sa)
      with (buffer_head sa - buffer_tail sa + 1) by lia.
    rewrite <- Zplus_mod_idemp_l. fold n. apply Z.mod_small. lia. }
  split; [reflexivity |]. split; [| split; [reflexivity | split]].
  - unfold ring_contents. cbn [buffer buffer_head buffer_tail set_buffer set_buffer_head].
    unfold SENSOR_BUFFER_SIZE. rewrite Hn'. fold n.
    replace (Z.to_nat (n + 1)) with (S (Z.to_nat n)) by lia.
    rewrite seq_S, map_app. cbn [map]. f_equal.
    + apply map_ext_in. intros j Hj. apply in_seq in Hj.
      rewrite list_lookup_insert_ne; [reflexivity |].
      intros E. apply Z2Nat.inj in E.
      * symmetry in E. apply (ring_slot_index sa (Z.of_nat j) Hsz) in E.
        -- unfold SENSOR_BUFFER_SIZE in E. fold n in E. lia.
        -- unfold SENSOR_BUFFER_SIZE. fold n. lia.
      * lia.
      * apply Z.mod_pos_bound. lia.
    + f_equal. cbn [Nat.add].
      replace ((buffer_tail sa + Z.of_nat (Z.to_nat n)) mod 16) with (buffer_head sa).
      * rewrite list_lookup_insert_eq by lia. reflexivity.
      * symmetry.
        apply (ring_slot_index sa (Z.of_nat (Z.to_nat n)) Hsz);
          unfold SENSOR_BUFFER_SIZE; fold n; lia.
  - unfold sa_sized. cbn [sensors buffer buffer_head buffer_tail set_buffer set_buffer_head].
    rewrite length_insert.
    pose proof (Z.mod_pos_bound (buffer_head sa + 1) 16 ltac:(lia)).
    unfold SENSOR_BUFFER_SIZE. auto.
  - split; reflexivity.
Qed.

(** A pop from a ring that is not empty removes the oldest sample. *)
Lemma ring_pop_contents sa rf x q :
  sa_sized sa -> ring_contents sa = x :: q ->
  let r := sensor_buffer_pop (sa, rf) in
  fst (fst r) = 0 /\
  snd (fst r) = Some x /\
  ring_contents (fst (snd r)) = q /\
  snd (snd r) = rf /\
  sa_sized (fst (snd r)) /\
  sensors (fst (snd r)) = sensors sa /\
  continuous_mode (fst (snd r)) = continuous_mode sa.
Proof.
  intros Hsz Hq.
  assert (Hne : buffer_head sa <> buffer_tail sa).
  { intros E. apply (ring_empty_iff sa Hsz) in E. congruence. }
  cbv zeta. unfold sensor_buffer_pop. rewrite (proj2 (Z.eqb_neq _ _)) by exact Hne.
  cbn [fst snd].
  pose proof Hsz as (Hls & Hlb & Hh & Ht).
  set (n := (buffer_head sa - buffer_tail sa) mod SENSOR_BUFFER_SIZE) in *.
  pose proof (ring_count_bounds sa) as Hb. fold n in Hb.
  assert (Hlen : length (ring_contents sa) = S (length q)) by (rewrite Hq; reflexivity).
  rewrite ring_contents_length in Hlen. fold n in Hlen.
  unfold SENSOR_BUFFER_SIZE in *.
  assert (Hn' : (buffer_head sa - (buffer_tail sa + 1) mod 16) mod 16 = n - 1).
  { rewrite Zminus_mod_idemp_r.
    replace (buffer_head sa - (buffer_tail sa + 1))
      with (buffer_head sa - buffer_tail sa - 1) by lia.
    rewrite <- Zminus_mod_idemp_l. fold n. apply Z.mod_small. lia. }
  unfold ring_contents, SENSOR_BUFFER_SIZE in Hq. fold n in Hq.
  replace (Z.to_nat n) with (S (length q)) in Hq by lia.
  cbn [seq map] in Hq. injection Hq as Hx Hrest.
  split; [reflexivity |]. split; [| split; [| split; [reflexivity | split]]].
  - f_equal. rewrite <- Hx. rewrite Z.add_0_r, Z.mod_small by lia. reflexivity.
  - unfold ring_contents. cbn [buffer buffer_head buffer_tail set_buffer_tail].
    unfold SENSOR_BUFFER_SIZE. rewrite Hn'.
    replace (Z.to_nat (n - 1)) with (length q) by lia.
    rewrite <- Hrest at 2. rewrite <- seq_shift, map_map.
    apply map_ext. intros j. rewrite Zplus_mod_idemp_l.
    rewrite Nat2Z.inj_succ.
    replace (buffer_tail sa + 1 + Z.of_nat j)
      with (buffer_tail sa + Z.succ (Z.of_nat j)) by lia.
    reflexivity.
  - unfold sa_sized. cbn [sensors buffer buffer_head buffer_tail set_buffer_tail].
    pose proof (Z.mod_pos_bound (buffer_tail sa + 1) 16 ltac:(lia)).
    unfold SENSOR_BUFFER_SIZE. auto.
  - split; reflexivity.
Qed.

End RingQueue.

(** X14: the ring is a first-in first-out queue of at most 15 samples, the
    slots from the tail up to the head.  [sensor_buffer_count] is the number
    of samples.  With fewer than 15 samples a push returns 0 and adds its
    value at the end; with 15 it returns -2, only sets the OVERFLOW bit and
    drops the value.  From an empty ring a pop returns -2 and stores
    nothing; otherwise it returns 0 and removes the oldest sample, which it
    stores through its pointer.  Neither touches the sensors, and a push or
    pop that succeeds leaves the registers alone. *)
Theorem ring_is_fifo sa rf v :
  sa_sized sa ->
  let q := ring_contents sa in
  let pushed := sensor_buffer_push (sa, rf) v in
  let popped := sensor_buffer_pop (sa, rf) in
  sensor_buffer_count (sa, rf) = Z.of_nat (length q) /\
  (length q <= 15)%nat /\
  ((length q < 15)%nat ->
   fst pushed = 0 /\ ring_contents (fst (snd pushed)) = q ++ [v] /\
   snd (snd pushed) = rf /\ sa_sized (fst (snd pushed)) /\
   sensors (fst (snd pushed)) = sensors sa) /\
  (length q = 15%nat ->
   pushed = (-2, (sa, reg_set_bits rf REG_SENSOR_STATUS SENSOR_STATUS_OVERFLOW))) /\
  (q = [] -> popped = (-2, None, (sa, rf))) /\
  (forall x q', q = x :: q' ->
   fst (fst popped) = 0 /\ snd (fst popped) = Some x /\
   ring_contents (fst (snd popped)) = q' /\
   snd (snd popped) = rf /\ sa_sized (fst (snd popped)) /\
   sensors (fst (snd popped)) = sensors sa).
Proof.
  intros Hsz q pushed popped.
  destruct (sensor_buffer_count_contents sa rf Hsz) as [Hcount Hmax].
  split; [exact Hcount |]. split; [exact Hmax |].
  split; [| split; [| split]].
  - intros Hroom.
    destruct (ring_push_contents sa rf v Hsz Hroom) as (H1 & H2 & H3 & H4 & H5 & _).
    auto.
  - intros Hfull. apply sensor_buffer_push_full, (ring_full_iff sa Hsz), Hfull.
  - intros Hempty. apply (ring_empty_iff sa Hsz) in Hempty.
    unfold popped, sensor_buffer_pop. rewrite (proj2 (Z.eqb_eq _ _)) by exact Hempty.
    reflexivity.
  - intros x q' Hq.
    destruct (ring_pop_contents sa rf x q' Hsz Hq) as (H1 & H2 & H3 & H4 & H5 & H6 & _).
    auto 7.
Qed.

Lemma ring_is_fifo_witness :
  ring_contents (fst (snd (sensor_buffer_push (fst sensors_initial, snd sensors_initial) 42)))
  = ring_contents (fst sensors_initial) ++ [42].
Proof.
  destruct sensors_initial_sized as [Hsa _].
  destruct (ring_is_fifo (fst sensors_initial) (snd sensors_initial) 42 Hsa)
    as (_ & _ & Hpush & _).
  apply Hpush. vm_compute. lia.
Defined.

Lemma sensor_buffer_push_all_contents vs : forall sa rf,
  sa_sized sa ->
  (length (ring_contents sa) + length vs <= 15)%nat ->
  let r := sensor_buffer_push_all (sa, rf) vs in
  fst r = replicate (length vs) 0 /\
  ring_contents (fst (snd r)) = ring_contents sa ++ vs /\
  snd (snd r) = rf /\
  sa_sized (fst (snd r)) /\
  sensors (fst (snd r)) = sensors sa.
Proof.
  induction vs as [| v vs IH]; intros sa rf Hsz Hroom.
  - cbv zeta. cbn [sensor_buffer_push_all fst snd length replicate].
    rewrite app_nil_r. auto.
  - cbn [length] in Hroom.
    destruct (ring_push_contents sa rf v Hsz ltac:(lia)) as (H1 & H2 & H3 & H4 & H5 & _).
    cbv zeta. cbn [sensor_buffer_push_all].
    destruct (sensor_buffer_push (sa, rf) v) as [r [sa1 rf1]].
    cbn [fst snd] in H1, H2, H3, H4, H5. subst r rf1.
    specialize (IH sa1 rf H4). rewrite H2, length_app in IH. cbn [length] in IH.
    specialize (IH ltac:(lia)). cbv zeta in IH.
    destruct (sensor_buffer_push_all (sa1, rf) vs) as [rs [sa2 rf2]].
    cbn [fst snd] in IH |- *. destruct IH as (I1 & I2 & I3 & I4 & I5).
    split; [rewrite I1; reflexivity |].
    split; [rewrite I2, <- app_assoc; reflexivity |].
    split; [exact I3 |]. split; [exact I4 | congruence].
Qed.

Lemma sensor_buffer_pop_n_contents q : forall sa rf,
  sa_sized sa -> ring_contents sa = q ->
  let r := sensor_buffer_pop_n (length q) (sa, rf) in
  fst r = map (fun x => (0, Some x)) q /\
  ring_contents (fst (snd r)) = [] /\
  snd (snd r) = rf /\
  sa_sized (fst (snd r)) /\
  sensors (fst (snd r)) = sensors sa.
Proof.
  induction q as [| x q IH]; intros sa rf Hsz Hq.
  - cbv zeta. cbn [sensor_buffer_pop_n length fst snd map]. auto.
  - destruct (ring_pop_contents sa rf x q Hsz Hq) as (H1 & H2 & H3 & H4 & H5 & H6 & _).
    cbv zeta. cbn [sensor_buffer_pop_n length].
    destruct (sensor_buffer_pop (sa, rf)) as [[r v] [sa1 rf1]].
    cbn [fst snd] in H1, H2, H3, H4, H5, H6. subst r v rf1.
    specialize (IH sa1 rf H5 H3). cbv zeta in IH.
    destruct (sensor_buffer_pop_n (length q) (sa1, rf)) as [rs [sa2 rf2]].
    cbn [fst snd] in IH |- *. destruct IH as (I1 & I2 & I3 & I4 & I5).
    split; [rewrite I1; reflexivity |].
    split; [exact I2 |]. split; [exact I3 |]. split; [exact I4 | congruence].
Qed.

(** X15: round trip through the ring.  When the samples in the ring and the
    values pushed are at most 15 together, every push returns 0, and popping
    as many times as there are samples then returns 0 each time and yields
    the old samples followed by the values pushed, in their order; the ring
    is empty afterwards, so one more pop returns -2.  The registers are not
    touched. *)
Theorem ring_round_trip sa rf vs :
  sa_sized sa ->
  (length (ring_contents sa) + length vs <= 15)%nat ->
  let pushed := sensor_buffer_push_all (sa, rf) vs in
  let popped := sensor_buffer_pop_n (length (ring_contents sa) + length vs) (snd pushed) in
  fst pushed = replicate (length vs) 0 /\
  fst popped = map (fun x => (0, Some x)) (ring_contents sa ++ vs) /\
  sensor_buffer_count (snd popped) = 0 /\
  sensor_buffer_pop (snd popped) = (-2, None, snd popped) /\
  snd (snd popped) = rf.
Proof.
  intros Hsz Hroom pushed popped.
  destruct (sensor_buffer_push_all_contents vs sa rf Hsz Hroom) as (H1 & H2 & H3 & H4 & _).
  fold pushed in H1, H2, H3, H4.
  assert (Hpop := sensor_buffer_pop_n_contents (ring_contents sa ++ vs)
                    (fst (snd pushed)) (snd (snd pushed)) H4 H2).
  cbv zeta in Hpop. rewrite length_app in Hpop.
  replace (fst (snd pushed), snd (snd pushed)) with (snd pushed) in Hpop
    by (destruct (snd pushed); reflexivity).
  fold popped in Hpop. destruct Hpop as (P1 & P2 & P3 & P4 & _).
  split; [exact H1 |]. split; [exact P1 |].
  destruct (snd popped) as [sa' rf'] eqn:E. cbn [fst snd] in P2, P3, P4 |- *.
  split; [| split].
  - destruct (sensor_buffer_count_contents sa' rf' P4) as [-> _]. rewrite P2. reflexivity.
  - apply (ring_empty_iff sa' P4) in P2.
    unfold sensor_buffer_pop. rewrite (proj2 (Z.eqb_eq _ _)) by exact P2. reflexivity.
  - rewrite P3. exact H3.
Qed.

Lemma ring_round_trip_witness :
  fst (sensor_buffer_pop_n
         (length (ring_contents (fst sensors_initial)) + length [7; -3; 125])
         (snd (sensor_buffer_push_all (fst sensors_initial, snd sensors_initial)
                 [7; -3; 125])))
  = map (fun x => (0, Some x)) (ring_contents (fst sensors_initial) ++ [7; -3; 125]).
Proof.
  destruct sensors_initial_sized as [Hsa _].
  destruct (ring_round_trip (fst sensors_initial) (snd sensors_initial) [7; -3; 125] Hsa)
    as (_ & H & _).
  - vm_compute. lia.
  - exact H.
Defined.

(** X16: [sensor_buffer_clear] empties the ring, whatever it held: the count
    is 0 and a pop returns -2.  It clears the OVERFLOW bit of SENSOR_STATUS,
    keeps the other bits of that register and does not touch the sensors. *)
Theorem sensor_buffer_clear_empties sa rf :
  sa_sized sa -> rf_sized rf -> rf_words rf ->
  let hw := sensor_buffer_clear (sa, rf) in
  sa_sized (fst hw) /\
  ring_contents (fst hw) = [] /\
  sensor_buffer_count hw = 0 /\
  fst (fst (sensor_buffer_pop hw)) = -2 /\
  sensors (fst hw) = sensors sa /\
  (forall i, 0 <= i ->
     Z.testbit (reg_read (snd hw) REG_SENSOR_STATUS) i
     = if i =? 1 then false else Z.testbit (reg_read rf REG_SENSOR_STATUS) i).
Proof.
  intros (Hls & Hlb & _ & _) Hs Hw hw. subst hw. unfold sensor_buffer_clear.
  cbn [fst snd].
  split; [repeat split; (assumption || discriminate || reflexivity) |].
  split; [reflexivity |]. split; [reflexivity |]. split; [reflexivity |].
  split; [reflexivity |].
  intros i Hi. reg_simpl. rewrite Z.land_spec, not32_spec by exact Hi.
  unfold SENSOR_STATUS_OVERFLOW. rewrite bit_mask_testbit by lia.
  rewrite (Z.eqb_sym 1 i).
  destruct (Z.eqb_spec i 1) as [E | Hne]; cbn [negb];
    rewrite ?andb_false_l, ?andb_false_r, ?andb_true_l; [reflexivity |].
  destruct (Z.ltb_spec i 32) as [_ | Hge]; [apply andb_true_r |].
  rewrite uint32_testbit_high by (try apply reg_read_words; assumption).
  reflexivity.
Qed.

Lemma sensors_overflowed_facts :
  sa_sized (fst sensors_overflowed) /\ rf_sized (snd sensors_overflowed) /\
  rf_words (snd sensors_overflowed) /\
  length (ring_contents (fst sensors_overflowed)) = 15%nat /\
  Z.testbit (reg_read (snd sensors_overflowed) REG_SENSOR_STATUS) 1 = true.
Proof.
  assert (E : sensors_overflowed =
              ({| sensors := sensors (fst sensors_initial);
                  buffer := map Z.of_nat (seq 0 15) ++ [0];
                  buffer_head := 15; buffer_tail := 0; continuous_mode := false |},
               {| regs := [0; 0; 0; 0; 0; 0; 2; 0; 0] |}))
    by (vm_compute; reflexivity).
  rewrite E. cbn [fst snd].
  split; [repeat split; discriminate |]. split; [reflexivity |].
  split; [| split; vm_compute; reflexivity].
  unfold rf_words. cbn [regs]. repeat constructor; discriminate.
Qed.

Lemma sensor_buffer_clear_empties_witness :
  ring_contents (fst (sensor_buffer_clear (fst sensors_overflowed, snd sensors_overflowed)))
  = [] /\
  Z.testbit (reg_read (snd (sensor_buffer_clear
                              (fst sensors_overflowed, snd sensors_overflowed)))
                      REG_SENSOR_STATUS) 1 = false.
Proof.
  destruct sensors_overflowed_facts as (Hsa & Hs & Hw & _).
  destruct (sensor_buffer_clear_empties (fst sensors_overflowed) (snd sensors_overflowed)
              Hsa Hs Hw) as (_ & Hq & _ & _ & _ & Hbits).
  split; [exact Hq |]. apply (Hbits 1). lia.
Defined.

(** ** Sensor channels: enabling, triggering, sampling *)

Lemma clamp_in_range lo hi v : lo <= hi -> lo <= clamp lo hi v <= hi.
Proof.
  intros H. unfold clamp. cbv zeta. rewrite Z.gtb_ltb.
  destruct (Z.ltb_spec v lo); [destruct (Z.ltb_spec hi lo) | destruct (Z.ltb_spec hi v)];
    lia.
Qed.

Lemma clamp_id lo hi v : lo <= v <= hi -> clamp lo hi v = v.
Proof.
  intros H. unfold clamp. cbv zeta. rewrite Z.gtb_ltb.
  destruct (Z.ltb_spec v lo); [lia |]. destruct (Z.ltb_spec hi v); lia.
Qed.

Lemma sensor_at_set_sensors_map (f : sensor_t -> sensor_t) sa i :
  (i < length (sensors sa))%nat ->
  sensor_at (set_sensors sa (map f (sensors sa))) i = f (sensor_at sa i).
Proof.
  intros Hi. unfold sensor_at. cbn [sensors set_sensors].
  change (map f (sensors sa)) with (f <$> sensors sa).
  rewrite list_lookup_fmap.
  destruct (lookup_lt_is_Some_2 (sensors sa) i Hi) as [s E]. rewrite E. reflexivity.
Qed.

(** [sensor_array_enable] and [sensor_array_disable] set the state of every
    channel. *)
Lemma sensor_array_enable_map sa rf :
  length (sensors sa) = Z.to_nat SENSOR_COUNT ->
  sensor_array_enable (sa, rf) =
  (0, (set_sensors sa (map (fun s => set_sstate s SENSOR_STATE_IDLE) (sensors sa)),
       reg_set_bits (reg_set_bits rf REG_SENSOR_CTRL SENSOR_CTRL_ENABLE)
                    REG_SENSOR_STATUS SENSOR_STATUS_READY)).
Proof.
  intros Hlen. unfold sensor_array_enable. do 2 f_equal.
  apply for_each_sensor_map; [exact Hlen | reflexivity].
Qed.

Lemma sensor_array_disable_map sa rf :
  length (sensors sa) = Z.to_nat SENSOR_COUNT ->
  sensor_array_disable (sa, rf) =
  (0, (set_sensors sa (map (fun s => set_sstate s SENSOR_STATE_DISABLED) (sensors sa)),
       reg_clear_bits (reg_clear_bits rf REG_SENSOR_CTRL SENSOR_CTRL_ENABLE)
                      REG_SENSOR_STATUS SENSOR_STATUS_READY)).
Proof.
  intros Hlen. unfold sensor_array_disable. do 2 f_equal.
  apply for_each_sensor_map; [exact Hlen | reflexivity].
Qed.

(** X17: [sensor_array_enable] returns 0 and puts every channel in the idle
    state, keeping its value, range and counter; it sets the enable bit of
    SENSOR_CTRL and the ready bit of SENSOR_STATUS, so that [sensor_is_ready]
    holds and a following [sensor_array_trigger] returns 0.
    [sensor_array_disable] returns 0, puts every channel in the disabled
    state and clears both bits, so that a following [sensor_array_trigger]
    returns -2 and changes nothing. *)
Theorem sensor_enable_disable sa rf :
  sa_sized sa -> rf_sized rf ->
  let on := sensor_array_enable (sa, rf) in
  let off := sensor_array_disable (sa, rf) in
  (fst on = 0 /\
   (forall i, (i < 4)%nat ->
      sensor_at (fst (snd on)) i = set_sstate (sensor_at sa i) SENSOR_STATE_IDLE) /\
   sensor_is_ready (snd on) = true /\
   fst (sensor_array_trigger (snd on)) = 0) /\
  (fst off = 0 /\
   (forall i, (i < 4)%nat ->
      sensor_at (fst (snd off)) i = set_sstate (sensor_at sa i) SENSOR_STATE_DISABLED) /\
   sensor_is_ready (snd off) = false /\
   sensor_array_trigger (snd off) = (-2, snd off)).
Proof.
  intros Hsz Hs on off. pose proof Hsz as (Hlen & _).
  subst on off. rewrite sensor_array_enable_map, sensor_array_disable_map by exact Hlen.
  cbn [fst snd]. split.
  - split; [reflexivity |]. split; [| split].
    + intros i Hi. apply sensor_at_set_sensors_map. rewrite Hlen. exact Hi.
    + unfold sensor_is_ready. cbn [snd]. reg_simpl.
      unfold SENSOR_STATUS_READY. rewrite land_bit_test, Z.lor_spec by lia.
      apply orb_true_r.
    + unfold sensor_array_trigger. reg_simpl.
      replace (Z.land (Z.lor (reg_read rf REG_SENSOR_CTRL) SENSOR_CTRL_ENABLE)
                 SENSOR_CTRL_ENABLE =? 0) with false; [reflexivity |].
      symmetry. apply negb_true_iff. unfold SENSOR_CTRL_ENABLE.
      rewrite land_bit_test, Z.lor_spec by lia. apply orb_true_r.
  - split; [reflexivity |]. split; [| split].
    + intros i Hi. apply sensor_at_set_sensors_map. rewrite Hlen. exact Hi.
    + unfold sensor_is_ready. cbn [snd]. reg_simpl.
      unfold SENSOR_STATUS_READY. rewrite land_bit_test, Z.land_spec, not32_spec by lia.
      apply andb_false_r.
    + unfold sensor_array_trigger. reg_simpl.
      replace (Z.land (Z.land (reg_read rf REG_SENSOR_CTRL) (not32 SENSOR_CTRL_ENABLE))
                 SENSOR_CTRL_ENABLE =? 0) with true; [reflexivity |].
      symmetry. apply negb_false_iff. unfold SENSOR_CTRL_ENABLE.
      rewrite land_bit_test, Z.land_spec, not32_spec by lia. apply andb_false_r.
Qed.

Lemma sensor_enable_disable_witness :
  fst (sensor_array_trigger
         (snd (sensor_array_enable (fst sensors_initial, snd sensors_initial)))) = 0 /\
  fst (sensor_array_trigger
         (snd (sensor_array_disable (fst sensors_initial, snd sensors_initial)))) = -2.
Proof.
  destruct sensors_initial_sized as [Hsa Hrf].
  destruct (sensor_enable_disable (fst sensors_initial) (snd sensors_initial) Hsa Hrf)
    as [(_ & _ & _ & Hon) (_ & _ & _ & Hoff)].
  split; [exact Hon |]. rewrite Hoff. reflexivity.
Defined.

(** X18: [sensor_array_trigger] is gated by the enable bit of SENSOR_CTRL.
    With the bit clear it returns -2 and changes nothing.  With the bit set
    it returns 0, sets the trigger bit, and moves every idle channel to the
    sampling state with its sample counter increased by one (modulo 2^32);
    channels in any other state, all values and the ring are left as they
    are. *)
Theorem sensor_trigger_gated sa rf :
  sa_sized sa -> rf_sized rf ->
  let r := sensor_array_trigger (sa, rf) in
  (Z.testbit (reg_read rf REG_SENSOR_CTRL) 0 = false -> r = (-2, (sa, rf))) /\
  (Z.testbit (reg_read rf REG_SENSOR_CTRL) 0 = true ->
   fst r = 0 /\
   Z.testbit (reg_read (snd (snd r)) REG_SENSOR_CTRL) 2 = true /\
   ring_contents (fst (snd r)) = ring_contents sa /\
   continuous_mode (fst (snd r)) = continuous_mode sa /\
   forall i, (i < 4)%nat ->
     let s := sensor_at sa i in
     let s' := sensor_at (fst (snd r)) i in
     value s' = value s /\ min_value s' = min_value s /\ max_value s' = max_value s /\
     (sstate s = SENSOR_STATE_IDLE ->
      sstate s' = SENSOR_STATE_SAMPLING /\
      sample_count s' = (sample_count s + 1) mod 2 ^ 32) /\
     (sstate s <> SENSOR_STATE_IDLE -> s' = s)).
Proof.
  intros Hsz Hs r. pose proof Hsz as (Hlen & _). split.
  - intros Hoff. subst r. unfold sensor_array_trigger.
    rewrite <- (land_bit_test _ 0) in Hoff by lia. apply negb_false_iff in Hoff.
    change (Z.shiftl 1 0) with SENSOR_CTRL_ENABLE in Hoff. rewrite Hoff. reflexivity.
  - intros Hon. subst r. rewrite sensor_array_trigger_enabled; [| exact Hlen |].
    + cbn [fst snd]. split; [reflexivity |]. split; [| split; [reflexivity |]].
      * reg_simpl. rewrite Z.lor_spec. apply orb_true_r.
      * split; [reflexivity |]. intros i Hi. cbv zeta.
        rewrite sensor_at_set_sensors_map by (rewrite Hlen; exact Hi).
        unfold trigger_channel.
        destruct (sstate (sensor_at sa i)) eqn:E; cbn [sensor_state_eqb];
          cbn [value min_value max_value sstate sample_count set_sstate set_sample_count];
          rewrite ?E; repeat split; try congruence; try discriminate.
    + rewrite <- (land_bit_test _ 0) in Hon by lia. apply negb_true_iff in Hon.
      apply Z.eqb_neq in Hon. exact Hon.
Qed.

(** Replaces a closed term by its value. *)
Ltac evaluated t :=
  let v := eval vm_compute in t in
  let E := fresh "E" in
  assert (E : t = v) by (vm_compute; reflexivity);
  rewrite E; clear E.

Lemma sensors_enabled_facts :
  sa_sized (fst sensors_enabled) /\ rf_sized (snd sensors_enabled) /\
  continuous_mode (fst sensors_enabled) = false /\
  Z.testbit (reg_read (snd sensors_enabled) REG_SENSOR_CTRL) 0 = true /\
  Z.testbit (reg_read (snd sensors_enabled) REG_SENSOR_STATUS) 0 = true /\
  ring_contents (fst sensors_enabled) = [].
Proof.
  evaluated sensors_enabled. cbn [fst snd].
  split; [repeat split; discriminate |]. split; [reflexivity |].
  repeat split.
Qed.

Lemma sensor_trigger_gated_witness :
  fst (sensor_array_trigger (fst sensors_enabled, snd sensors_enabled)) = 0.
Proof.
  destruct sensors_enabled_facts as (Hsa & Hrf & _ & Hen & _).
  destruct (sensor_trigger_gated (fst sensors_enabled) (snd sensors_enabled) Hsa Hrf)
    as [_ Hon].
  apply Hon, Hen.
Defined.

(** X19: [sensor_array_update] outside continuous mode.  It returns 0 and
    clears the trigger bit of SENSOR_CTRL.  Every channel in the sampling
    state becomes idle with its value clamped to its range, by the test
    against the minimum followed by the test against the maximum, so that
    the value lies in the range whenever the range is not empty and is kept
    when it already does; channels in another state, the ranges, the
    counters and the ring are left as they are. *)
Theorem sensor_update_clamps sa rf :
  sa_sized sa -> rf_sized rf ->
  continuous_mode sa = false ->
  let r := sensor_array_update (sa, rf) in
  fst r = 0 /\
  Z.testbit (reg_read (snd (snd r)) REG_SENSOR_CTRL) 2 = false /\
  ring_contents (fst (snd r)) = ring_contents sa /\
  buffer (fst (snd r)) = buffer sa /\
  forall i, (i < 4)%nat ->
    let s := sensor_at sa i in
    let s' := sensor_at (fst (snd r)) i in
    min_value s' = min_value s /\ max_value s' = max_value s /\
    sample_count s' = sample_count s /\
    (sstate s = SENSOR_STATE_SAMPLING ->
     sstate s' = SENSOR_STATE_IDLE /\
     value s' = clamp (min_value s) (max_value s) (value s) /\
     (min_value s <= max_value s -> min_value s <= value s' <= max_value s) /\
     (min_value s <= value s <= max_value s -> value s' = value s)) /\
    (sstate s <> SENSOR_STATE_SAMPLING -> s' = s).
Proof.
  intros Hsz Hs Hc r. pose proof Hsz as (Hlen & _). subst r.
  rewrite sensor_array_update_single_shot by assumption. cbn [fst snd].
  split; [reflexivity |]. split; [| split; [reflexivity | split; [reflexivity |]]].
  - reg_simpl. rewrite Z.land_spec, not32_spec by lia. apply andb_false_r.
  - intros i Hi. cbv zeta.
    rewrite sensor_at_set_sensors_map by (rewrite Hlen; exact Hi).
    unfold sample_channel.
    destruct (sstate (sensor_at sa i)) eqn:E; cbn [sensor_state_eqb];
      cbn [value min_value max_value sstate sample_count set_sstate set_value];
      rewrite ?E; repeat split; try congruence; try discriminate;
      intros; try (apply clamp_in_range; assumption);
      try (apply clamp_id; assumption).
Qed.

Lemma sensor_update_clamps_witness :
  let r := sensor_array_update
             (fst (snd (sensor_array_trigger sensors_enabled)),
              snd (snd (sensor_array_trigger sensors_enabled))) in
  value (sensor_at (fst (snd r)) 1) = 10000 /\
  value (sensor_at (fst (snd r)) 2) = -40.
Proof.
  evaluated (snd (sensor_array_trigger sensors_enabled)).
  cbv zeta. cbn [fst snd].
  match goal with
  | |- context [sensor_array_update (?a, ?b)] =>
      destruct (sensor_update_clamps a b) as (_ & _ & _ & _ & Hch)
  end.
  - repeat split; discriminate.
  - reflexivity.
  - reflexivity.
  - destruct (Hch 1%nat ltac:(lia)) as (_ & _ & _ & H1 & _).
    destruct (Hch 2%nat ltac:(lia)) as (_ & _ & _ & H2 & _).
    split.
    + apply H1. reflexivity.
    + apply H2. reflexivity.
Defined.

(** ** Sensor channels: continuous mode *)

Section Continuous.

Implicit Types (sa : sensor_array) (rf : register_file) (s : sensor_t) (i : nat).

(** The body of the loop of [sensor_array_update]: the channel is sampled
    and, in continuous mode, its value pushed. *)
Lemma update_channel_push sa rf i :
  (i < length (sensors sa))%nat ->
  update_channel (sa, rf) i =
  if sensor_state_eqb (sstate (sensor_at sa i)) SENSOR_STATE_SAMPLING then
    let sa' := put_sensor sa i (sample_channel (sensor_at sa i)) in
    if continuous_mode sa
    then snd (sensor_buffer_push (sa', rf) (value (sample_channel (sensor_at sa i))))
    else (sa', rf)
  else (sa, rf).
Proof.
  intros Hi. unfold update_channel, sample_channel.
  destruct (sensor_state_eqb (sstate (sensor_at sa i)) SENSOR_STATE_SAMPLING);
    [| reflexivity].
  rewrite sensor_at_put by exact Hi. cbn [value min_value max_value set_sstate].
  unfold clamp. cbv zeta.
  destruct (value (sensor_at sa i) <? min_value (sensor_at sa i)).
  - rewrite sensor_at_put by (rewrite put_sensor_length; exact Hi).
    cbn [value min_value max_value set_value set_sstate].
    destruct (min_value (sensor_at sa i) >? max_value (sensor_at sa i)).
    + rewrite !put_sensor_twice.
      rewrite sensor_at_put by exact Hi.
      cbn [continuous_mode put_sensor value set_value]. reflexivity.
    + rewrite !put_sensor_twice.
      rewrite sensor_at_put by exact Hi.
      cbn [continuous_mode put_sensor value set_value]. reflexivity.
  - rewrite sensor_at_put by exact Hi.
    cbn [value min_value max_value set_value set_sstate].
    destruct (value (sensor_at sa i) >? max_value (sensor_at sa i)).
    + rewrite !put_sensor_twice.
      rewrite sensor_at_put by exact Hi.
      cbn [continuous_mode put_sensor value set_value]. reflexivity.
    + rewrite sensor_at_put by exact Hi.
      cbn [continuous_mode put_sensor value set_value set_sstate].
      replace (set_value (set_sstate (sensor_at sa i) SENSOR_STATE_IDLE)
                 (value (sensor_at sa i)))
        with (set_sstate (sensor_at sa i) SENSOR_STATE_IDLE)
        by (destruct (sensor_at sa i); reflexivity).
      reflexivity.
Qed.

(** One iteration in continuous mode with room in the ring. *)
Lemma update_channel_continuous sa rf i :
  sa_sized sa -> continuous_mode sa = true ->
  (i < Z.to_nat SENSOR_COUNT)%nat ->
  (length (ring_contents sa) < 15)%nat ->
  let hw := update_channel (sa, rf) i in
  snd hw = rf /\
  sa_sized (fst hw) /\
  continuous_mode (fst hw) = true /\
  sensors (fst hw) = <[i := sample_channel (sensor_at sa i)]> (sensors sa) /\
  ring_contents (fst hw)
  = ring_contents sa ++ match sampled_value (sensor_at sa i) with
                        | Some v => [v]
                        | None => []
                        end.
Proof.
  intros Hsz Hc Hi Hroom. pose proof Hsz as (Hlen & Hlb & Hh & Ht).
  cbv zeta. rewrite update_channel_push by (rewrite Hlen; exact Hi).
  unfold sampled_value.
  destruct (sensor_state_eqb (sstate (sensor_at sa i)) SENSOR_STATE_SAMPLING) eqn:Est.
  - cbv zeta. rewrite Hc.
    set (sa' := put_sensor sa i (sample_channel (sensor_at sa i))).
    assert (Hsz' : sa_sized sa').
    { unfold sa_sized, sa'. cbn [put_sensor sensors buffer buffer_head buffer_tail].
      rewrite length_insert. auto. }
    destruct (ring_push_contents sa' rf (value (sample_channel (sensor_at sa i))) Hsz')
      as (_ & Hq & Hrf & Hsz'' & Hsens & Hcont); [exact Hroom |].
    split; [exact Hrf |]. split; [exact Hsz'' |].
    split; [rewrite Hcont; exact Hc |]. split; [rewrite Hsens; reflexivity |].
    rewrite Hq. unfold sample_channel. rewrite Est. reflexivity.
  - cbn [fst snd]. split; [reflexivity |]. split; [exact Hsz |].
    split; [exact Hc |]. split; [| rewrite app_nil_r; reflexivity].
    unfold sample_channel. rewrite Est.
    symmetry. apply list_insert_id. unfold sensor_at.
    destruct (lookup_lt_is_Some_2 (sensors sa) i) as [s E]; [rewrite Hlen; exact Hi |].
    rewrite E. reflexivity.
Qed.

Lemma sampled_value_length s :
  (length match sampled_value s with Some v => [v] | None => [] end <= 1)%nat.
Proof. destruct (sampled_value s); cbn [length]; lia. Qed.

(** The loop of [sensor_array_update] in continuous mode with room for four
    samples: every channel is sampled and the values of the sampling
    channels are pushed in the order of the channels. *)
Lemma update_loop_continuous sa rf :
  sa_sized sa -> continuous_mode sa = true ->
  (length (ring_contents sa) <= 11)%nat ->
  let hw := for_each_sensor update_channel (sa, rf) in
  snd hw = rf /\
  sa_sized (fst hw) /\
  continuous_mode (fst hw) = true /\
  sensors (fst hw) = map sample_channel (sensors sa) /\
  ring_contents (fst hw) = ring_contents sa ++ omap sampled_value (sensors sa).
Proof.
  intros Hsz Hc Hroom. pose proof Hsz as (Hlen & _).
  unfold for_each_sensor.
  change (seq 0 (Z.to_nat SENSOR_COUNT)) with [0; 1; 2; 3]%nat. cbn [foldl].
  destruct (update_channel_continuous sa rf 0 Hsz Hc) as (R0 & Z0 & C0 & S0 & Q0);
    [apply Nat2Z.inj_lt; reflexivity | lia |].
  destruct (update_channel (sa, rf) 0) as [sa0 rf0]. cbn [fst snd] in *. subst rf0.
  pose proof (sampled_value_length (sensor_at sa 0)) as L0.
  destruct (update_channel_continuous sa0 rf 1 Z0 C0) as (R1 & Z1 & C1 & S1 & Q1);
    [apply Nat2Z.inj_lt; reflexivity | rewrite Q0, length_app; lia |].
  destruct (update_channel (sa0, rf) 1) as [sa1 rf1]. cbn [fst snd] in *. subst rf1.
  pose proof (sampled_value_length (sensor_at sa0 1)) as L1.
  destruct (update_channel_continuous sa1 rf 2 Z1 C1) as (R2 & Z2 & C2 & S2 & Q2);
    [apply Nat2Z.inj_lt; reflexivity | rewrite Q1, Q0, !length_app; lia |].
  destruct (update_channel (sa1, rf) 2) as [sa2 rf2]. cbn [fst snd] in *. subst rf2.
  pose proof (sampled_value_length (sensor_at sa1 2)) as L2.
  destruct (update_channel_continuous sa2 rf 3 Z2 C2) as (R3 & Z3 & C3 & S3 & Q3);
    [apply Nat2Z.inj_lt; reflexivity | rewrite Q2, Q1, Q0, !length_app; lia |].
  destruct (update_channel (sa2, rf) 3) as [sa3 rf3]. cbn [fst snd] in *. subst rf3.
  split; [reflexivity |]. split; [exact Z3 |]. split; [exact C3 |].
  clear L0 L1 L2 Z0 Z1 Z2 Z3 C0 C1 C2 C3 Hsz Hc Hroom.
  unfold sensor_at in *.
  destruct sa as [l b h t c]. cbn [sensors] in *.
  destruct l as [| s0 [| s1 [| s2 [| s3 [| s4 l]]]]]; try discriminate Hlen.
  cbn [lookup list_lookup insert list_insert default from_option id] in S0, Q0.
  rewrite S0 in S1, Q1.
  cbn [lookup list_lookup insert list_insert default from_option id] in S1, Q1.
  rewrite S1 in S2, Q2.
  cbn [lookup list_lookup insert list_insert default from_option id] in S2, Q2.
  rewrite S2 in S3, Q3.
  cbn [lookup list_lookup insert list_insert default from_option id] in S3, Q3.
  unfold id in *.
  rewrite Q3, Q2, Q1, Q0, S3.
  cbn [map omap list_omap].
  split; [reflexivity |].
  rewrite <- !app_assoc. f_equal.
  destruct (sampled_value s0), (sampled_value s1), (sampled_value s2), (sampled_value s3);
    reflexivity.
Qed.

End Continuous.

Lemma land_clear_trigger_enable w :
  Z.land (Z.land w (not32 SENSOR_CTRL_TRIGGER)) SENSOR_CTRL_ENABLE
  = Z.land w SENSOR_CTRL_ENABLE.
Proof. rewrite <- Z.land_assoc. reflexivity. Qed.

(** X20: [sensor_array_update] in continuous mode with room for four more
    samples in the ring returns 0 and appends to the ring the clamped values
    of the channels in the sampling state, in the order of the channels.
    When the array is ready and enabled it then triggers again: the
    trigger bit of SENSOR_CTRL is set and every sampled channel is back in
    the sampling state with its sample counter incremented; otherwise
    the trigger bit is clear and the sampled channels are idle. *)
Theorem sensor_update_continuous sa rf :
  sa_sized sa -> rf_sized rf ->
  continuous_mode sa = true ->
  (length (ring_contents sa) <= 11)%nat ->
  let r := sensor_array_update (sa, rf) in
  let rearm := sensor_is_ready (sa, rf)
               && negb (Z.land (reg_read rf REG_SENSOR_CTRL) SENSOR_CTRL_ENABLE =? 0) in
  fst r = 0 /\
  ring_contents (fst (snd r)) = ring_contents sa ++ omap sampled_value (sensors sa) /\
  sensors (fst (snd r))
  = (if rearm then map trigger_channel (map sample_channel (sensors sa))
     else map sample_channel (sensors sa)) /\
  Z.testbit (reg_read (snd (snd r)) REG_SENSOR_CTRL) 2 = rearm /\
  forall i, (i < 4)%nat ->
    sstate (sensor_at sa i) = SENSOR_STATE_SAMPLING ->
    let s' := sensor_at (fst (snd r)) i in
    value s' = clamp (min_value (sensor_at sa i)) (max_value (sensor_at sa i))
                 (value (sensor_at sa i)) /\
    sstate s' = (if rearm then SENSOR_STATE_SAMPLING else SENSOR_STATE_IDLE) /\
    sample_count s' = (if rearm then add32 (sample_count (sensor_at sa i)) 1
                       else sample_count (sensor_at sa i)).
Proof.
  intros Hsz Hs Hc Hroom. pose proof Hsz as (Hlen & _).
  destruct (update_loop_continuous sa rf Hsz Hc Hroom) as (Hrf & Hsz1 & Hc1 & Hs1 & Hq1).
  cbv zeta. unfold sensor_array_update.
  destruct (for_each_sensor update_channel (sa, rf)) as [sa1 rf1].
  cbn [fst snd] in *. subst rf1. rewrite Hc1. cbn [andb].
  pose proof Hsz1 as (Hlen1 & _).
  assert (Hready : sensor_is_ready
                     (sa1, reg_clear_bits rf REG_SENSOR_CTRL SENSOR_CTRL_TRIGGER)
                   = sensor_is_ready (sa, rf)).
  { unfold sensor_is_ready. cbn [snd]. reg_simpl. reflexivity. }
  rewrite Hready.
  assert (Hsample : forall i, (i < 4)%nat ->
            sensor_at sa1 i = sample_channel (sensor_at sa i)).
  { intros i Hi. unfold sensor_at. rewrite Hs1.
    change (map sample_channel (sensors sa)) with (sample_channel <$> sensors sa).
    rewrite list_lookup_fmap.
    destruct (lookup_lt_is_Some_2 (sensors sa) i) as [s E];
      [rewrite Hlen; exact Hi |].
    rewrite E. reflexivity. }
  destruct (sensor_is_ready (sa, rf)); cbn [andb].
  - destruct (Z.eqb_spec (Z.land (reg_read rf REG_SENSOR_CTRL) SENSOR_CTRL_ENABLE) 0)
      as [Hen | Hen]; cbn [negb].
    + assert (Htr : sensor_array_trigger
                      (sa1, reg_clear_bits rf REG_SENSOR_CTRL SENSOR_CTRL_TRIGGER)
                    = (-2, (sa1, reg_clear_bits rf REG_SENSOR_CTRL SENSOR_CTRL_TRIGGER))).
      { unfold sensor_array_trigger. reg_simpl.
        rewrite land_clear_trigger_enable, Hen. reflexivity. }
      rewrite Htr. cbn [fst snd].
      split; [reflexivity |]. split; [exact Hq1 |]. split; [exact Hs1 |].
      split.
      * reg_simpl. rewrite Z.land_spec, not32_spec by lia. apply andb_false_r.
      * intros i Hi Est. rewrite Hsample by exact Hi.
        unfold sample_channel. rewrite Est. cbn [sensor_state_eqb].
        cbn [value sstate sample_count set_sstate set_value]. auto.
    + rewrite sensor_array_trigger_enabled
        by (try exact Hlen1; reg_simpl; rewrite land_clear_trigger_enable; exact Hen).
      cbn [fst snd].
      split; [reflexivity |]. split; [exact Hq1 |].
      split; [cbn [set_sensors sensors]; rewrite Hs1; reflexivity |].
      split.
      * reg_simpl. rewrite Z.lor_spec. apply orb_true_r.
      * intros i Hi Est.
        rewrite sensor_at_set_sensors_map by (rewrite Hlen1; exact Hi).
        rewrite Hsample by exact Hi.
        unfold sample_channel. rewrite Est. cbn [sensor_state_eqb].
        unfold trigger_channel.
        cbn [value sstate sample_count set_sstate set_value set_sample_count
             sensor_state_eqb]. auto.
  - cbn [fst snd].
    split; [reflexivity |]. split; [exact Hq1 |]. split; [exact Hs1 |].
    split.
    * reg_simpl. rewrite Z.land_spec, not32_spec by lia. apply andb_false_r.
    * intros i Hi Est. rewrite Hsample by exact Hi.
      unfold sample_channel. rewrite Est. cbn [sensor_state_eqb].
      cbn [value sstate sample_count set_sstate set_value]. auto.
Qed.

Lemma sensors_streaming_facts :
  sa_sized (fst sensors_streaming) /\ rf_sized (snd sensors_streaming) /\
  continuous_mode (fst sensors_streaming) = true /\
  (length (ring_contents (fst sensors_streaming)) <= 11)%nat /\
  omap sampled_value (sensors (fst sensors_streaming)) = [100; 10000; -40; 2500] /\
  ring_contents (fst sensors_streaming) = [].
Proof.
  evaluated sensors_streaming. cbn [fst snd].
  split; [repeat split; discriminate |]. split; [reflexivity |].
  split; [reflexivity |]. split; [vm_compute; lia |].
  split; reflexivity.
Qed.

Lemma sensor_update_continuous_witness :
  ring_contents
    (fst (snd (sensor_array_update (fst sensors_streaming, snd sensors_streaming))))
  = [100; 10000; -40; 2500].
Proof.
  destruct sensors_streaming_facts as (Hsz & Hs & Hc & Hroom & Hv & Hq).
  destruct (sensor_update_continuous (fst sensors_streaming) (snd sensors_streaming)
              Hsz Hs Hc Hroom) as (_ & Hring & _).
  rewrite Hring, Hq, Hv. reflexivity.
Defined.

(** ** Interrupt controller: shadow registers *)

(** Projections of an interrupt controller after field updates. *)
Ltac ic_simpl :=
  cbn [ic ic_regs g_irq_controller with_ic with_regs with_global
       handlers handler_contexts pending_irqs enabled_irqs signal_received
       set_handlers set_handler_contexts set_pending_irqs set_enabled_irqs
       set_signal_received fst snd].

Section Shadow.

Context {W : Type}.
Variable call : Z -> Z -> Z -> irq_machine * W -> irq_machine * W.

(** A property of the program state that every handler call keeps is kept
    by the dispatch loop. *)
Lemma dispatch_loop_invariant (P : irq_machine * W -> Prop) :
  (forall h source context mw, P mw -> P (call h source context mw)) ->
  forall l st, P (snd st) -> P (snd (foldl (dispatch_one call) st l)).
Proof.
  intros Hcall. induction l as [| i l IH]; intros st Hst; [exact Hst |].
  cbn [foldl]. apply IH.
  destruct st as [[processed made] mw]. rewrite dispatch_one_due.
  destruct (pending_handler (ic (fst mw)) i); cbn [snd] in *; auto.
Qed.

Lemma irq_trigger_shadowed m source :
  irq_shadowed m -> irq_shadowed (irq_trigger m source).
Proof.
  intros (Hs & Hp & He). unfold irq_trigger.
  destruct (Z.leb_spec INT_COUNT source); [repeat split; assumption |].
  destruct (irq_bit_set (enabled_irqs (ic m)) source); [| repeat split; assumption].
  unfold irq_shadowed. ic_simpl.
  split; [reg_sized |]. split.
  - reg_simpl. rewrite Hp. reflexivity.
  - reg_simpl. exact He.
Qed.

Lemma irq_consume_latch_shadowed m :
  irq_shadowed m -> irq_shadowed (irq_consume_latch m).
Proof.
  intros H. unfold irq_consume_latch.
  destruct (negb (signal_received (ic m) =? 0)); [| exact H].
  apply irq_trigger_shadowed. exact H.
Qed.

Hypothesis quiet : handlers_keep_irq_state call.

Lemma irq_process_pending_shadowed m w :
  irq_shadowed m -> irq_shadowed (fst (snd (irq_process_pending call (m, w)))).
Proof.
  intros H. apply irq_consume_latch_shadowed in H.
  unfold irq_process_pending.
  set (m0 := irq_consume_latch m) in *.
  pose proof (dispatch_loop_invariant
                (fun mw => rf_sized (ic_regs (fst mw)) /\
                           reg_read (ic_regs (fst mw)) REG_IRQ_ENABLE
                           = enabled_irqs (ic (fst mw)))) as Hinv.
  cbv beta in Hinv.
  assert (Hkeep : forall h source context (mw : irq_machine * W),
            rf_sized (ic_regs (fst mw)) /\
            reg_read (ic_regs (fst mw)) REG_IRQ_ENABLE = enabled_irqs (ic (fst mw)) ->
            rf_sized (ic_regs (fst (call h source context mw))) /\
            reg_read (ic_regs (fst (call h source context mw))) REG_IRQ_ENABLE
            = enabled_irqs (ic (fst (call h source context mw)))).
  { intros h s x mw [Hs He].
    destruct (quiet h s x mw) as (Hic & _ & Hsz & _ & Hen).
    split; [apply Hsz, Hs |]. rewrite Hen, Hic. exact He. }
  specialize (Hinv Hkeep (seq 0 (Z.to_nat INT_COUNT)) (0, [], (m0, w))).
  cbn [fst snd] in Hinv. destruct H as (Hs & Hp & He).
  specialize (Hinv (conj Hs He)).
  destruct (foldl (dispatch_one call) (0, [], (m0, w))
                  (seq 0 (Z.to_nat INT_COUNT))) as [[p mk] [m' w']].
  cbn [fst snd] in *. destruct Hinv as [Hs' He'].
  unfold irq_shadowed. ic_simpl.
  split; [reg_sized |]. split.
  - reg_simpl. reflexivity.
  - reg_simpl. exact He'.
Qed.

(** Every operation of the driver loop keeps the interrupt registers in
    step with the masks. *)
Lemma irq_apply_shadowed op m w :
  is_loop_op op = true ->
  irq_shadowed m -> irq_shadowed (fst (irq_apply call op (m, w))).
Proof.
  intros Hop H. pose proof H as (Hs & Hp & He).
  destruct op; cbn [irq_apply fst snd]; try discriminate Hop.
  - unfold irq_register_handler. destruct (INT_COUNT <=? source); exact H.
  - unfold irq_unregister_handler. destruct (INT_COUNT <=? source); exact H.
  - unfold irq_enable. destruct (INT_COUNT <=? source); [exact H |].
    unfold irq_shadowed. ic_simpl. split; [reg_sized |].
    split; reg_simpl; [exact Hp | rewrite He; reflexivity].
  - unfold irq_disable. destruct (INT_COUNT <=? source); [exact H |].
    unfold irq_shadowed. ic_simpl. split; [reg_sized |].
    split; reg_simpl; [exact Hp | rewrite He; reflexivity].
  - unfold irq_enable_all, irq_shadowed. ic_simpl. split; [reg_sized |].
    split; reg_simpl; [exact Hp | reflexivity].
  - unfold irq_disable_all, irq_shadowed. ic_simpl. split; [reg_sized |].
    split; reg_simpl; [exact Hp | reflexivity].
  - apply irq_trigger_shadowed, H.
  - unfold irq_clear. destruct (INT_COUNT <=? source); [exact H |].
    unfold irq_shadowed. ic_simpl. split; [reg_sized |].
    split; reg_simpl; [rewrite Hp; reflexivity | exact He].
  - apply irq_process_pending_shadowed, H.
  - unfold irq_cleanup, irq_disable_all, irq_shadowed. ic_simpl. split; [reg_sized |].
    split; reg_simpl; [exact Hp | reflexivity].
Qed.

Lemma irq_run_shadowed ops : forall m w,
  forallb is_loop_op ops = true ->
  irq_shadowed m -> irq_shadowed (fst (irq_run call ops (m, w))).
Proof.
  induction ops as [| op ops IH]; intros m w Hops H; [exact H |].
  cbn [forallb] in Hops. apply andb_true_iff in Hops as [Hop Hops].
  unfold irq_run. cbn [foldl]. fold (irq_run call ops (irq_apply call op (m, w))).
  pose proof (irq_apply_shadowed op m w Hop H) as H1.
  destruct (irq_apply call op (m, w)) as [m1 w1]. apply IH; assumption.
Qed.

End Shadow.

Lemma irq_init_shadowed rf : rf_sized rf -> irq_shadowed (snd (irq_init rf)).
Proof.
  intros Hs. unfold irq_init, irq_shadowed. ic_simpl.
  split; [reg_sized |]. split; reg_simpl; reflexivity.
Qed.

Lemma counting_call_quiet : handlers_keep_irq_state counting_call.
Proof. intros h s x mw. cbv zeta. unfold counting_call. cbn [fst]. auto. Qed.

(** X21: The interrupt registers shadow the masks of the controller on
    the driver loop: after [irq_init] and any sequence of operations other
    than the delivery of a signal, with handlers that leave the controller
    and the two interrupt registers alone, IRQ_STATUS reads [pending_irqs]
    and IRQ_ENABLE reads [enabled_irqs]. *)
Theorem irq_registers_shadow_masks {W : Type}
    (call : Z -> Z -> Z -> irq_machine * W -> irq_machine * W) rf w ops :
  rf_sized rf ->
  handlers_keep_irq_state call ->
  forallb is_loop_op ops = true ->
  let m := fst (irq_run call ops (snd (irq_init rf), w)) in
  reg_read (ic_regs m) REG_IRQ_STATUS = pending_irqs (ic m) /\
  reg_read (ic_regs m) REG_IRQ_ENABLE = enabled_irqs (ic m).
Proof.
  intros Hs Hq Hops m.
  apply (irq_run_shadowed call Hq ops (snd (irq_init rf)) w Hops).
  apply irq_init_shadowed, Hs.
Qed.

Lemma irq_registers_shadow_masks_witness :
  let m := fst (irq_run counting_call
                  [IrqRegister INT_TIMER 0x1000 0; IrqEnableAll;
                   IrqDisable INT_MOTOR_STALL; IrqTrigger INT_TIMER;
                   IrqTrigger INT_MOTOR_STALL; IrqTrigger INT_SENSOR_READY;
                   IrqClear INT_SENSOR_READY]
                  (snd (irq_init rf_zero), 0)) in
  reg_read (ic_regs m) REG_IRQ_STATUS = pending_irqs (ic m) /\
  reg_read (ic_regs m) REG_IRQ_ENABLE = enabled_irqs (ic m) /\
  pending_irqs (ic m) = 16 /\ enabled_irqs (ic m) = 29.
Proof.
  intros m.
  destruct (irq_registers_shadow_masks counting_call rf_zero 0
              [IrqRegister INT_TIMER 0x1000 0; IrqEnableAll;
               IrqDisable INT_MOTOR_STALL; IrqTrigger INT_TIMER;
               IrqTrigger INT_MOTOR_STALL; IrqTrigger INT_SENSOR_READY;
               IrqClear INT_SENSOR_READY]
              rf_zero_sized counting_call_quiet eq_refl) as [Hp He].
  split; [exact Hp |]. split; [exact He |].
  split; vm_compute; reflexivity.
Defined.

(** ** Interrupt controller: signals, sources and handlers *)

(** The calls due depend on the handlers, the contexts and the pending
    mask only. *)
Lemma spec_pending_handlers_ext c c' :
  handlers c = handlers c' -> handler_contexts c = handler_contexts c' ->
  pending_irqs c = pending_irqs c' ->
  spec_pending_handlers c = spec_pending_handlers c'.
Proof.
  intros H1 H2 H3. unfold spec_pending_handlers, pending_handler.
  rewrite H1, H2, H3. reflexivity.
Qed.

Section Calls.

Context {W : Type}.
Variable call : Z -> Z -> Z -> irq_machine * W -> irq_machine * W.
Hypothesis well_behaved : handlers_keep_controller call.

(** The calls and the return value of [irq_process_pending], and the
    controller it ends with. *)
Lemma irq_process_pending_calls m w :
  let out := irq_process_pending call (m, w) in
  let due := spec_pending_handlers (ic (irq_consume_latch m)) in
  snd (fst out) = due /\
  fst (fst out) = Z.of_nat (length due) /\
  ic (fst (snd out)) = set_pending_irqs (ic (irq_consume_latch m)) 0.
Proof.
  cbv zeta. unfold irq_process_pending.
  destruct (dispatch_loop call well_behaved (seq 0 (Z.to_nat INT_COUNT))
              0 [] (irq_consume_latch m) w) as (Hic & _ & Hcalls & Hn & _).
  destruct (foldl (dispatch_one call) (0, [], (irq_consume_latch m, w))
                  (seq 0 (Z.to_nat INT_COUNT))) as [[p mk] [m' w']].
  cbn [fst snd] in *. ic_simpl. rewrite Hic.
  split; [exact Hcalls |]. split; [rewrite Hn; apply Z.add_0_l | reflexivity].
Qed.

End Calls.

(** The latch step after a signal: the latch is cleared and the timer made
    pending when it is enabled. *)
Lemma irq_consume_latch_after_signal m signum :
  g_irq_controller m = true ->
  let m1 := irq_signal_handler m signum in
  ic (irq_consume_latch m1) =
  set_signal_received
    (set_pending_irqs (ic m)
       (if irq_bit_set (enabled_irqs (ic m)) INT_TIMER
        then Z.lor (pending_irqs (ic m1)) (irq_bit INT_TIMER)
        else pending_irqs (ic m1))) 0.
Proof.
  intros Hg. cbv zeta. unfold irq_consume_latch, irq_signal_handler.
  rewrite Hg. cbn [negb].
  destruct (signum =? SIGUSR1), (signum =? SIGUSR2); ic_simpl;
    change (negb (1 =? 0)) with true; cbv iota;
    unfold irq_trigger; change (INT_COUNT <=? INT_TIMER) with false; cbv iota;
    ic_simpl; destruct (irq_bit_set (enabled_irqs (ic m)) INT_TIMER); reflexivity.
Qed.

Lemma irq_signal_handler_pending m signum :
  g_irq_controller m = true ->
  pending_irqs (ic (irq_signal_handler m signum)) =
  Z.lor (pending_irqs (ic m))
        (if signum =? SIGUSR1 then irq_bit INT_MOTOR_FAULT
         else if signum =? SIGUSR2 then irq_bit INT_SENSOR_READY else 0).
Proof.
  intros Hg. unfold irq_signal_handler. rewrite Hg. cbn [negb].
  destruct (signum =? SIGUSR1), (signum =? SIGUSR2); ic_simpl;
    rewrite ?Z.lor_0_r; reflexivity.
Qed.

(** X22: A signal taken by the bridge and the next [irq_process_pending],
    with handlers that leave the controller alone: the calls made are those
    due for the pending mask extended by the source of the signal (the
    motor fault source for SIGUSR1, the sensor ready source for SIGUSR2,
    whether enabled or not) and, through the latch, by the timer source
    when the timer is enabled.  The call returns their number and leaves the
    latch and the pending mask at zero and the enable mask as it was. *)
Theorem signal_latch_dispatch {W : Type}
    (call : Z -> Z -> Z -> irq_machine * W -> irq_machine * W) m w signum :
  handlers_keep_controller call ->
  g_irq_controller m = true ->
  let source_bit := if signum =? SIGUSR1 then irq_bit INT_MOTOR_FAULT
                    else if signum =? SIGUSR2 then irq_bit INT_SENSOR_READY
                    else 0 in
  let timer_bit := if irq_bit_set (enabled_irqs (ic m)) INT_TIMER
                   then irq_bit INT_TIMER else 0 in
  let raised := Z.lor (Z.lor (pending_irqs (ic m)) source_bit) timer_bit in
  let out := irq_process_pending call (irq_signal_handler m signum, w) in
  snd (fst out) = spec_pending_handlers (set_pending_irqs (ic m) raised) /\
  fst (fst out) = Z.of_nat (length (snd (fst out))) /\
  signal_received (ic (fst (snd out))) = 0 /\
  pending_irqs (ic (fst (snd out))) = 0 /\
  enabled_irqs (ic (fst (snd out))) = enabled_irqs (ic m).
Proof.
  intros Hwb Hg. cbv zeta.
  destruct (irq_process_pending_calls call Hwb (irq_signal_handler m signum) w)
    as (Hcalls & Hn & Hic).
  rewrite Hn, Hcalls, Hic.
  rewrite irq_consume_latch_after_signal by exact Hg.
  rewrite irq_signal_handler_pending by exact Hg. ic_simpl.
  split; [| auto].
  apply spec_pending_handlers_ext; ic_simpl; try reflexivity.
  destruct (irq_bit_set (enabled_irqs (ic m)) INT_TIMER);
    rewrite ?Z.lor_0_r; reflexivity.
Qed.

Lemma signal_latch_dispatch_witness :
  snd (fst (irq_process_pending counting_call
              (irq_signal_handler irq_timer_armed SIGUSR1, 0)))
  = [ {| inv_handler := 0x1000; inv_source := INT_MOTOR_FAULT; inv_context := 0x10 |};
      {| inv_handler := 0x2000; inv_source := INT_TIMER; inv_context := 0x20 |} ].
Proof.
  destruct (signal_latch_dispatch counting_call irq_timer_armed 0 SIGUSR1
              counting_call_keeps_controller eq_refl) as (Hcalls & _).
  rewrite Hcalls. vm_compute. reflexivity.
Defined.

Lemma irq_bit_testbit s i : 0 <= s -> Z.testbit (irq_bit s) i = (s =? i).
Proof. intros Hs. apply bit_mask_testbit, Hs. Qed.

Lemma irq_is_pending_testbit m s :
  0 <= s < INT_COUNT -> irq_is_pending m s = Z.testbit (pending_irqs (ic m)) s.
Proof.
  intros [H0 H1]. unfold irq_is_pending.
  rewrite (proj2 (Z.leb_gt _ _)) by exact H1.
  apply irq_bit_set_testbit, H0.
Qed.

(** X23: The operations on one source [s] of the interrupt controller,
    read through [irq_is_pending]: a trigger after [irq_enable] makes the
    source pending, a trigger after [irq_disable] changes nothing,
    [irq_clear] makes the source not pending, and none of [irq_enable],
    [irq_disable], [irq_trigger] and [irq_clear] on [s] changes whether
    another source is pending or enabled.  A source number from
    [INT_COUNT] on is refused: -1 is returned where there is a return
    value, nothing is changed and [irq_is_pending] is false. *)
Theorem irq_source_operations m s t :
  0 <= s < INT_COUNT -> 0 <= t < INT_COUNT -> t <> s ->
  (fst (irq_enable m s) = 0 /\
   irq_is_pending (irq_trigger (snd (irq_enable m s)) s) s = true) /\
  (fst (irq_disable m s) = 0 /\
   irq_trigger (snd (irq_disable m s)) s = snd (irq_disable m s)) /\
  irq_is_pending (irq_clear m s) s = false /\
  (irq_is_pending (snd (irq_enable m s)) t = irq_is_pending m t /\
   irq_is_pending (snd (irq_disable m s)) t = irq_is_pending m t /\
   irq_is_pending (irq_trigger m s) t = irq_is_pending m t /\
   irq_is_pending (irq_clear m s) t = irq_is_pending m t) /\
  (Z.testbit (enabled_irqs (ic (snd (irq_enable m s)))) t
   = Z.testbit (enabled_irqs (ic m)) t /\
   Z.testbit (enabled_irqs (ic (snd (irq_disable m s)))) t
   = Z.testbit (enabled_irqs (ic m)) t) /\
  (forall u h x, INT_COUNT <= u ->
     irq_enable m u = (-1, m) /\ irq_disable m u = (-1, m) /\
     irq_register_handler m u h x = (-1, m) /\ irq_unregister_handler m u = (-1, m) /\
     irq_trigger m u = m /\ irq_clear m u = m /\ irq_is_pending m u = false).
Proof.
  intros Hs Ht Hne.
  assert (Es : (INT_COUNT <=? s) = false) by (apply Z.leb_gt; lia).
  assert (Hs32 : (s <? 32) = true) by (apply Z.ltb_lt; unfold INT_COUNT in Hs; lia).
  assert (Ht32 : (t <? 32) = true) by (apply Z.ltb_lt; unfold INT_COUNT in Ht; lia).
  assert (Est : (s =? t) = false) by (apply Z.eqb_neq; lia).
  split; [| split; [| split; [| split; [| split]]]].
  - unfold irq_enable. rewrite Es. split; [reflexivity |]. cbn [snd].
    rewrite irq_is_pending_testbit by exact Hs.
    unfold irq_trigger. rewrite Es. ic_simpl.
    assert (Hen : irq_bit_set (Z.lor (enabled_irqs (ic m)) (irq_bit s)) s = true).
    { rewrite irq_bit_set_testbit, Z.lor_spec, irq_bit_testbit, Z.eqb_refl by lia.
      apply orb_true_r. }
    rewrite Hen. ic_simpl.
    rewrite Z.lor_spec, irq_bit_testbit, Z.eqb_refl by lia. apply orb_true_r.
  - unfold irq_disable. rewrite Es. split; [reflexivity |]. cbn [snd].
    apply irq_trigger_disabled. ic_simpl.
    rewrite irq_bit_set_testbit, Z.land_spec, not32_spec, irq_bit_testbit, Z.eqb_refl
      by lia.
    apply andb_false_r.
  - rewrite irq_is_pending_testbit by exact Hs.
    unfold irq_clear. rewrite Es. ic_simpl.
    rewrite Z.land_spec, not32_spec, irq_bit_testbit, Z.eqb_refl by lia.
    apply andb_false_r.
  - rewrite !irq_is_pending_testbit by exact Ht.
    unfold irq_enable, irq_disable, irq_trigger, irq_clear. rewrite Es. ic_simpl.
    split; [reflexivity |]. split; [reflexivity |]. split.
    + destruct (irq_bit_set (enabled_irqs (ic m)) s); [| reflexivity].
      ic_simpl. rewrite Z.lor_spec, irq_bit_testbit, Est by lia. apply orb_false_r.
    + rewrite Z.land_spec, not32_spec, irq_bit_testbit, Est, Ht32 by lia.
      apply andb_true_r.
  - unfold irq_enable, irq_disable. rewrite Es. ic_simpl. split.
    + rewrite Z.lor_spec, irq_bit_testbit, Est by lia. apply orb_false_r.
    + rewrite Z.land_spec, not32_spec, irq_bit_testbit, Est, Ht32 by lia.
      apply andb_true_r.
  - intros u h x Hu.
    assert (Eu : (INT_COUNT <=? u) = true) by (apply Z.leb_le; exact Hu).
    unfold irq_enable, irq_disable, irq_register_handler, irq_unregister_handler,
      irq_trigger, irq_clear, irq_is_pending.
    rewrite Eu. repeat split.
Qed.

Lemma irq_source_operations_witness :
  irq_is_pending
    (irq_trigger (snd (irq_enable irq_initial INT_SENSOR_READY)) INT_SENSOR_READY)
    INT_SENSOR_READY = true /\
  irq_is_pending (irq_clear irq_fault_raised INT_MOTOR_FAULT) INT_MOTOR_FAULT = false.
Proof.
  split.
  - apply (irq_source_operations irq_initial INT_SENSOR_READY INT_TIMER);
      [split; [discriminate | reflexivity] | split; [discriminate | reflexivity]
      | discriminate].
  - apply (irq_source_operations irq_fault_raised INT_MOTOR_FAULT INT_TIMER);
      [split; [discriminate | reflexivity] | split; [discriminate | reflexivity]
      | discriminate].
Defined.

(** X24: [irq_cleanup] quiesces the controller: all sources are
    disabled, so that [irq_trigger] changes nothing for any source, and the
    global pointer is cleared, so that the signal bridge ignores every
    signal.  The pending mask, the handlers and their contexts are left as
    they were. *)
Theorem irq_cleanup_quiesces m source signum :
  let m' := irq_cleanup m in
  enabled_irqs (ic m') = 0 /\
  g_irq_controller m' = false /\
  irq_trigger m' source = m' /\
  irq_signal_handler m' signum = m' /\
  pending_irqs (ic m') = pending_irqs (ic m) /\
  handlers (ic m') = handlers (ic m) /\
  handler_contexts (ic m') = handler_contexts (ic m).
Proof.
  cbv zeta. unfold irq_cleanup, irq_disable_all. ic_simpl.
  split; [reflexivity |]. split; [reflexivity |]. split; [| repeat split].
  apply irq_trigger_disabled. reflexivity.
Qed.

Section Safety.

Context {W : Type}.
Variable call : Z -> Z -> Z -> irq_machine * W -> irq_machine * W.

(** Whatever the handlers do, the loop over the sources [l] makes at most
    one call per source, to a handler that is not [NULL]. *)
Lemma dispatch_loop_bounded l : forall processed made mw,
  let out := foldl (dispatch_one call) (processed, made, mw) l in
  exists extra,
    snd (fst out) = made ++ extra /\
    fst (fst out) = processed + Z.of_nat (length extra) /\
    (length extra <= length l)%nat /\
    Forall (fun inv => inv_handler inv <> 0 /\
                       exists i, i ∈ l /\ inv_source inv = Z.of_nat i) extra.
Proof.
  induction l as [| i l IH]; intros processed made mw out.
  - exists []. subst out. cbn [foldl fst snd length].
    rewrite app_nil_r, Z.add_0_r. repeat split; [lia | constructor].
  - assert (Eout : out = foldl (dispatch_one call)
                           (dispatch_one call (processed, made, mw) i) l)
      by reflexivity.
    rewrite dispatch_one_due in Eout. clearbody out. subst out.
    destruct (pending_handler (ic (fst mw)) i) as [inv |] eqn:E.
    + destruct (IH (processed + 1) (made ++ [inv])
                   (call (inv_handler inv) (inv_source inv) (inv_context inv) mw))
        as (extra & H1 & H2 & H3 & H4).
      exists (inv :: extra).
      apply pending_handler_some in E as (Hsrc & _ & Hh & _).
      split; [rewrite H1, <- app_assoc; reflexivity |].
      split; [rewrite H2; cbn [length]; lia |].
      split; [cbn [length]; lia |].
      constructor.
      * split; [exact Hh |]. exists i. split; [left | exact Hsrc].
      * eapply Forall_impl; [exact H4 |].
        intros inv' (Hh' & j & Hj & Hs). split; [exact Hh' |].
        exists j. split; [right; exact Hj | exact Hs].
    + destruct (IH processed made mw) as (extra & H1 & H2 & H3 & H4).
      exists extra. split; [exact H1 |]. split; [exact H2 |].
      split; [cbn [length]; lia |].
      eapply Forall_impl; [exact H4 |].
      intros inv' (Hh' & j & Hj & Hs). split; [exact Hh' |].
      exists j. split; [right; exact Hj | exact Hs].
Qed.

End Safety.

(** X25: Whatever the handlers do, also to the controller itself,
    [irq_process_pending] never calls a [NULL] handler and never passes a
    source outside [0, INT_COUNT); it makes at most [INT_COUNT] calls, by
    ascending source, returns their number, and ends with an empty pending
    mask. *)
Theorem irq_process_pending_calls_safe {W : Type}
    (call : Z -> Z -> Z -> irq_machine * W -> irq_machine * W) mw :
  let out := irq_process_pending call mw in
  Forall (fun inv => inv_handler inv <> 0 /\ 0 <= inv_source inv < INT_COUNT)
         (snd (fst out)) /\
  StronglySorted Z.lt (inv_source <$> snd (fst out)) /\
  fst (fst out) = Z.of_nat (length (snd (fst out))) /\
  0 <= fst (fst out) <= INT_COUNT /\
  pending_irqs (ic (fst (snd out))) = 0.
Proof.
  intros out.
  destruct (irq_process_pending_any_handlers call mw) as (Hn & Hsorted & Hp).
  fold out in Hn, Hsorted, Hp.
  assert (Hsafe : Forall (fun inv => inv_handler inv <> 0 /\
                                     0 <= inv_source inv < INT_COUNT) (snd (fst out)) /\
                  (length (snd (fst out)) <= 5)%nat).
  { subst out. destruct mw as [m w]. unfold irq_process_pending.
    destruct (dispatch_loop_bounded call (seq 0 (Z.to_nat INT_COUNT))
                0 [] (irq_consume_latch m, w)) as (extra & H1 & _ & H3 & H4).
    destruct (foldl (dispatch_one call) (0, [], (irq_consume_latch m, w))
                    (seq 0 (Z.to_nat INT_COUNT))) as [[p mk] [m' w']].
    cbn [fst snd] in *. subst mk. cbn [app]. split; [| exact H3].
    eapply Forall_impl; [exact H4 |].
    intros inv (Hh & i & Hi & Hs). split; [exact Hh |].
    apply elem_of_seq in Hi. rewrite Hs. unfold INT_COUNT in *. lia. }
  destruct Hsafe as [Hsafe Hlen].
  split; [exact Hsafe |]. split; [exact Hsorted |]. split; [exact Hn |].
  split; [| exact Hp]. rewrite Hn. unfold INT_COUNT. lia.
Qed.

Lemma irq_trigger_handlers m s :
  handlers (ic (irq_trigger m s)) = handlers (ic m) /\
  handler_contexts (ic (irq_trigger m s)) = handler_contexts (ic m).
Proof.
  unfold irq_trigger. destruct (INT_COUNT <=? s); [auto |].
  destruct (irq_bit_set (enabled_irqs (ic m)) s); auto.
Qed.

Lemma irq_consume_latch_handlers m :
  handlers (ic (irq_consume_latch m)) = handlers (ic m) /\
  handler_contexts (ic (irq_consume_latch m)) = handler_contexts (ic m).
Proof.
  unfold irq_consume_latch. destruct (negb (signal_received (ic m) =? 0)); [| auto].
  apply (irq_trigger_handlers (with_ic m (set_signal_received (ic m) 0)) INT_TIMER).
Qed.

(** The latch step only adds to the pending mask. *)
Lemma irq_consume_latch_pending m i :
  Z.testbit (pending_irqs (ic m)) i = true ->
  Z.testbit (pending_irqs (ic (irq_consume_latch m))) i = true.
Proof.
  intros H. unfold irq_consume_latch.
  destruct (negb (signal_received (ic m) =? 0)); [| exact H].
  unfold irq_trigger. destruct (INT_COUNT <=? INT_TIMER); [exact H |]. ic_simpl.
  destruct (irq_bit_set (enabled_irqs (ic m)) INT_TIMER); [| exact H].
  ic_simpl. rewrite Z.lor_spec, H. reflexivity.
Qed.

(** X26: Registration decides who is called, for handlers that leave the
    controller alone.  After [irq_unregister_handler] for a source,
    [irq_process_pending] makes no call for that source, pending or not,
    and still clears its pending bit.  After [irq_register_handler] of a
    handler that is not [NULL], a pending source is dispatched to that
    handler with the context given at registration.  Both return 0. *)
Theorem registration_decides_calls {W : Type}
    (call : Z -> Z -> Z -> irq_machine * W -> irq_machine * W) m w s h x :
  handlers_keep_controller call ->
  ic_sized (ic m) ->
  0 <= s < INT_COUNT ->
  let unregistered := irq_unregister_handler m s in
  let registered := irq_register_handler m s h x in
  let out_u := irq_process_pending call (snd unregistered, w) in
  let out_r := irq_process_pending call (snd registered, w) in
  fst unregistered = 0 /\ fst registered = 0 /\
  Forall (fun inv => inv_source inv <> s) (snd (fst out_u)) /\
  pending_irqs (ic (fst (snd out_u))) = 0 /\
  (h <> 0 -> Z.testbit (pending_irqs (ic m)) s = true ->
   {| inv_handler := h; inv_source := s; inv_context := x |} ∈ snd (fst out_r)).
Proof.
  intros Hwb [Hlh Hlx] Hs. cbv zeta.
  assert (Es : (INT_COUNT <=? s) = false) by (apply Z.leb_gt; lia).
  assert (Hn : (Z.to_nat s < Z.to_nat INT_COUNT)%nat) by lia.
  unfold irq_unregister_handler, irq_register_handler. rewrite Es. cbn [fst snd].
  split; [reflexivity |]. split; [reflexivity |]. split; [| split].
  - match goal with
    | |- context [irq_process_pending call (?m1, w)] =>
        destruct (irq_process_pending_calls call Hwb m1 w) as (Hcalls & _);
        destruct (irq_consume_latch_handlers m1) as (Hh & _);
        set (c := ic (irq_consume_latch m1)) in *
    end.
    rewrite Hcalls. apply Forall_forall. intros inv Hin.
    apply list_elem_of_omap in Hin as (i & _ & Hdue).
    apply pending_handler_some in Hdue as (Hsrc & Hhd & Hnz & _).
    intros Heq. apply Hnz. rewrite Hhd, Hh. ic_simpl.
    assert (Ei : i = Z.to_nat s) by lia. subst i.
    rewrite list_lookup_insert_eq by (rewrite Hlh; exact Hn). reflexivity.
  - match goal with
    | |- context [irq_process_pending call (?m1, w)] =>
        destruct (irq_process_pending_calls call Hwb m1 w) as (_ & _ & Hic)
    end.
    rewrite Hic. reflexivity.
  - intros Hh0 Hp.
    match goal with
    | |- context [irq_process_pending call (?m1, w)] =>
        destruct (irq_process_pending_calls call Hwb m1 w) as (Hcalls & _);
        destruct (irq_consume_latch_handlers m1) as (Hh & Hx);
        pose proof (irq_consume_latch_pending m1 s) as Hpend;
        set (c := ic (irq_consume_latch m1)) in *
    end.
    rewrite Hcalls. apply list_elem_of_omap. exists (Z.to_nat s).
    split; [apply elem_of_seq; lia |].
    unfold pending_handler. rewrite Z2Nat.id by lia.
    rewrite irq_bit_set_testbit by lia. rewrite Hpend by exact Hp.
    rewrite Hh, Hx. ic_simpl.
    rewrite !list_lookup_insert_eq by (rewrite ?Hlh, ?Hlx; exact Hn).
    cbn [default from_option id]. unfold id.
    rewrite (proj2 (Z.eqb_neq h 0)) by exact Hh0. reflexivity.
Qed.

Lemma irq_fault_raised_facts :
  ic_sized (ic irq_fault_raised) /\
  Z.testbit (pending_irqs (ic irq_fault_raised)) INT_MOTOR_FAULT = true.
Proof. repeat split. Qed.

Lemma registration_decides_calls_witness :
  snd (fst (irq_process_pending counting_call
              (snd (irq_unregister_handler irq_fault_raised INT_MOTOR_FAULT), 0)))
  = [] /\
  {| inv_handler := 0x3000; inv_source := INT_MOTOR_FAULT; inv_context := 0x30 |}
  ∈ snd (fst (irq_process_pending counting_call
                (snd (irq_register_handler irq_fault_raised INT_MOTOR_FAULT
                        0x3000 0x30), 0))).
Proof.
  destruct irq_fault_raised_facts as [Hsz Hp].
  destruct (registration_decides_calls counting_call irq_fault_raised 0
              INT_MOTOR_FAULT 0x3000 0x30 counting_call_keeps_controller Hsz
              ltac:(split; [discriminate | reflexivity]))
    as (_ & _ & _ & _ & Hcall).
  split; [vm_compute; reflexivity |].
  apply Hcall; [discriminate | exact Hp].
Defined.

(** ** Driver: commands *)

(** Case analysis on the command number, in the order of the [switch] of
    [process_command]. *)
Ltac command_cases cmd :=
  destruct (Z.eqb_spec cmd CMD_MOTOR_START) as [-> | ?];
  [| destruct (Z.eqb_spec cmd CMD_MOTOR_STOP) as [-> | ?];
     [| destruct (Z.eqb_spec cmd CMD_MOTOR_SET_SPEED) as [-> | ?];
        [| destruct (Z.eqb_spec cmd CMD_SENSOR_READ) as [-> | ?];
           [| destruct (Z.eqb_spec cmd CMD_GET_STATUS) as [-> | ?];
              [| destruct (Z.eqb_spec cmd CMD_RESET) as [-> | ?]]]]]];
  cbv iota.

(** Settles the parts of a statement on the response to one command. *)
Ltac answered :=
  cbn [fst snd resp_status resp_data];
  repeat match goal with |- _ /\ _ => split end;
  first [ reflexivity
        | discriminate
        | solve [intuition (try discriminate; try congruence)]
        | unfold CMD_MOTOR_START, CMD_MOTOR_STOP, CMD_MOTOR_SET_SPEED,
            CMD_SENSOR_READ, CMD_GET_STATUS, CMD_RESET in *;
          solve [intuition (try discriminate; try congruence; try lia)] ].

(** X27: The answers of [process_command].  The response always carries
    eight data words and its status is [RESP_OK], [RESP_ERROR] or
    [RESP_INVALID_CMD], never [RESP_BUSY].  The status is
    [RESP_INVALID_CMD] exactly for a command number outside
    [CMD_MOTOR_START .. CMD_RESET], and [RESP_ERROR] exactly for
    [CMD_MOTOR_START] and [CMD_MOTOR_SET_SPEED] on a motor in the fault
    state; [CMD_MOTOR_STOP] is answered [RESP_OK] in every state.  A
    command answered with another status than [RESP_OK] changes nothing,
    and neither do [CMD_SENSOR_READ] and [CMD_GET_STATUS], whose data are
    the four channel values, and the state, speed, position and fault code
    of the motor, followed by zeros. *)
Theorem process_command_answers mc sa rf cmd param1 param2 :
  let out := process_command (mc, sa, rf) cmd param1 param2 in
  let r := fst out in
  length (resp_data r) = 8%nat /\
  (resp_status r = RESP_OK \/ resp_status r = RESP_ERROR \/
   resp_status r = RESP_INVALID_CMD) /\
  (cmd = CMD_MOTOR_STOP -> resp_status r = RESP_OK) /\
  (resp_status r = RESP_INVALID_CMD <-> ~ (CMD_MOTOR_START <= cmd <= CMD_RESET)) /\
  (resp_status r = RESP_ERROR <->
   state mc = MOTOR_STATE_FAULT /\ (cmd = CMD_MOTOR_START \/ cmd = CMD_MOTOR_SET_SPEED)) /\
  (resp_status r <> RESP_OK -> snd out = (mc, sa, rf)) /\
  (cmd = CMD_SENSOR_READ ->
   snd out = (mc, sa, rf) /\
   resp_data r = [sensor_read (sa, rf) 0; sensor_read (sa, rf) 1;
                  sensor_read (sa, rf) 2; sensor_read (sa, rf) 3; 0; 0; 0; 0]) /\
  (cmd = CMD_GET_STATUS ->
   snd out = (mc, sa, rf) /\
   resp_data r = [motor_state_number (state mc); to_int32 (current_speed mc);
                  position mc; motor_fault_number (fault_code mc); 0; 0; 0; 0]).
Proof.
  cbv zeta. unfold process_command.
  command_cases cmd.
  - unfold motor_start. destruct (state mc) eqn:Est; cbn [motor_state_eqb]; answered.
  - unfold motor_stop. destruct (state mc) eqn:Est; cbn [motor_state_eqb]; answered.
  - unfold motor_set_speed. destruct (state mc) eqn:Est; cbn [motor_state_eqb]; answered.
  - unfold sensor_read_all, sensor_read. answered.
  - unfold motor_get_state, motor_get_speed, motor_get_position, motor_get_fault.
    answered.
  - unfold motor_reset, sensor_buffer_clear. answered.
  - answered.
Qed.

Lemma process_command_answers_witness :
  let hw := motor_inject_fault motor_running_5000 MOTOR_FAULT_STALL in
  resp_status (fst (process_command (fst hw, fst sensors_initial, snd hw)
                      CMD_MOTOR_START 5000 1)) = RESP_ERROR.
Proof.
  intros hw.
  apply (process_command_answers (fst hw) (fst sensors_initial) (snd hw)
           CMD_MOTOR_START 5000 1).
  split; [reflexivity | left; reflexivity].
Defined.

(** X28: [CMD_RESET] is answered [RESP_OK].  It leaves the motor idle
    without fault and at speed 0, with MOTOR_CTRL, MOTOR_STATUS and
    MOTOR_SPEED at zero, and the ring of samples empty with the overflow
    bit of SENSOR_STATUS clear.  The position of the motor, the register
    MOTOR_POSITION, the direction and the sensor channels are left as they
    were. *)
Theorem process_command_reset mc sa rf param1 param2 :
  rf_sized rf ->
  let out := process_command (mc, sa, rf) CMD_RESET param1 param2 in
  let mc' := fst (fst (snd out)) in
  let sa' := snd (fst (snd out)) in
  let rf' := snd (snd out) in
  resp_status (fst out) = RESP_OK /\
  (state mc' = MOTOR_STATE_IDLE /\ fault_code mc' = MOTOR_FAULT_NONE /\
   current_speed mc' = 0 /\ target_speed mc' = 0) /\
  (reg_read rf' REG_MOTOR_CTRL = 0 /\ reg_read rf' REG_MOTOR_STATUS = 0 /\
   reg_read rf' REG_MOTOR_SPEED = 0) /\
  (position mc' = position mc /\ direction mc' = direction mc /\
   reg_read rf' REG_MOTOR_POSITION = reg_read rf REG_MOTOR_POSITION) /\
  (ring_contents sa' = [] /\ sensor_buffer_count (sa', rf') = 0 /\
   Z.testbit (reg_read rf' REG_SENSOR_STATUS) 1 = false) /\
  sensors sa' = sensors sa /\ continuous_mode sa' = continuous_mode sa.
Proof.
  intros Hs. cbv zeta.
  destruct (motor_reset_effect mc rf Hs)
    as (_ & H1 & H2 & H3 & H4 & H5 & H6 & H7 & H8 & H9 & H10).
  unfold process_command.
  change (CMD_RESET =? CMD_MOTOR_START) with false.
  change (CMD_RESET =? CMD_MOTOR_STOP) with false.
  change (CMD_RESET =? CMD_MOTOR_SET_SPEED) with false.
  change (CMD_RESET =? CMD_SENSOR_READ) with false.
  change (CMD_RESET =? CMD_GET_STATUS) with false.
  change (CMD_RESET =? CMD_RESET) with true. cbv iota.
  assert (Hs' : rf_sized (snd (snd (motor_reset (mc, rf)))))
    by (unfold motor_reset; cbn [snd]; reg_sized).
  destruct (snd (motor_reset (mc, rf))) as [mc1 rf1]. cbn [fst snd] in *.
  unfold sensor_buffer_clear. cbn [fst snd resp_status].
  split; [reflexivity |]. split; [auto |].
  split; [reg_simpl; auto |].
  split; [reg_simpl; auto |].
  split; [| split; reflexivity].
  split; [reflexivity |]. split; [reflexivity |].
  reg_simpl. rewrite Z.land_spec, not32_spec by lia. apply andb_false_r.
Qed.

Lemma process_command_reset_witness :
  let out := process_command
               (fst motor_after_cw_run, fst sensors_overflowed, snd motor_after_cw_run)
               CMD_RESET 0 0 in
  state (fst (fst (snd out))) = MOTOR_STATE_IDLE /\
  position (fst (fst (snd out))) = 180 /\
  ring_contents (snd (fst (snd out))) = [].
Proof.
  assert (Hs : rf_sized (snd motor_after_cw_run)) by reflexivity.
  assert (Hp : position (fst motor_after_cw_run) = 180) by (vm_compute; reflexivity).
  destruct (process_command_reset (fst motor_after_cw_run) (fst sensors_overflowed)
              (snd motor_after_cw_run) 0 0 Hs)
    as (_ & (H1 & _) & _ & (H2 & _) & (H3 & _) & _).
  cbv zeta. split; [exact H1 |]. split; [rewrite H2; exact Hp | exact H3].
Defined.

(** ** Driver: the main loop *)

Lemma update_running_state mc rf : state (fst (update_running mc rf)) = state mc.
Proof.
  unfold update_running. cbv zeta.
  repeat match goal with
         | |- context [if ?b then _ else _] => destruct b
         | |- context [match ?d with MOTOR_DIR_CCW => _ | MOTOR_DIR_CW => _ end] =>
             destruct d
         end; reflexivity.
Qed.

Lemma update_starting_state mc rf :
  state (fst (update_starting mc rf)) = state mc \/
  state (fst (update_starting mc rf)) = MOTOR_STATE_RUNNING.
Proof.
  unfold update_starting. cbv zeta.
  repeat match goal with
         | |- context [if ?b then _ else _] => destruct b
         end; auto.
Qed.

Lemma update_stopping_state mc rf :
  state (fst (update_stopping mc rf)) = state mc \/
  state (fst (update_stopping mc rf)) = MOTOR_STATE_IDLE.
Proof.
  unfold update_stopping.
  destruct (current_speed mc >? SPEED_RAMP_RATE); auto.
Qed.

(** After [motor_update] the motor is in the fault state exactly when it
    was before or a fault bit is set in MOTOR_STATUS. *)
Lemma motor_update_fault_iff mc rf :
  motor_state_eqb (state (fst (snd (motor_update (mc, rf))))) MOTOR_STATE_FAULT
  = motor_state_eqb (state mc) MOTOR_STATE_FAULT
    || negb (Z.land (reg_read rf REG_MOTOR_STATUS) MOTOR_STATUS_FAULT_BITS =? 0).
Proof.
  unfold motor_update.
  destruct (negb (Z.land (reg_read rf REG_MOTOR_STATUS) MOTOR_STATUS_FAULT_BITS =? 0)).
  - rewrite orb_true_r.
    destruct (motor_state_eqb (state mc) MOTOR_STATE_FAULT) eqn:E; cbn [negb fst snd].
    + exact E.
    + destruct (negb (Z.land (reg_read rf REG_MOTOR_STATUS) MOTOR_STATUS_STALL =? 0));
        [reflexivity |].
      destruct (negb (Z.land (reg_read rf REG_MOTOR_STATUS) MOTOR_STATUS_OVERHEAT =? 0));
        reflexivity.
  - rewrite orb_false_r.
    destruct (state mc) eqn:E; cbn [fst snd motor_state_eqb]; rewrite ?E;
      try reflexivity.
    + destruct (update_starting_state mc rf) as [H | H]; rewrite H, ?E; reflexivity.
    + rewrite update_running_state, E. reflexivity.
    + destruct (update_stopping_state mc rf) as [H | H]; rewrite H, ?E; reflexivity.
Qed.

(** No call is due when nothing is pending. *)
Lemma spec_pending_handlers_none c :
  pending_irqs c = 0 -> spec_pending_handlers c = [].
Proof.
  intros H. unfold spec_pending_handlers, pending_handler, irq_bit_set.
  rewrite H. reflexivity.
Qed.

(** The call due when only the motor fault source is pending. *)
Lemma spec_pending_handlers_motor_fault c :
  pending_irqs c = irq_bit INT_MOTOR_FAULT ->
  spec_pending_handlers c =
  if negb (default 0 (handlers c !! 0%nat) =? 0)
  then [ {| inv_handler := default 0 (handlers c !! 0%nat);
            inv_source := INT_MOTOR_FAULT;
            inv_context := default 0 (handler_contexts c !! 0%nat) |} ]
  else [].
Proof.
  intros H. unfold spec_pending_handlers, pending_handler, irq_bit_set.
  rewrite H.
  change (seq 0 (Z.to_nat INT_COUNT)) with [0; 1; 2; 3; 4]%nat.
  cbn [omap list_omap].
  change (negb (Z.land (irq_bit INT_MOTOR_FAULT) (irq_bit (Z.of_nat 0)) =? 0)) with true.
  change (negb (Z.land (irq_bit INT_MOTOR_FAULT) (irq_bit (Z.of_nat 1)) =? 0)) with false.
  change (negb (Z.land (irq_bit INT_MOTOR_FAULT) (irq_bit (Z.of_nat 2)) =? 0)) with false.
  change (negb (Z.land (irq_bit INT_MOTOR_FAULT) (irq_bit (Z.of_nat 3)) =? 0)) with false.
  change (negb (Z.land (irq_bit INT_MOTOR_FAULT) (irq_bit (Z.of_nat 4)) =? 0)) with false.
  cbn [andb].
  destruct (negb (default 0 (handlers c !! 0%nat) =? 0)); reflexivity.
Qed.

Lemma set_pending_irqs_same c : set_pending_irqs c (pending_irqs c) = c.
Proof. destruct c. reflexivity. Qed.

Lemma set_pending_irqs_back c p :
  pending_irqs c = 0 -> set_pending_irqs (set_pending_irqs c p) 0 = c.
Proof. intros H. rewrite <- (set_pending_irqs_same c) at 2. rewrite H. reflexivity. Qed.

(** X29: Fault reporting by the main loop.  In an iteration that starts
    with no interrupt pending and the signal latch clear, with handlers
    that leave the interrupt controller alone, the handler of the motor
    fault source is called, once and with its registered context, exactly
    when the motor is in the fault state after [motor_update] (it was
    before, or a fault bit is set in MOTOR_STATUS), the source is enabled
    and a handler is registered for it; no other handler is called.  The
    interrupt controller ends the iteration as it began it, so that the
    call is repeated in every iteration while the motor stays in the fault
    state. *)
Theorem driver_tick_reports_fault {W : Type}
    (call : Z -> Z -> Z ->
            irq_machine * (motor_controller * sensor_array * W) ->
            irq_machine * (motor_controller * sensor_array * W))
    tick fetched d w :
  handlers_keep_controller call ->
  pending_irqs (drv_irq d) = 0 ->
  signal_received (drv_irq d) = 0 ->
  let faulted :=
    motor_state_eqb (state (drv_motor d)) MOTOR_STATE_FAULT
    || negb (Z.land (reg_read (drv_regs d) REG_MOTOR_STATUS) MOTOR_STATUS_FAULT_BITS
             =? 0) in
  let h := default 0 (handlers (drv_irq d) !! 0%nat) in
  let x := default 0 (handler_contexts (drv_irq d) !! 0%nat) in
  let out := driver_tick call tick fetched (d, w) in
  tick_calls (fst out)
  = (if faulted && irq_bit_set (enabled_irqs (drv_irq d)) INT_MOTOR_FAULT
        && negb (h =? 0)
     then [ {| inv_handler := h; inv_source := INT_MOTOR_FAULT; inv_context := x |} ]
     else []) /\
  drv_irq (fst (snd out)) = drv_irq d.
Proof.
  intros Hwb Hp Hl. cbv zeta.
  remember (driver_tick call tick fetched (d, w)) as out eqn:Eout.
  unfold driver_tick in Eout.
  pose proof (motor_update_fault_iff (drv_motor d) (drv_regs d)) as Hf.
  destruct (snd (motor_update (drv_motor d, drv_regs d))) as [mc rf0].
  cbn [fst] in Hf.
  set (faulted := motor_state_eqb (state (drv_motor d)) MOTOR_STATE_FAULT
                  || negb (Z.land (reg_read (drv_regs d) REG_MOTOR_STATUS)
                                  MOTOR_STATUS_FAULT_BITS =? 0)) in *.
  destruct (if tick mod 10 =? 0
            then snd (sensor_array_trigger (drv_sensors d, rf0))
            else (drv_sensors d, rf0)) as [sa1 rf1].
  destruct (snd (sensor_array_update (sa1, rf1))) as [sa2 rf2].
  unfold motor_get_state at 1 in Eout. cbn [fst] in Eout. rewrite Hf in Eout. clear Hf.
  set (m0 := {| ic := drv_irq d; ic_regs := rf2;
                g_irq_controller := drv_g_irq_controller d |}) in *.
  set (m1 := if faulted then irq_trigger m0 INT_MOTOR_FAULT else m0) in *.
  destruct (irq_process_pending_calls call Hwb m1 (mc, sa2, w)) as (Hcalls & _ & Hic).
  assert (Hsig : signal_received (ic m1) = 0).
  { subst m1. destruct faulted; [| exact Hl].
    unfold irq_trigger. destruct (INT_COUNT <=? INT_MOTOR_FAULT); [exact Hl |].
    destruct (irq_bit_set (enabled_irqs (ic m0)) INT_MOTOR_FAULT); exact Hl. }
  assert (Hlatch : irq_consume_latch m1 = m1).
  { unfold irq_consume_latch. rewrite Hsig. reflexivity. }
  rewrite Hlatch in Hcalls, Hic.
  assert (Hdue : spec_pending_handlers (ic m1)
                 = (if faulted && irq_bit_set (enabled_irqs (drv_irq d)) INT_MOTOR_FAULT
                       && negb (default 0 (handlers (drv_irq d) !! 0%nat) =? 0)
                    then [ {| inv_handler := default 0 (handlers (drv_irq d) !! 0%nat);
                              inv_source := INT_MOTOR_FAULT;
                              inv_context :=
                                default 0 (handler_contexts (drv_irq d) !! 0%nat) |} ]
                    else []) /\
                 set_pending_irqs (ic m1) 0 = drv_irq d).
  { subst m1. destruct faulted; cbn [andb].
    - unfold irq_trigger. change (INT_COUNT <=? INT_MOTOR_FAULT) with false. cbv iota.
      subst m0. ic_simpl.
      destruct (irq_bit_set (enabled_irqs (drv_irq d)) INT_MOTOR_FAULT); cbn [andb].
      + cbn [ic with_ic with_regs]. split.
        * rewrite spec_pending_handlers_motor_fault
            by (cbn [pending_irqs set_pending_irqs]; rewrite Hp; reflexivity).
          reflexivity.
        * apply set_pending_irqs_back, Hp.
      + ic_simpl. split; [apply spec_pending_handlers_none, Hp |].
        rewrite <- Hp. apply set_pending_irqs_same.
    - subst m0. ic_simpl. split; [apply spec_pending_handlers_none, Hp |].
      rewrite <- Hp. apply set_pending_irqs_same. }
  destruct Hdue as [Hdue Hback].
  destruct (irq_process_pending call (m1, (mc, sa2, w)))
    as [[n calls] [m3 [[mc3 sa3] w3]]].
  cbn [fst snd] in Hcalls, Hic.
  destruct (match fetched with
            | Some (cmd, p1, p2) =>
                if negb (cmd =? CMD_NONE)
                then let '(r, dev) := process_command (mc3, sa3, ic_regs m3) cmd p1 p2 in
                     (Some r, dev)
                else (None, (mc3, sa3, ic_regs m3))
            | None => (None, (mc3, sa3, ic_regs m3))
            end) as [resp [[mc4 sa4] rf4]].
  subst out. cbn [fst snd tick_calls drv_irq].
  split; [rewrite Hcalls; exact Hdue | rewrite Hic; exact Hback].
Qed.

Lemma counting_handlers_keep_controller : handlers_keep_controller counting_handlers.
Proof. intros h s x mw. split; [reflexivity | auto]. Qed.

Lemma driver_tick_reports_fault_witness :
  tick_calls (fst (driver_tick counting_handlers 0 None (driver_overheating, 0)))
  = [ {| inv_handler := 0x1000; inv_source := INT_MOTOR_FAULT; inv_context := 0x10 |} ].
Proof.
  destruct (driver_tick_reports_fault counting_handlers 0 None driver_overheating 0
              counting_handlers_keep_controller eq_refl eq_refl) as [Hcalls _].
  rewrite Hcalls. vm_compute. reflexivity.
Defined.
